(** * SyConn: segmentation storage helpers, contact-site detection,
      compartment smoothing, connectivity extraction and batch jobs

    A shallow embedding of the parts of the SyConn sources that the
    specification's testable properties talk about:

    - [syconn/reps/segmentation_helper.py]: [glia_pred_so], [save_voxels],
      [load_voxels], [load_voxel_list];
    - [syconn_deprecated/processing/contact_sites_helper.py]: [detect_cs],
      [kernel], [process_block], [process_block_nonzero];
    - [syconn/processing/axoness.py]: [majority_processes], [grow_out_soma];
    - [syconn_deprecated/processing/mapper.py]: [calc_syn_dict];
    - [syconn/batchjob_scripts/batchjob_calculate_spinehead_volume.py].

    Python exceptions are values of [exn] carried by the [result] monad,
    dictionaries are stdpp [gmap]s, numpy integers are [Z], numpy doubles are
    the kernel's binary64 floats. *)

From Stdlib Require Import ZArith List Lia Bool Ascii String Floats Reals Lra
  Sorted.
From stdpp Require Import gmap strings list.

Local Open Scope Z_scope.

(** ** Python exceptions *)

Inductive exn : Type :=
  | AssertionError
  | IndexError
  | KeyError
  | ValueError
  | TypeError
  | OverflowError
  | NameError (name : string)
  | OtherException (msg : string).

Inductive result (A : Type) : Type :=
  | Ok (a : A)
  | Raise (e : exn).
Arguments Ok {A} a.
Arguments Raise {A} e.

#[global] Instance result_ret : MRet result := @Ok.
#[global] Instance result_bind : MBind result :=
  fun A B f m => match m with Ok a => f a | Raise e => Raise e end.

(** [assert c] and [l[i]] on a Python list. *)
Definition py_assert (c : bool) : result unit :=
  if c then Ok tt else Raise AssertionError.

Definition py_index {A} (l : list A) (i : nat) : result A :=
  match l !! i with Some a => Ok a | None => Raise IndexError end.

(** ** Three-dimensional numpy arrays

    An array is its shape together with the content of its cells; a cell is
    addressed by its position and cells outside the shape are never read.
    Positions are listed in C order, the order in which numpy walks an
    array. *)

Abbreviation idx3 := (nat * nat * nat)%type.
Abbreviation Z3 := (Z * Z * Z)%type.

Record ndarray (A : Type) : Type := mk_ndarray {
  shape : idx3;
  cell : nat -> nat -> nat -> A
}.
Arguments mk_ndarray {A} shape cell.
Arguments shape {A} n.
Arguments cell {A} n x y z.

Definition at3 {A} (a : ndarray A) (p : idx3) : A :=
  let '(x, y, z) := p in cell a x y z.

Definition ndindex (s : idx3) : list idx3 :=
  let '(sx, sy, sz) := s in
  flat_map (fun x => flat_map (fun y => map (fun z => (x, y, z)) (seq 0 sz))
                              (seq 0 sy))
           (seq 0 sx).

Definition in_shape (s : idx3) (p : idx3) : bool :=
  let '(sx, sy, sz) := s in let '(x, y, z) := p in
  (x <? sx)%nat && (y <? sy)%nat && (z <? sz)%nat.

(** [a.ravel()] *)
Definition ravel {A} (a : ndarray A) : list A := map (at3 a) (ndindex (shape a)).

(** [np.zeros(shape, dtype=bool)]; a negative dimension is a [ValueError]. *)
Definition np_zeros_bool (s : Z3) : result (ndarray bool) :=
  let '(sx, sy, sz) := s in
  if (sx <? 0) || (sy <? 0) || (sz <? 0) then Raise ValueError
  else Ok (mk_ndarray (Z.to_nat sx, Z.to_nat sy, Z.to_nat sz)
                      (fun _ _ _ => false)).

(** [np.sum] of a boolean array counts its [True] cells. *)
Definition np_sum_bool (a : ndarray bool) : Z :=
  fold_left (fun acc (b : bool) => if b then acc + 1 else acc) (ravel a) 0.

(** [np.nonzero(a)], zipped: the positions of the [True] cells, in C order. *)
Definition np_nonzero (a : ndarray bool) : list idx3 :=
  filter (fun p => at3 a p = true) (ndindex (shape a)).

(** A slice bound [i] of an axis of length [len]: negative bounds count from
    the end, and every bound is clipped into [0 .. len]. *)
Definition slice_bound (len : nat) (i : Z) : nat :=
  if i <? 0 then Z.to_nat (Z.max 0 (i + Z.of_nat len))
  else Z.to_nat (Z.min i (Z.of_nat len)).

(** [lo:hi] on an axis of length [len], as first position and extent. *)
Definition slice_axis (len : nat) (lo hi : Z) : nat * nat :=
  let a := slice_bound len lo in
  let b := slice_bound len hi in
  (a, (b - a)%nat).

(** A basic slice [a[lo0:hi0, lo1:hi1, lo2:hi2]] is a view: it names the
    cells of [a] from [view_start] on. *)
Record view : Type := mk_view { view_start : idx3; view_shape : idx3 }.

Definition slice3 (s : idx3) (lo hi : Z3) : view :=
  let '(sx, sy, sz) := s in
  let '(lx, ly, lz) := lo in
  let '(hx, hy, hz) := hi in
  let '(ax, ex) := slice_axis sx lx hx in
  let '(ay, ey) := slice_axis sy ly hy in
  let '(az, ez) := slice_axis sz lz hz in
  mk_view (ax, ay, az) (ex, ey, ez).

(** Reading through a view: [a[lo:hi]] as an array of its own. *)
Definition getslice {A} (a : ndarray A) (lo hi : Z3) : ndarray A :=
  let v := slice3 (shape a) lo hi in
  let '(ax, ay, az) := view_start v in
  mk_ndarray (view_shape v)
             (fun x y z => cell a (ax + x)%nat (ay + y)%nat (az + z)%nat).

Definition idx3_eqb (s t : idx3) : bool :=
  let '(a, b, c) := s in let '(a', b', c') := t in
  (a =? a')%nat && (b =? b')%nat && (c =? c')%nat.

Definition in_view (v : view) (p : idx3) : bool :=
  let '(ax, ay, az) := view_start v in
  let '(ex, ey, ez) := view_shape v in
  let '(x, y, z) := p in
  (ax <=? x)%nat && (x <? ax + ex)%nat &&
  (ay <=? y)%nat && (y <? ay + ey)%nat &&
  (az <=? z)%nat && (z <? az + ez)%nat.

(** [a[lo0:hi0, lo1:hi1, lo2:hi2][mask] = v]: the cells of the view at which
    the boolean [mask] holds are overwritten in [a] itself.  numpy refuses a
    mask whose shape is not the view's with an [IndexError]. *)
Definition setitem_slice_mask {A} (a : ndarray A) (lo hi : Z3)
    (mask : ndarray bool) (v : A) : result (ndarray A) :=
  let w := slice3 (shape a) lo hi in
  if idx3_eqb (view_shape w) (shape mask) then
    let '(ax, ay, az) := view_start w in
    Ok (mk_ndarray (shape a)
          (fun x y z =>
             if in_view w (x, y, z) &&
                cell mask (x - ax)%nat (y - ay)%nat (z - az)%nat
             then v else cell a x y z))
  else Raise IndexError.

(** Integer triples, as numpy adds, subtracts and reduces them. *)
Definition z3_add (a b : Z3) : Z3 :=
  let '(a0, a1, a2) := a in let '(b0, b1, b2) := b in (a0 + b0, a1 + b1, a2 + b2).
Definition z3_sub (a b : Z3) : Z3 :=
  let '(a0, a1, a2) := a in let '(b0, b1, b2) := b in (a0 - b0, a1 - b1, a2 - b2).
Definition z3_min (a b : Z3) : Z3 :=
  let '(a0, a1, a2) := a in let '(b0, b1, b2) := b in
  (Z.min a0 b0, Z.min a1 b1, Z.min a2 b2).
Definition z3_max (a b : Z3) : Z3 :=
  let '(a0, a1, a2) := a in let '(b0, b1, b2) := b in
  (Z.max a0 b0, Z.max a1 b1, Z.max a2 b2).
Definition z3_of_idx (p : idx3) : Z3 :=
  let '(x, y, z) := p in (Z.of_nat x, Z.of_nat y, Z.of_nat z).

(** [np.array(rows).min(axis=0)] and [.max(axis=0)]; an empty list of rows
    has no minimum and raises. *)
Definition np_min_axis0 (rows : list Z3) : result Z3 :=
  match rows with
  | [] => Raise ValueError
  | r :: rest => Ok (fold_left z3_min rest r)
  end.
Definition np_max_axis0 (rows : list Z3) : result Z3 :=
  match rows with
  | [] => Raise ValueError
  | r :: rest => Ok (fold_left z3_max rest r)
  end.

(** ** Voxel storage ([segmentation_helper.py]) *)

(** Modelled from the spec: [VoxelDict] of [syconn/handler/compression.py],
    which is not among the sources.  The spec describes the voxel index of a
    shard as a mapping "object id -> list of (mask block, offset) pairs";
    [load_voxels] reads an entry as the pair of lists
    [bin_arrs, block_offsets], and that is how an entry is kept here.
    [voxel_dc[id] = [arr], [off]] stores an entry, [voxel_dc.append] adds one
    block at the end of both lists, and [save2pkl] writes the dictionary to
    its path, from which [VoxelDict(path)] reads it back (an empty dictionary
    when nothing was written yet). *)
Abbreviation voxel_entry := (list (ndarray bool) * list Z3)%type.
Abbreviation VoxelDict := (gmap Z voxel_entry).
Abbreviation storage := (gmap string VoxelDict).

Definition VoxelDict_open (fs : storage) (path : string) : VoxelDict :=
  default ∅ (fs !! path).

Definition VoxelDict_append (dc : VoxelDict) (key : Z) (bin_arr : ndarray bool)
    (offset : Z3) : VoxelDict :=
  match dc !! key with
  | Some (bin_arrs, offsets) =>
      <[key := (bin_arrs ++ [bin_arr], offsets ++ [offset])]> dc
  | None => <[key := ([bin_arr], [offset])]> dc
  end.

Definition save2pkl (fs : storage) (path : string) (dc : VoxelDict) : storage :=
  <[path := dc]> fs.

(** The fields of a segmentation object that the helpers touch.  A cached
    glia prediction is an N x 2 array of doubles, kept as its list of rows. *)
Abbreviation proba_rows := (list (float * float))%type.

Record SegmentationObject : Type := mk_so {
  so_id : Z;
  so_type : string;
  voxel_path : string;
  attr_dict : gmap string proba_rows;
  _size : Z;
  _bounding_box : option (Z3 * Z3)
}.

Definition set_size (so : SegmentationObject) (n : Z) : SegmentationObject :=
  mk_so (so_id so) (so_type so) (voxel_path so) (attr_dict so) n
        (_bounding_box so).
Definition set_bounding_box (so : SegmentationObject) (bb : Z3 * Z3)
    : SegmentationObject :=
  mk_so (so_id so) (so_type so) (voxel_path so) (attr_dict so) (_size so)
        (Some bb).

(** [save_voxels(so, bin_arr, offset, overwrite)].  The assertion
    [bin_arr.dtype == bool] holds by the type of [bin_arr]. *)
Definition save_voxels (fs : storage) (so : SegmentationObject)
    (bin_arr : ndarray bool) (offset : Z3) (overwrite : bool) : storage :=
  let voxel_dc := VoxelDict_open fs (voxel_path so) in
  let voxel_dc :=
    if bool_decide (is_Some (voxel_dc !! so_id so)) && negb overwrite
    then VoxelDict_append voxel_dc (so_id so) bin_arr offset
    else <[so_id so := ([bin_arr], [offset])]> voxel_dc in
  save2pkl fs (voxel_path so) voxel_dc.

(** What [load_voxels] returns: the dense volume, or the sentinel [-1]. *)
Inductive voxels_or_sentinel : Type :=
  | Voxels (v : ndarray bool)
  | MinusOne.

(** First loop of [load_voxels]: one extent per block,
    [np.array(bin_arrs[i].shape) + block_offsets[i]]. *)
Fixpoint block_extents_from (bin_arrs : list (ndarray bool))
    (block_offsets : list Z3) (i : nat) : result (list Z3) :=
  match bin_arrs with
  | [] => Ok []
  | a :: rest =>
      off ← py_index block_offsets i;
      exts ← block_extents_from rest block_offsets (S i);
      Ok (z3_add (z3_of_idx (shape a)) off :: exts)
  end.

(** Second loop of [load_voxels]: the running size and the volume, with
    block [i] laid at [block_offsets[i] - bounding_box[0]]. *)
Fixpoint lay_blocks_from (bin_arrs : list (ndarray bool))
    (block_offsets block_extents : list Z3) (bb0 : Z3) (i : nat)
    (size : Z) (voxels : ndarray bool) : result (Z * ndarray bool) :=
  match bin_arrs with
  | [] => Ok (size, voxels)
  | a :: rest =>
      off ← py_index block_offsets i;
      ext ← py_index block_extents i;
      let box0 := z3_sub off bb0 in
      let box1 := z3_sub ext bb0 in
      let size := size + np_sum_bool a in
      voxels ← setitem_slice_mask voxels box0 box1 a true;
      lay_blocks_from rest block_offsets block_extents bb0 (S i) size voxels
  end.

Definition load_voxels (fs : storage) (so : SegmentationObject)
    (voxel_dc : option VoxelDict)
    : SegmentationObject * result voxels_or_sentinel :=
  let voxel_dc :=
    match voxel_dc with
    | Some dc => dc
    | None => VoxelDict_open fs (voxel_path so)
    end in
  let so := set_size so 0 in
  match voxel_dc !! so_id so with
  | None => (so, Ok MinusOne)
  | Some (bin_arrs, block_offsets) =>
      match block_extents_from bin_arrs block_offsets 0 with
      | Raise e => (so, Raise e)
      | Ok block_extents =>
          match np_min_axis0 block_offsets, np_max_axis0 block_extents with
          | Ok lo, Ok hi =>
              let so := set_bounding_box so (lo, hi) in
              match np_zeros_bool (z3_sub hi lo) with
              | Raise e => (so, Raise e)
              | Ok voxels =>
                  match lay_blocks_from bin_arrs block_offsets block_extents
                          lo 0 0 voxels with
                  | Ok (size, voxels) => (set_size so size, Ok (Voxels voxels))
                  | Raise e => (so, Raise e)
                  end
              end
          | Raise e, _ => (so, Raise e)
          | _, Raise e => (so, Raise e)
          end
      end
  end.

(** [load_voxel_list], first branch: the coordinates of the [True] cells of
    a dense volume, moved by the volume's origin. *)
Definition voxel_list_of (a : ndarray bool) (origin : Z3) : list Z3 :=
  map (fun p => z3_add (z3_of_idx p) origin) (np_nonzero a).

(** [load_voxel_list], second branch: the same list read straight from the
    stored blocks, block after block. *)
Fixpoint block_voxel_list (bin_arrs : list (ndarray bool))
    (block_offsets : list Z3) (i : nat) : result (list Z3) :=
  match bin_arrs with
  | [] => Ok []
  | a :: rest =>
      off ← py_index block_offsets i;
      tail ← block_voxel_list rest block_offsets (S i);
      Ok (voxel_list_of a off ++ tail)
  end.

(** ** Glia call ([segmentation_helper.py]) *)

(** Python's [float(n)] of a list length and [int(f)]: [int] truncates
    towards zero, refuses [nan] with a [ValueError] and an infinity with an
    [OverflowError]. *)
Definition float_of_int (n : Z) : float := PrimFloat.of_uint63 (Uint63.of_Z n).

Definition int_of_float (f : float) : result Z :=
  match Prim2SF f with
  | S754_zero _ => Ok 0
  | S754_finite s m e =>
      let mag := if 0 <=? e then Z.shiftl (Z.pos m) e
                 else Z.shiftr (Z.pos m) (- e) in
      Ok (if s then - mag else mag)
  | S754_infinity _ => Raise OverflowError
  | S754_nan => Raise ValueError
  end.

(** The double nearest to the literal [0.7]. *)
Definition f0_7 : float := 0x1.6666666666666p-1%float.

Section GliaPred.
(** [so.load_attr_dict()] is a method of the object's class and
    [np.mean] is numpy's: both are taken as given.  numpy sums the column
    pairwise, so the last bits of a mean depend on its version; nothing
    below depends on how the sum is ordered. *)
Variable load_attr_dict : SegmentationObject -> SegmentationObject.
Variable np_mean : list float -> float.

Definition glia_pred_so (so : SegmentationObject) (thresh : float)
    (pred_key_appendix : string) : result Z :=
  _ ← py_assert (String.eqb (so_type so) "sv");
  let pred_key := ("glia_probas" +:+ pred_key_appendix)%string in
  let so := if bool_decide (is_Some (attr_dict so !! pred_key)) then so
            else load_attr_dict so in
  probas ← match attr_dict so !! pred_key with
           | Some rows => Ok rows
           | None => Raise KeyError
           end;
  let column1 := map snd probas in
  let preds := map (fun p => if PrimFloat.ltb thresh p then 1 else 0) column1 in
  let pred := PrimFloat.ltb thresh (np_mean column1) in
  if negb pred then Ok 0
  else
    let glia_votes := fold_left Z.add preds 0 in
    bound ← int_of_float (PrimFloat.mul (float_of_int (Z.of_nat (length preds))) f0_7);
    if bound <? glia_votes then Ok 1 else Ok 0.
End GliaPred.

(** A mean that adds the samples from left to right and divides by their
    number; it agrees with every other summation order whenever all partial
    sums are exact, as they are for samples that are [0.0] or [1.0]. *)
Definition mean_left_to_right (xs : list float) : float :=
  PrimFloat.div (fold_left PrimFloat.add xs PrimFloat.zero)
                (float_of_int (Z.of_nat (length xs))).

(** ** Contact-site detection ([contact_sites_helper.py])

    Label volumes hold [uint32] supervoxel ids, as
    [contact_site_detection_thread] loads them; with such labels every
    intermediate value of the convolution fits the 64-bit integers numpy
    computes with. *)

Definition astype_uint32 (v : Z) : Z := v mod 2 ^ 32.
Definition astype_uint64 (v : Z) : Z := v mod 2 ^ 64.
(** Two's-complement wrap-around of a signed 64-bit result. *)
Definition wrap_int64 (v : Z) : Z := (v + 2 ^ 63) mod 2 ^ 64 - 2 ^ 63.

Definition map_array {A B} (f : A -> B) (a : ndarray A) : ndarray B :=
  mk_ndarray (shape a) (fun x y z => f (cell a x y z)).

Definition np_zeros_int (s : Z3) : result (ndarray Z) :=
  let '(sx, sy, sz) := s in
  if (sx <? 0) || (sy <? 0) || (sz <? 0) then Raise ValueError
  else Ok (mk_ndarray (Z.to_nat sx, Z.to_nat sy, Z.to_nat sz)
                      (fun _ _ _ => 0)).

(** An integer index [i] on an axis of length [len]: a negative index counts
    from the end, anything outside is an [IndexError]. *)
Definition py_axis_index (len : nat) (i : Z) : result nat :=
  let j := if i <? 0 then i + Z.of_nat len else i in
  if (0 <=? j) && (j <? Z.of_nat len) then Ok (Z.to_nat j) else Raise IndexError.

Definition py_index3 (s : idx3) (p : Z3) : result idx3 :=
  let '(sx, sy, sz) := s in
  let '(x, y, z) := p in
  x' ← py_axis_index sx x;
  y' ← py_axis_index sy y;
  z' ← py_axis_index sz z;
  Ok (x', y', z').

(** [a[x, y, z]] and [a[x, y, z] = v]. *)
Definition getitem {A} (a : ndarray A) (p : Z3) : result A :=
  q ← py_index3 (shape a) p; Ok (at3 a q).

Definition store {A} (a : ndarray A) (q : idx3) (v : A) : ndarray A :=
  mk_ndarray (shape a)
    (fun x y z => if idx3_eqb (x, y, z) q then v else cell a x y z).

Definition setitem {A} (a : ndarray A) (p : Z3) (v : A) : result (ndarray A) :=
  q ← py_index3 (shape a) p; Ok (store a q v).

(** The convolution weights of [detect_cs], assigned cell by cell. *)
Definition jac : ndarray Z :=
  let jac := mk_ndarray (3, 3, 3)%nat (fun _ _ _ => 0) in
  let jac := store jac (1, 1, 1)%nat (-6) in
  let jac := store jac (1, 1, 0)%nat 1 in
  let jac := store jac (1, 1, 2)%nat 1 in
  let jac := store jac (1, 0, 1)%nat 1 in
  let jac := store jac (1, 2, 1)%nat 1 in
  let jac := store jac (2, 1, 1)%nat 1 in
  let jac := store jac (0, 1, 1)%nat 1 in
  jac.

(** [scipy.ndimage.convolve(input, weights)] for 3 x 3 x 3 weights, with
    scipy's defaults [mode='reflect'] and [origin=0]: the input is extended
    past each face by mirroring about the face (the cell next to position 0
    is position 0 again), and the weights are applied flipped,
    [out[n] = sum_k weights[k] * input[n + 1 - k]]. *)
Definition reflect (len : nat) (i : Z) : nat :=
  if i <? 0 then Z.to_nat (- i - 1)
  else if Z.of_nat len <=? i then Z.to_nat (2 * Z.of_nat len - 1 - i)
  else Z.to_nat i.

Definition convolve3 (input weights : ndarray Z) : ndarray Z :=
  let '(sx, sy, sz) := shape input in
  let taps := ndindex (3, 3, 3)%nat in
  mk_ndarray (shape input)
    (fun x y z =>
       fold_left
         (fun acc k =>
            let '(i, j, l) := k in
            acc + cell weights i j l *
                  cell input (reflect sx (Z.of_nat x + 1 - Z.of_nat i))
                             (reflect sy (Z.of_nat y + 1 - Z.of_nat j))
                             (reflect sz (Z.of_nat z + 1 - Z.of_nat l)))
         taps 0).

(** [np.unique(chunk, return_counts=True)]: the distinct values in
    increasing order, each with the number of times it occurs. *)
Fixpoint count_insert (v : Z) (uc : list (Z * Z)) : list (Z * Z) :=
  match uc with
  | [] => [(v, 1)]
  | (u, c) :: rest =>
      if v <? u then (v, 1) :: uc
      else if v =? u then (u, c + 1) :: rest
      else (u, c) :: count_insert v rest
  end.

Definition np_unique_counts (values : list Z) : list (Z * Z) :=
  fold_left (fun uc v => count_insert v uc) values [].

(** [np.max] and [np.argmax] (the first position of the maximum). *)
Definition np_max (l : list Z) : result Z :=
  match l with
  | [] => Raise ValueError
  | v :: rest => Ok (fold_left Z.max rest v)
  end.

Fixpoint argmax_from (l : list Z) (i best_i : nat) (best : Z) : nat :=
  match l with
  | [] => best_i
  | v :: rest =>
      if best <? v then argmax_from rest (S i) i v
      else argmax_from rest (S i) best_i best
  end.

Definition np_argmax (l : list Z) : nat :=
  match l with
  | [] => 0%nat
  | v :: rest => argmax_from rest 1 0 v
  end.

(** [counts[unique_ids == v] = -1] *)
Definition mask_count (v : Z) (uc : list (Z * Z)) : list (Z * Z) :=
  map (fun '(u, c) => (u, if u =? v then -1 else c)) uc.

(** [kernel(chunk, center_id)].  The ids are [uint32] scalars; numpy 1.x,
    for which this Python 2 module was written, computes a [uint32] scalar
    shifted by the Python int [32] in [int64], so the shifted id keeps its
    bits and the sum wraps as a signed 64-bit integer. *)
Definition kernel (chunk : ndarray Z) (center_id : Z) : result Z :=
  let uc := np_unique_counts (ravel chunk) in
  let uc := mask_count 0 uc in
  let uc := mask_count center_id uc in
  let unique_ids := map fst uc in
  let counts := map snd uc in
  top ← np_max counts;
  if 0 <? top then
    partner_id ← py_index unique_ids (np_argmax counts);
    if partner_id <? center_id
    then Ok (wrap_int64 (wrap_int64 (Z.shiftl partner_id 32) + center_id))
    else Ok (wrap_int64 (wrap_int64 (Z.shiftl center_id 32) + partner_id))
  else Ok 0.

(** [range(lo, hi)] *)
Definition py_range (lo hi : Z) : list Z :=
  map (fun i => lo + Z.of_nat i) (seq 0 (Z.to_nat (hi - lo))).

Definition stencil_is_odd (stencil : Z3) : bool :=
  let '(s0, s1, s2) := stencil in s0 mod 2 + s1 mod 2 + s2 mod 2 =? 3.

(** [stencil / 2] on an integer array is floor division in Python 2. *)
Definition half_stencil (stencil : Z3) : Z3 :=
  let '(s0, s1, s2) := stencil in (s0 / 2, s1 / 2, s2 / 2).

(** [process_block(edges, arr, stencil)], the full scan.  The window is
    sliced as the source slices it: [x - offset[0] : x + offset[0] + 1] on
    the first axis, but [y - offset[1] : y + offset[1]] and
    [z - offset[2] : z + offset[2]] on the other two. *)
Definition process_block_at (edges arr : ndarray Z) (offset : Z3)
    (out : ndarray Z) (p : Z3) : result (ndarray Z) :=
  let '(o0, o1, o2) := offset in
  let '(x, y, z) := p in
  e ← getitem edges p;
  if e =? 0 then Ok out
  else
    center_id ← getitem arr p;
    let chunk := getslice arr (x - o0, y - o1, z - o2)
                              (x + o0 + 1, y + o1, z + o2) in
    key ← kernel chunk center_id;
    setitem out p (astype_uint64 key).

Definition process_block (edges arr : ndarray Z) (stencil : Z3)
    : result (ndarray Z) :=
  _ ← py_assert (stencil_is_odd stencil);
  let out := mk_ndarray (shape arr) (fun _ _ _ => 0) in
  let '(o0, o1, o2) := half_stencil stencil in
  let '(n0, n1, n2) := z3_of_idx (shape arr) in
  let positions :=
    flat_map (fun x =>
      flat_map (fun y => map (fun z => (x, y, z)) (py_range o2 (n2 - o2)))
               (py_range o1 (n1 - o1)))
      (py_range o0 (n0 - o0)) in
  foldl (fun acc p => out ← acc; process_block_at edges arr (o0, o1, o2) out p)
        (Ok out) positions.

(** [process_block_nonzero(edges, arr, stencil)], the driver [detect_cs]
    uses: only the flagged positions of the cropped edge volume are visited,
    and the result is cropped by the stencil. *)
Definition process_block_nonzero_at (arr : ndarray Z) (stencil offset : Z3)
    (out : ndarray Z) (q : idx3) : result (ndarray Z) :=
  let '(s0, s1, s2) := stencil in
  let '(x, y, z) := z3_of_idx q in
  center_id ← getitem arr (z3_add (x, y, z) offset);
  let chunk := getslice arr (x, y, z) (x + s0, y + s1, z + s2) in
  key ← kernel chunk center_id;
  setitem out (x, y, z) (astype_uint64 key).

Definition process_block_nonzero (edges arr : ndarray Z) (stencil : Z3)
    : result (ndarray Z) :=
  _ ← py_assert (stencil_is_odd stencil);
  let arr_shape := z3_of_idx (shape arr) in
  out ← np_zeros_int (z3_add (z3_sub arr_shape stencil) (1, 1, 1));
  let '(o0, o1, o2) := half_stencil stencil in
  let cropped := getslice edges (o0, o1, o2) (- o0, - o1, - o2) in
  let nze := np_nonzero (map_array (fun e => negb (e =? 0)) cropped) in
  foldl (fun acc q =>
           out ← acc; process_block_nonzero_at arr stencil (o0, o1, o2) out q)
        (Ok out) nze.

(** [detect_cs(arr)] *)
Definition detect_edges (arr : ndarray Z) : ndarray Z :=
  map_array (fun v => astype_uint32 (if v <? 0 then 1 else 0)) (convolve3 arr jac).

Definition detect_cs (arr : ndarray Z) : result (ndarray Z) :=
  let edges := detect_edges arr in
  let arr := map_array astype_uint32 arr in
  process_block_nonzero edges arr (13, 13, 7).

(** ** Compartment smoothing ([axoness.py])

    A tracing is the list of its nodes, in the order [anno.getNodes()] hands
    them out.  A node carries its id, its scaled coordinate, the entry
    [data["axoness_pred"]] (0 dendrite, 1 axon, 2 soma) and the ids of the
    nodes it shares an edge with.  Lengths are real numbers: the source
    computes them in double precision, and the embedding follows the exact
    values those doubles approximate. *)

Abbreviation R3 := (R * R * R)%type.

Record Node : Type := mk_node {
  node_id : Z;
  coordinate_scaled : R3;
  axoness_pred : Z;
  neighbours : list Z
}.

Abbreviation Annotation := (list Node).


Definition degree (n : Node) : nat := length (neighbours n).

(** Modelled from the spec: [assign_property2node(node, pred, 'axoness')] of
    the [features] module, which is not among the sources; the spec's
    [growOutSoma] "relabels" a node with it, so it stores [pred] as the
    node's compartment prediction. *)
Definition assign_property2node (anno : Annotation) (id : Z) (pred : Z)
    : Annotation :=
  map (fun n => if node_id n =? id
                then mk_node (node_id n) (coordinate_scaled n) pred (neighbours n)
                else n) anno.








(** *** [majority_processes]

    The function keeps its working lists in local variables; a name is
    looked up among the locals bound so far, then among the names the module
    binds, then among the builtins, and a name found nowhere raises
    [NameError]. *)
Inductive pyval : Type :=
  | PyInt (n : Z)
  | PyList (ids : list Z)
  | PyObject.

(** The names [axoness.py] binds at module level: its imports and its
    functions. *)
Definition axoness_module_names : list string :=
  ["nx"; "copy"; "os"; "np"; "re"; "Pool"; "Manager"; "cpu_count"; "stdout";
   "time"; "arr"; "joblib"; "au"; "annotation_from_nodes";
   "get_filepaths_from_dir"; "load_ordered_mapped_skeleton";
   "get_skelID_from_path"; "NewSkeleton"; "SkeletonAnnotation";
   "cell_classification"; "save_train_clf"; "load_csv2feat";
   "assign_property2node"; "majority_vote"; "update_property_feat_kzip";
   "morphology_feature"; "__author__"; "save_axoness_clf";
   "load_axon_gt_cell"; "load_axon_gt"; "predict_axoness_mappedskel";
   "predict_axoness_of_single_mappedskel";
   "predict_axoness_from_node_comments"; "predict_axoness_from_nodes";
   "majority_processes"; "calc_distance2soma"; "grow_out_soma";
   "get_soma_tracing_task_skels"]%string.

(** The builtin functions and constants of Python 2. *)
Definition py_builtins : list string :=
  ["abs"; "all"; "any"; "apply"; "basestring"; "bin"; "bool"; "buffer";
   "bytearray"; "bytes"; "callable"; "chr"; "classmethod"; "cmp"; "coerce";
   "compile"; "complex"; "delattr"; "dict"; "dir"; "divmod"; "enumerate";
   "eval"; "execfile"; "file"; "filter"; "float"; "format"; "frozenset";
   "getattr"; "globals"; "hasattr"; "hash"; "help"; "hex"; "id"; "input";
   "int"; "intern"; "isinstance"; "issubclass"; "iter"; "len"; "list";
   "locals"; "long"; "map"; "max"; "memoryview"; "min"; "next"; "object";
   "oct"; "open"; "ord"; "pow"; "print"; "property"; "range"; "raw_input";
   "reduce"; "reload"; "repr"; "reversed"; "round"; "set"; "setattr";
   "slice"; "sorted"; "staticmethod"; "str"; "sum"; "super"; "tuple";
   "type"; "unichr"; "unicode"; "vars"; "xrange"; "zip"; "__import__";
   "True"; "False"; "None"; "Ellipsis"; "NotImplemented"; "Exception";
   "BaseException"; "AssertionError"; "AttributeError"; "EOFError";
   "IOError"; "ImportError"; "IndexError"; "KeyError"; "KeyboardInterrupt";
   "NameError"; "OSError"; "OverflowError"; "RuntimeError"; "StopIteration";
   "SystemExit"; "TypeError"; "ValueError"; "ZeroDivisionError"]%string.

Definition load_name (locals : gmap string pyval) (name : string)
    : result pyval :=
  match locals !! name with
  | Some v => Ok v
  | None =>
      if bool_decide (name ∈ axoness_module_names ++ py_builtins)
      then Ok PyObject
      else Raise (NameError name)
  end.

(** [name.append(x)] and [name += 1] on a local. *)
Definition list_append (locals : gmap string pyval) (name : string) (x : Z)
    : result (gmap string pyval) :=
  v ← load_name locals name;
  match v with
  | PyList ids => Ok (<[name := PyList (ids ++ [x])]> locals)
  | _ => Raise TypeError
  end.

Definition int_increment (locals : gmap string pyval) (name : string)
    : result (gmap string pyval) :=
  v ← load_name locals name;
  match v with
  | PyInt n => Ok (<[name := PyInt (n + 1)]> locals)
  | _ => Raise TypeError
  end.

(** The body of the first loop of [majority_processes], for one node. *)
Definition count_nodes_step (locals : gmap string pyval) (node : Node)
    : result (gmap string pyval) :=
  locals ← (if (degree node =? 1)%nat
            then list_append locals "hns" (node_id node)
            else Ok locals);
  if axoness_pred node =? 2 then
    locals ← int_increment locals "soma_node_nb";
    list_append locals "soma_nodes_ids" (node_id node)
  else Ok locals.

Section MajorityProcesses.
(** What follows the first loop needs [majority_vote],
    [cell_classification] and [assign_property2node] of modules that are
    not among the sources; the two branches are taken as given, each from
    the locals and the tracing it starts with. *)
Variable soma_branch : gmap string pyval -> Annotation -> result Annotation.
Variable no_soma_branch : gmap string pyval -> Annotation -> result Annotation.

Definition majority_processes (anno : Annotation) : result Annotation :=
  let locals : gmap string pyval :=
    <["soma_node_ids" := PyList []]>
      (<["soma_node_nb" := PyInt 0]> (<["hns" := PyList []]> ∅)) in
  locals ← foldl (fun acc node => locals ← acc; count_nodes_step locals node)
                 (Ok locals) anno;
  soma_node_nb ← load_name locals "soma_node_nb";
  match soma_node_nb with
  | PyInt 0 => no_soma_branch locals anno
  | _ => soma_branch locals anno
  end.
End MajorityProcesses.

(** ** Connectivity extraction ([mapper.py], [calc_syn_dict]) *)

(** *** The two regular expressions

    [re.findall] scans from left to right; where the pattern matches it
    records the groups and goes on behind the match, elsewhere it moves one
    character on.  A greedy [\d+] takes the whole run of digits, and giving
    digits back never helps either pattern, since what follows the run is
    then still a digit. *)
Definition is_digit (c : ascii) : bool :=
  (48 <=? nat_of_ascii c)%nat && (nat_of_ascii c <=? 57)%nat.

Fixpoint span_digits (s : string) : string * string :=
  match s with
  | EmptyString => (EmptyString, EmptyString)
  | String c rest =>
      if is_digit c
      then let '(ds, tail) := span_digits rest in (String c ds, tail)
      else (EmptyString, s)
  end.

Fixpoint strip_prefix (p s : string) : option string :=
  match p, s with
  | EmptyString, _ => Some s
  | String a p', String b s' =>
      if Ascii.eqb a b then strip_prefix p' s' else None
  | String _ _, EmptyString => None
  end.

Definition is_empty_string (s : string) : bool :=
  match s with EmptyString => true | _ => false end.

(** ['(\d+)axoness(\-?\d+)'] at the head of [s]: both groups and what is
    left behind the match. *)
Definition match_id_axoness (s : string) : option ((string * string) * string) :=
  let '(id, r) := span_digits s in
  if is_empty_string id then None
  else
    match strip_prefix "axoness" r with
    | None => None
    | Some r1 =>
        let '(sign, r2) :=
          match r1 with
          | String "-"%char r' => ("-"%string, r')
          | _ => (EmptyString, r1)
          end in
        let '(ds, r3) := span_digits r2 in
        if is_empty_string ds then None else Some ((id, sign +:+ ds), r3)
    end.

(** ['cs(\d+)'] at the head of [s]. *)
Definition match_cs (s : string) : option (string * string) :=
  match strip_prefix "cs" s with
  | None => None
  | Some r =>
      let '(ds, r') := span_digits r in
      if is_empty_string ds then None else Some (ds, r')
  end.

Fixpoint findall_from {A} (fuel : nat) (m : string -> option (A * string))
    (s : string) : list A :=
  match fuel with
  | O => []
  | S fuel =>
      match m s with
      | Some (groups, rest) => groups :: findall_from fuel m rest
      | None =>
          match s with
          | EmptyString => []
          | String _ rest => findall_from fuel m rest
          end
      end
  end.

(** A match takes at least one character, so the length of the text bounds
    the number of scanning steps. *)
Definition re_findall {A} (m : string -> option (A * string)) (s : string)
    : list A :=
  findall_from (S (String.length s)) m s.

(** [np.array([...], dtype=np.int)] on a string of an optional sign and
    digits: its value, or [OverflowError] outside the 64-bit range. *)
Fixpoint digits_value (s : string) (acc : Z) : Z :=
  match s with
  | EmptyString => acc
  | String c rest => digits_value rest (10 * acc + Z.of_nat (nat_of_ascii c - 48))
  end.

Definition int64_of_string (s : string) : result Z :=
  let v := match s with
           | String "-"%char ds => - digits_value ds 0
           | _ => digits_value s 0
           end in
  if (- 2 ^ 63 <=? v) && (v <? 2 ^ 63) then Ok v else Raise OverflowError.

(** *** The synapse dictionary *)

Record syn_record : Type := mk_syn {
  post_id : Z;
  post_axoness : Z;
  cs_area : float;
  sj_size_abs : float;
  sj_size_rel : float
}.

Abbreviation features_array := (list (list float)).

(** [features[k, j]] *)
Definition feature (features : features_array) (k j : nat) : result float :=
  row ← py_index features k; py_index row j.

Record syn_state : Type := mk_syn_state {
  ax_ax_cnt : Z;
  den_den_cnt : Z;
  all_post_ids : list Z;
  pre_dict : gmap Z (gmap Z syn_record);
  val_syn_ixs : list nat;
  valid_syn_array : features_array;
  axoness_dict : gmap string (gmap string string)
}.

(** [valid_syn_array[k] = 0] *)
Definition zero_row (a : features_array) (k : nat) : result features_array :=
  match a !! k with
  | Some row => Ok (<[k := map (fun _ => PrimFloat.zero) row]> a)
  | None => Raise IndexError
  end.

(** The part of the loop body behind the compartment test: the contact is
    recorded as valid and merged into [pre_dict]. *)
Definition add_synapse (features : features_array) (k : nat)
    (cell_ids cell_axoness : Z * Z) (st : syn_state) : result syn_state :=
  let ixs := val_syn_ixs st ++ [k] in
  (* np.argmax of two values: the second only when it is strictly larger *)
  let pre_ix := if fst cell_axoness <? snd cell_axoness then 1%nat else 0%nat in
  let pre := if (pre_ix =? 0)%nat then fst cell_ids else snd cell_ids in
  let post := if (pre_ix =? 0)%nat then snd cell_ids else fst cell_ids in
  let post_ax := if (pre_ix =? 0)%nat then snd cell_axoness else fst cell_axoness in
  let posts := all_post_ids st ++ [post] in
  area ← feature features k 1;
  size_abs ← feature features k 2;
  size_rel ← feature features k 3;
  let syn_dict := mk_syn post post_ax area size_abs size_rel in
  let dict :=
    match pre_dict st !! pre with
    | Some syns =>
        match syns !! post with
        | Some old =>
            let merged :=
              mk_syn (post_id old) (post_axoness old)
                     (PrimFloat.add (cs_area old) area)
                     (PrimFloat.add (sj_size_abs old) size_abs)
                     (sj_size_rel old) in
            <[pre := <[post := merged]> syns]> (pre_dict st)
        | None => <[pre := <[post := syn_dict]> syns]> (pre_dict st)
        end
    | None => <[pre := {[post := syn_dict]}]> (pre_dict st)
    end in
  Ok (mk_syn_state (ax_ax_cnt st) (den_den_cnt st) posts dict
                   ixs (valid_syn_array st) (axoness_dict st)).

(** What the head of the loop body reads off the comment [ax_info]: the two
    matches of the first pattern, the first match of the second, and the
    ids and compartment labels as integers. *)
Record parsed_info : Type := mk_parsed {
  cell1 : string * string;
  cell2 : string * string;
  cs_nb : string;
  cell_ids : Z * Z;
  cell_axoness : Z * Z
}.

Definition parse_ax_info (ax_info : string) : result parsed_info :=
  cells ← match re_findall match_id_axoness ax_info with
          | [c1; c2] => Ok (c1, c2)
          | _ => Raise ValueError
          end;
  let '(c1, c2) := cells in
  nb ← py_index (re_findall match_cs ax_info) 0;
  id1 ← int64_of_string (fst c1);
  id2 ← int64_of_string (fst c2);
  ax1 ← int64_of_string (snd c1);
  ax2 ← int64_of_string (snd c2);
  Ok (mk_parsed c1 c2 nb (id1, id2) (ax1, ax2)).

(** One pass of the loop of [calc_syn_dict], for contact [k] with the
    comment [ax_info]. *)
Definition syn_dict_step (features : features_array) (get_all : bool)
    (k : nat) (ax_info : string) (st : syn_state) : result syn_state :=
  p ← parse_ax_info ax_info;
  let axoness_entry : gmap string string :=
    <[fst (cell2 p) := snd (cell2 p)]> ({[fst (cell1 p) := snd (cell1 p)]}) in
  let key := (cs_nb p +:+ "_" +:+ fst (cell1 p) +:+ "_" +:+ fst (cell2 p))%string in
  let st := mk_syn_state (ax_ax_cnt st) (den_den_cnt st) (all_post_ids st)
              (pre_dict st) (val_syn_ixs st) (valid_syn_array st)
              (<[key := axoness_entry]> (axoness_dict st)) in
  if fst (cell_axoness p) =? snd (cell_axoness p) then
    if fst (cell_axoness p) =? 1 then
      let st := mk_syn_state (ax_ax_cnt st + 1) (den_den_cnt st)
                  (all_post_ids st) (pre_dict st) (val_syn_ixs st)
                  (valid_syn_array st) (axoness_dict st) in
      add_synapse features k (cell_ids p) (cell_axoness p) st
    else
      valid ← zero_row (valid_syn_array st) k;
      let st := mk_syn_state (ax_ax_cnt st) (den_den_cnt st + 1)
                  (all_post_ids st) (pre_dict st) (val_syn_ixs st)
                  valid (axoness_dict st) in
      if negb get_all then Ok st
      else add_synapse features k (cell_ids p) (cell_axoness p) st
  else add_synapse features k (cell_ids p) (cell_axoness p) st.

Fixpoint syn_dict_loop (features : features_array) (get_all : bool)
    (k : nat) (axoness_info : list string) (st : syn_state)
    : result syn_state :=
  match axoness_info with
  | [] => Ok st
  | ax_info :: rest =>
      st ← syn_dict_step features get_all k ax_info st;
      syn_dict_loop features get_all (S k) rest st
  end.

Definition syn_state_init (features : features_array) : syn_state :=
  mk_syn_state 0 0 [] ∅ []
    (map (map (fun _ => PrimFloat.one)) features) ∅.

(** What [calc_syn_dict] returns, in the order of its [return]. *)
Record syn_result : Type := mk_syn_result {
  res_features : features_array;
  res_axoness_info : list string;
  res_pre_dict : gmap Z (gmap Z syn_record);
  res_all_post_ids : list Z;
  res_valid_syn_array : features_array;
  res_axoness_dict : gmap string (gmap string string)
}.

(** [a[ixs]] for a list of positions. *)
Fixpoint take_rows {A} (a : list A) (ixs : list nat) : result (list A) :=
  match ixs with
  | [] => Ok []
  | i :: rest => x ← py_index a i; xs ← take_rows a rest; Ok (x :: xs)
  end.

Definition calc_syn_dict (features : features_array)
    (axoness_info : list string) (get_all : bool) : result syn_result :=
  if (length axoness_info =? 0)%nat then Ok (mk_syn_result [] [] ∅ [] [] ∅)
  else
    st ← syn_dict_loop features get_all 0 axoness_info (syn_state_init features);
    fs ← take_rows features (val_syn_ixs st);
    infos ← take_rows axoness_info (val_syn_ixs st);
    Ok (mk_syn_result fs infos (pre_dict st) (all_post_ids st)
                      (valid_syn_array st) (axoness_dict st)).

(** ** The spine-head volume batch job
       ([batchjob_calculate_spinehead_volume.py])

    The script is run with the path of its argument file and the path of
    its output file.  A file holds the values pickled into it. *)
Inductive pickled : Type :=
  | PStr (s : string)
  | PIds (ids : list Z).

(** What the calls on one reconstruction do: whether [load_skeleton()]
    finds a skeleton, and the exception, if any, that
    [extract_spinehead_volume_mesh] raises. *)
Record sso_behaviour : Type := mk_sso {
  load_skeleton : bool;
  extract_spinehead_volume_mesh : option exn
}.

Record job_state : Type := mk_job {
  files : gmap string (list pickled);
  saved_skeletons : list Z
}.

Section SpineheadJob.
(** [SuperSegmentationDataset()] and its objects belong to modules that
    are not among the sources; the dataset is taken as given. *)
Variable ssd : Z -> sso_behaviour.

(** The body of the [for] loop.  The handler's [raise()] raises the empty
    tuple, which Python 3 answers with a [TypeError]. *)
Definition spinehead_step (st : job_state) (sso_id : Z)
    : job_state * result unit :=
  let sso := ssd sso_id in
  if negb (load_skeleton sso) then (st, Raise AssertionError)
  else
    match extract_spinehead_volume_mesh sso with
    | Some _ => (st, Raise TypeError)
    | None =>
        (mk_job (files st) (saved_skeletons st ++ [sso_id]), Ok tt)
    end.

Fixpoint spinehead_loop (st : job_state) (sso_ids : list Z)
    : job_state * result unit :=
  match sso_ids with
  | [] => (st, Ok tt)
  | id :: rest =>
      match spinehead_step st id with
      | (st, Ok _) => spinehead_loop st rest
      | (st, Raise e) => (st, Raise e)
      end
  end.

Definition spinehead_job (st : job_state)
    (path_storage_file path_out_file : string) : job_state * result unit :=
  match files st !! path_storage_file with
  | None => (st, Raise (OtherException "FileNotFoundError"))
  | Some args =>
      match args with
      | [] => (st, Raise IndexError)
      | PStr _ :: _ => (st, Raise TypeError)
      | PIds sso_ids :: _ =>
          match spinehead_loop st sso_ids with
          | (st, Raise e) => (st, Raise e)
          | (st, Ok _) =>
              (mk_job (<[path_out_file := [PStr ""]]> (files st))
                      (saved_skeletons st), Ok tt)
          end
      end
  end.
End SpineheadJob.

(** ** Voxel lists and downsampling ([segmentation_helper.py]) *)

Definition wrap_int32 (v : Z) : Z := (v + 2 ^ 31) mod 2 ^ 32 - 2 ^ 31.

Definition z3_map (f : Z -> Z) (a : Z3) : Z3 :=
  let '(a0, a1, a2) := a in (f a0, f a1, f a2).
Definition z3_mul (a b : Z3) : Z3 :=
  let '(a0, a1, a2) := a in let '(b0, b1, b2) := b in (a0 * b0, a1 * b1, a2 * b2).

(** [np.array(zip(... np.nonzero(a)), dtype=np.int32)]: one row per [True]
    cell, its position cast to [int32]. *)
Definition nonzero_rows (a : ndarray bool) : list Z3 :=
  map (fun p => z3_map wrap_int32 (z3_of_idx p)) (np_nonzero a).

(** Arithmetic of such an array with a triple.  With rows the array has the
    shape (n, 3) and the triple is applied to every row; without rows it is
    the flat empty array of shape (0,), which numpy cannot broadcast
    against a triple. *)
Definition broadcast_rows (f : Z3 -> Z3) (rows : list Z3) : result (list Z3) :=
  match rows with
  | [] => Raise ValueError
  | _ => Ok (map f rows)
  end.

(** The loop of the second branch of [load_voxel_list].  [block_voxels] is
    an [int32] array and [+=] adds the offset in place, so the sums are
    cast back to [int32]. *)
Fixpoint load_voxel_list_blocks (bin_arrs : list (ndarray bool))
    (block_offsets : list Z3) (i : nat) (voxel_list : list Z3)
    : result (list Z3) :=
  match bin_arrs with
  | [] => Ok voxel_list
  | a :: rest =>
      let block_voxels := nonzero_rows a in
      off ← py_index block_offsets i;
      block_voxels ←
        broadcast_rows (fun r => z3_map wrap_int32 (z3_add r off)) block_voxels;
      load_voxel_list_blocks rest block_offsets (S i) (voxel_list ++ block_voxels)
  end.

(** Modelled from the spec: [so.voxels] and [so.bounding_box] are
    properties of the class of segmentation objects, which is not among the
    sources.  The spec has [loadVoxels] set "the object's cached bounding
    box" as a byproduct and the voxel list "offset into absolute dataset
    coordinates"; so the cached volume [_voxels], when there is one, and
    the cached bounding box are handed to [load_voxel_list] as the values
    the two properties give. *)
Definition load_voxel_list (fs : storage) (so : SegmentationObject)
    (_voxels : option (ndarray bool)) (bounding_box : Z3 * Z3)
    : result (list Z3) :=
  match _voxels with
  | Some voxels =>
      broadcast_rows (fun r => z3_add r (fst bounding_box)) (nonzero_rows voxels)
  | None =>
      let voxel_dc := VoxelDict_open fs (voxel_path so) in
      match voxel_dc !! so_id so with
      | None => Raise KeyError
      | Some (bin_arrs, block_offsets) =>
          load_voxel_list_blocks bin_arrs block_offsets 0 []
      end
  end.

(** [a[::step]] on an axis of length [len]: how many positions the slice
    takes, and the position of [a] that its [i]-th one names.  A negative
    step walks down from the last position; a step of 0 is a
    [ValueError]. *)
Definition stride_axis (len : nat) (step : Z) : result (nat * (nat -> nat)) :=
  if step =? 0 then Raise ValueError
  else
    let k := Z.to_nat (Z.abs step) in
    Ok (((len + k - 1) / k)%nat,
        fun i => if 0 <? step then (i * k)%nat else (len - 1 - i * k)%nat).

Definition getstrided {A} (a : ndarray A) (steps : Z3) : result (ndarray A) :=
  let '(sx, sy, sz) := shape a in
  let '(d0, d1, d2) := steps in
  ax ← stride_axis sx d0;
  ay ← stride_axis sy d1;
  az ← stride_axis sz d2;
  Ok (mk_ndarray (fst ax, fst ay, fst az)
                 (fun x y z => cell a (snd ax x) (snd ay y) (snd az z))).

(** [load_voxels_downsampled(so, downsampling)], from the value of
    [so.voxels]; [None] stands for the empty list it returns for an object
    without voxels. *)
Definition load_voxels_downsampled (voxels : voxels_or_sentinel)
    (downsampling : Z3) : result (option (ndarray bool)) :=
  match voxels with
  | MinusOne => Ok None
  | Voxels v => a ← getstrided v downsampling; Ok (Some a)
  end.

Definition dvoxel_rows (dvoxels : option (ndarray bool)) : list Z3 :=
  match dvoxels with
  | Some a => nonzero_rows a
  | None => []
  end.

(** [load_voxel_list_downsampled(so, downsampling)], from the values of
    [so.voxels] and [so.bounding_box[0]]. *)
Definition load_voxel_list_downsampled (voxels : voxels_or_sentinel)
    (bounding_box0 : Z3) (downsampling : Z3) : result (list Z3) :=
  dvoxels ← load_voxels_downsampled voxels downsampling;
  voxel_list ← broadcast_rows (fun r => z3_mul r downsampling) (dvoxel_rows dvoxels);
  Ok (map (fun r => z3_add r bounding_box0) voxel_list).

(** [len(dvoxels)] and [True in dvoxels] *)
Definition dvoxels_len (dvoxels : option (ndarray bool)) : nat :=
  match dvoxels with
  | Some a => fst (fst (shape a))
  | None => 0%nat
  end.

Definition contains_true (dvoxels : option (ndarray bool)) : bool :=
  match dvoxels with
  | Some a => existsb (fun b : bool => b) (ravel a)
  | None => false
  end.

(** [downsampling /= 2; downsampling[downsampling < 1] = 1] on an integer
    array, where Python 2 divides with floor. *)
Definition halve_downsampling (downsampling : Z3) : Z3 :=
  z3_map (fun d => if d / 2 <? 1 then 1 else d / 2) downsampling.

(** The [while True] loop of [load_voxel_list_downsampled_adapt]; it ends
    only through its [break].  [fuel] bounds the number of passes, and
    [None] says that they did not suffice. *)
Fixpoint adapt_loop (fuel : nat) (voxels : voxels_or_sentinel)
    (downsampling : Z3) (dvoxels : option (ndarray bool))
    : option (result (Z3 * option (ndarray bool))) :=
  match fuel with
  | O => None
  | S fuel =>
      if contains_true dvoxels then Some (Ok (downsampling, dvoxels))
      else
        let downsampling := halve_downsampling downsampling in
        match load_voxels_downsampled voxels downsampling with
        | Raise e => Some (Raise e)
        | Ok dvoxels => adapt_loop fuel voxels downsampling dvoxels
        end
  end.

Definition load_voxel_list_downsampled_adapt (fuel : nat)
    (voxels : voxels_or_sentinel) (bounding_box0 : Z3) (downsampling : Z3)
    : option (result (list Z3)) :=
  match load_voxels_downsampled voxels downsampling with
  | Raise e => Some (Raise e)
  | Ok dvoxels =>
      if (dvoxels_len dvoxels =? 0)%nat then Some (Ok [])
      else
        match adapt_loop fuel voxels downsampling dvoxels with
        | None => None
        | Some (Raise e) => Some (Raise e)
        | Some (Ok (downsampling, dvoxels)) =>
            Some (voxel_list ←
                    broadcast_rows (fun r => z3_mul r downsampling)
                                   (dvoxel_rows dvoxels);
                  Ok (map (fun r => z3_add r bounding_box0) voxel_list))
        end
  end.

(** ** The branch of [majority_processes] for a tracing without soma
       ([axoness.py]) *)

Section MajorityWithoutSoma.
(** [cell_classification] belongs to a module that is not among the
    sources; it is taken as given. *)
Variable cell_classification : list Z -> Z.

(** The [else] branch: the labels of all nodes are collected, classified
    as one, and the outcome is assigned to every node. *)
Definition majority_without_soma (locals : gmap string pyval)
    (anno : Annotation) : result Annotation :=
  let axoness_found := map axoness_pred anno in
  let majority_axoness := cell_classification axoness_found in
  Ok (foldl (fun acc node =>
               assign_property2node acc (node_id node) majority_axoness)
            anno anno).
End MajorityWithoutSoma.

(** ** The contact-site job of one chunk ([contact_sites_helper.py]) *)

Record Chunk : Type := mk_chunk {
  chunk_coordinates : Z3;
  chunk_size : Z3
}.

Section ContactSiteDetectionThread.
(** [kd.from_overlaycubes_to_matrix(size, offset, datatype=np.uint64)] of
    the knossos dataset, which is not among the sources, is taken as
    given. *)
Variable from_overlaycubes_to_matrix : Z3 -> Z3 -> ndarray Z.

(** [contact_site_detection_thread(args)]: the volume of the chunk, grown
    by the overlap (6, 6, 3) on every face, goes through [detect_cs]; the
    result is what the job saves under the key ["cs"]. *)
Definition contact_site_detection_thread (chunk : Chunk) : result (ndarray Z) :=
  let overlap := (6, 6, 3) in
  let offset := z3_sub (chunk_coordinates chunk) overlap in
  let size := z3_add (z3_mul (2, 2, 2) overlap) (chunk_size chunk) in
  let data := map_array astype_uint32 (from_overlaycubes_to_matrix size offset) in
  detect_cs data.
End ContactSiteDetectionThread.

(** ** The compartment comment of a contact site ([axoness.py]) *)

(** Python's [str] of an integer: its decimal digits, behind a minus sign
    when it is negative.  [fuel] bounds the number of digits, of which a
    number has no more than binary ones. *)
Definition digit_char (d : Z) : ascii := ascii_of_nat (48 + Z.to_nat d).

Fixpoint str_digits (fuel : nat) (n : Z) : string :=
  match fuel with
  | O => EmptyString
  | S fuel =>
      String.append (if n <? 10 then EmptyString else str_digits fuel (n / 10))
                    (String (digit_char (n mod 10)) EmptyString)
  end.

Definition py_str (n : Z) : string :=
  if n <? 0 then String "-"%char (str_digits (S (Z.to_nat (Z.log2 (- n)))) (- n))
  else str_digits (S (Z.to_nat (Z.log2 n))) n.

(** The comment [predict_axoness_from_nodes] appends to a contact site:
    [str(ids[0]) + 'axoness' + str(axoness_0) + '_' + str(ids[1]) +
     'axoness' + str(axoness_1)]. *)
Definition axoness_comment (ids : Z * Z) (axoness_0 axoness_1 : Z) : string :=
  (py_str (fst ids) +:+ "axoness" +:+ py_str axoness_0 +:+ "_"
   +:+ py_str (snd ids) +:+ "axoness" +:+ py_str axoness_1)%string.

(** ** Concrete inputs used by the examples below *)

(** Ninety glia samples, 63 of them sure of glia and 27 sure of the
    opposite, and ten samples with [k] votes for glia. *)
Definition glia_rows (votes others : nat) : proba_rows :=
  repeat (PrimFloat.zero, PrimFloat.one) votes ++
  repeat (PrimFloat.one, PrimFloat.zero) others.

Definition sv_with_rows (rows : proba_rows) : SegmentationObject :=
  mk_so 1 "sv" "voxel.pkl" {["glia_probas"%string := rows]} 0 None.

(** A 3 x 3 x 3 label volume whose centre voxel carries label 2 and whose
    only other labelled voxel, label 1, is the centre's neighbour on the
    second axis; the centre is the one flagged edge voxel. *)
Definition centre_and_y_neighbour : ndarray Z :=
  let a := mk_ndarray (3, 3, 3)%nat (fun _ _ _ => 0) in
  let a := store a (1, 1, 1)%nat 2 in
  store a (1, 2, 1)%nat 1.

Definition centre_flag : ndarray Z :=
  store (mk_ndarray (3, 3, 3)%nat (fun _ _ _ => 0)) (1, 1, 1)%nat 1.

(** A tracing of one soma node and one dendrite node joined by an edge. *)
Definition soma_and_dendrite : Annotation :=
  [mk_node 1 (0, 0, 0)%R 2 [2]; mk_node 2 (10, 0, 0)%R 0 [1]].

(** A job over the reconstructions 7 and 8, where the spine-head extraction
    of 8 raises. *)
Definition ssd_second_fails (id : Z) : sso_behaviour :=
  if id =? 8 then mk_sso true (Some (OtherException "mesh is empty"))
  else mk_sso true None.

Definition ssd_all_fine (id : Z) : sso_behaviour := mk_sso true None.

Definition job_start : job_state :=
  mk_job {["args.pkl"%string := [PIds [7; 8]]]} [].

(** ** Notions used to state the properties of [calc_syn_dict] *)

(** The record of the ordered pair [(pre, post)] in a connectivity
    dictionary. *)
Definition lookup2 (d : gmap Z (gmap Z syn_record)) (pre post : Z)
    : option syn_record :=
  syns ← d !! pre; syns !! post.

(** Which side of a parsed contact the loop takes as presynaptic: the side
    [np.argmax] picks, the second one only when its label is the larger. *)
Definition pre_of (p : parsed_info) : Z :=
  if fst (cell_axoness p) <? snd (cell_axoness p)
  then snd (cell_ids p) else fst (cell_ids p).
Definition post_of (p : parsed_info) : Z :=
  if fst (cell_axoness p) <? snd (cell_axoness p)
  then fst (cell_ids p) else snd (cell_ids p).
Definition post_axoness_of (p : parsed_info) : Z :=
  if fst (cell_axoness p) <? snd (cell_axoness p)
  then fst (cell_axoness p) else snd (cell_axoness p).

(** Whether the loop body reaches [val_syn_ixs.append(k)]: the labels
    differ, or both are axon, or every contact was asked for. *)
Definition contact_is_kept (get_all : bool) (p : parsed_info) : bool :=
  negb (fst (cell_axoness p) =? snd (cell_axoness p))
  || (fst (cell_axoness p) =? 1) || get_all.

Definition info_is_kept (get_all : bool) (ax_info : string) : bool :=
  match parse_ax_info ax_info with
  | Ok p => contact_is_kept get_all p
  | Raise _ => false
  end.

(** The record a pair has after one more contact with the features
    [area], [size_abs], [size_rel]. *)
Definition merge_contact (old : option syn_record) (p : parsed_info)
    (area size_abs size_rel : float) : syn_record :=
  match old with
  | Some o => mk_syn (post_id o) (post_axoness o)
                     (PrimFloat.add (cs_area o) area)
                     (PrimFloat.add (sj_size_abs o) size_abs)
                     (sj_size_rel o)
  | None => mk_syn (post_of p) (post_axoness_of p) area size_abs size_rel
  end.

(** The inputs [calc_syn_dict] is written for: every comment parses, and
    the feature array has one row per comment and at least four columns. *)
Definition well_formed_contacts (features : features_array)
    (axoness_info : list string) : Prop :=
  length features = length axoness_info /\
  Forall (fun row => (4 <= length row)%nat) features /\
  Forall (fun ax_info => exists p, parse_ax_info ax_info = Ok p) axoness_info.

(** Two contacts between axon 5 and dendrite 7, and one contact of each
    same-compartment kind. *)
Definition two_contacts : features_array * list string :=
  ([[0.5; 2; 3; 0.25]; [0.5; 10; 20; 0.5]]%float,
   ["cs12_5axoness1_7axoness0"; "cs13_7axoness0_5axoness1"]%string).

Definition axon_axon_contact : features_array * list string :=
  ([[0.5; 2; 3; 0.25]]%float, ["cs12_5axoness1_7axoness1"]%string).

Definition dendrite_dendrite_contact : features_array * list string :=
  ([[0.5; 2; 3; 0.25]]%float, ["cs12_5axoness0_7axoness0"]%string).

(** The positions the loop records as valid, counted from [k] on, and the
    record the pair [(pre, post)] ends with when the loop runs over
    [axoness_info] from position [k] on, starting from the record [acc]. *)
Fixpoint kept_ixs (get_all : bool) (k : nat) (axoness_info : list string)
    : list nat :=
  match axoness_info with
  | [] => []
  | ax_info :: rest =>
      (if info_is_kept get_all ax_info then [k] else [])
      ++ kept_ixs get_all (S k) rest
  end.

Definition contributes (get_all : bool) (pre post : Z) (p : parsed_info)
    : bool :=
  contact_is_kept get_all p && (pre =? pre_of p) && (post =? post_of p).

Fixpoint pair_record (features : features_array) (get_all : bool)
    (pre post : Z) (k : nat) (axoness_info : list string)
    (acc : option syn_record) : option syn_record :=
  match axoness_info with
  | [] => acc
  | ax_info :: rest =>
      let acc :=
        match parse_ax_info ax_info, features !! k with
        | Ok p, Some row =>
            match row !! 1%nat, row !! 2%nat, row !! 3%nat with
            | Some a, Some s, Some r =>
                if contributes get_all pre post p
                then Some (merge_contact acc p a s r) else acc
            | _, _, _ => acc
            end
        | _, _ => acc
        end in
      pair_record features get_all pre post (S k) rest acc
  end.

(** ** Notions used to state the properties of the voxel store *)

(** Whether the absolute coordinate [q] is a [True] voxel of the block
    [bin_arr] stored at [offset]. *)
Definition block_voxel (bin_arr : ndarray bool) (offset : Z3) (q : Z3) : bool :=
  let '(x, y, z) := z3_sub q offset in
  (0 <=? x) && (0 <=? y) && (0 <=? z) &&
  in_shape (shape bin_arr) (Z.to_nat x, Z.to_nat y, Z.to_nat z) &&
  cell bin_arr (Z.to_nat x) (Z.to_nat y) (Z.to_nat z).

Definition z3_le (a b : Z3) : Prop :=
  let '(a0, a1, a2) := a in let '(b0, b1, b2) := b in
  a0 <= b0 /\ a1 <= b1 /\ a2 <= b2.

(** [m] is the elementwise minimum (maximum) of the rows: it bounds every
    row, and each of its components is the component of some row. *)
Definition elementwise_min (m : Z3) (rows : list Z3) : Prop :=
  (forall r, r ∈ rows -> z3_le m r) /\
  (exists r, r ∈ rows /\ r.1.1 = m.1.1) /\
  (exists r, r ∈ rows /\ r.1.2 = m.1.2) /\
  (exists r, r ∈ rows /\ r.2 = m.2).
Definition elementwise_max (m : Z3) (rows : list Z3) : Prop :=
  (forall r, r ∈ rows -> z3_le r m) /\
  (exists r, r ∈ rows /\ r.1.1 = m.1.1) /\
  (exists r, r ∈ rows /\ r.1.2 = m.1.2) /\
  (exists r, r ∈ rows /\ r.2 = m.2).

(** The extent of a block: its shape added to its offset. *)
Definition block_extent (bin_arr : ndarray bool) (offset : Z3) : Z3 :=
  z3_add (z3_of_idx (shape bin_arr)) offset.

(** Two blocks whose [True] voxels meet in the voxel (1, 0, 0). *)
Definition full_block (s : idx3) : ndarray bool :=
  mk_ndarray s (fun _ _ _ => true).

Definition so_one : SegmentationObject :=
  mk_so 5 "sv" "voxel.pkl" ∅ 0 None.

Definition overlapping_store : storage :=
  {["voxel.pkl"%string :=
      {[5 := ([full_block (2, 1, 1)%nat; full_block (2, 1, 1)%nat],
              [(0, 0, 0); (1, 0, 0)])]}]}.

(** ** Notions used to state the properties of [detect_cs] *)

(** A volume of shape [s] made of two constant blocks that share a face:
    label 1 where the coordinate along [ax] is below [split], label 2 from
    [split] on. *)
Inductive axis : Type := Axis0 | Axis1 | Axis2.

Definition along (ax : axis) (p : idx3) : nat :=
  match ax with
  | Axis0 => p.1.1
  | Axis1 => p.1.2
  | Axis2 => p.2
  end.

Definition two_blocks (s : idx3) (ax : axis) (split : nat) : ndarray Z :=
  mk_ndarray s (fun x y z => if (along ax (x, y, z) <? split)%nat then 1 else 2).

(** The cell of the result of [detect_cs] that belongs to position [p] of
    the volume: the result is cropped by half the stencil, (6, 6, 3), on
    every face, so positions in that margin have no cell. *)
Definition assigned_key (out : ndarray Z) (p : idx3) : option Z :=
  let '(x, y, z) := p in
  if (6 <=? x)%nat && (6 <=? y)%nat && (3 <=? z)%nat &&
     in_shape (shape out) (x - 6, y - 6, z - 3)%nat
  then Some (cell out (x - 6) (y - 6) (z - 3))
  else None.

(** How often [v] occurs in a list, and the result of [np.unique] with
    counts on a list that holds [n] ones and [m] twos and nothing else. *)
Fixpoint occurrences (v : Z) (l : list Z) : Z :=
  match l with
  | [] => 0
  | u :: rest => (if u =? v then 1 else 0) + occurrences v rest
  end.

Definition ones_and_twos (n m : Z) : list (Z * Z) :=
  (if 0 <? n then [(1, n)] else []) ++ (if 0 <? m then [(2, m)] else []).

(** Whether position [p] of a volume of shape [s] lies at least (6, 6, 3)
    voxels away from every face. *)
Definition interior (s p : idx3) : bool :=
  let '(sx, sy, sz) := s in
  let '(x, y, z) := p in
  (6 <=? x)%nat && (x + 6 <? sx)%nat &&
  (6 <=? y)%nat && (y + 6 <? sy)%nat &&
  (3 <=? z)%nat && (z + 3 <? sz)%nat.

(** ** Notions used to state further properties *)

(** Two positions that differ by one step along exactly one axis. *)
Definition face_neighbour (p q : idx3) : Prop :=
  let '(x, y, z) := p in
  let '(x', y', z') := q in
  (y = y' /\ z = z' /\ (x' = S x \/ x = S x')) \/
  (x = x' /\ z = z' /\ (y' = S y \/ y = S y')) \/
  (x = x' /\ y = y' /\ (z' = S z \/ z = S z')).

(** The stores that calls of [save_voxels] build from an empty one. *)
Inductive saved_store : storage -> Prop :=
  | saved_empty : saved_store ∅
  | saved_step (fs : storage) (so : SegmentationObject) (bin_arr : ndarray bool)
      (offset : Z3) (overwrite : bool) :
      saved_store fs -> saved_store (save_voxels fs so bin_arr offset overwrite).

(** The coordinates of a block are not negative and fit [int32]. *)
Definition fits_int32 (bin_arr : ndarray bool) (offset : Z3) : Prop :=
  z3_le (0, 0, 0) offset /\
  z3_le (block_extent bin_arr offset) (2 ^ 31, 2 ^ 31, 2 ^ 31).

Definition small_shape (s : idx3) : Prop :=
  z3_le (z3_of_idx s) (2 ^ 31, 2 ^ 31, 2 ^ 31).

(** A store in which the second block of object 5 holds no voxel. *)
Definition store_with_empty_block : storage :=
  {["voxel.pkl"%string :=
      {[5 := ([full_block (1, 1, 1)%nat;
               mk_ndarray (1, 1, 1)%nat (fun _ _ _ => false)],
              [(0, 0, 0); (3, 0, 0)])]}]}.

(** Whether the coordinate [q] lies a multiple of the downsampling factors
    away from [origin] along every axis. *)
Definition on_grid (downsampling origin q : Z3) : Prop :=
  let '(d0, d1, d2) := downsampling in
  let '(x, y, z) := z3_sub q origin in
  (d0 | x) /\ (d1 | y) /\ (d2 | z).









(** ** Notions used to state further properties of [calc_syn_dict] *)

(** A contact between two equal compartment labels other than axon: the
    loop counts it as dendrite-dendrite and zeroes its row of the validity
    array. *)
Definition same_label_not_axon (p : parsed_info) : bool :=
  (fst (cell_axoness p) =? snd (cell_axoness p))
  && negb (fst (cell_axoness p) =? 1).

(** The postsynaptic ids of the contacts the loop keeps, in their order. *)
Fixpoint kept_posts (get_all : bool) (axoness_info : list string) : list Z :=
  match axoness_info with
  | [] => []
  | ax_info :: rest =>
      match parse_ax_info ax_info with
      | Ok p => if contact_is_kept get_all p then [post_of p] else []
      | Raise _ => []
      end ++ kept_posts get_all rest
  end.

(** One contact between an axon (label 1) and a soma (label 2), one
    comment that names a single cell, and a well-formed contact before
    it. *)
Definition axon_soma_contact : features_array * list string :=
  ([[0.5; 2; 3; 0.25]]%float, ["cs12_5axoness1_9axoness2"]%string).

Definition contact_then_malformed : features_array * list string :=
  ([[0.5; 2; 3; 0.25]; [0.5; 10; 20; 0.5]]%float,
   ["cs12_5axoness1_7axoness0"; "cs13_7axoness0"]%string).

(** The compartment label of the side the loop takes as presynaptic. *)
Definition pre_axoness_of (p : parsed_info) : Z :=
  if fst (cell_axoness p) <? snd (cell_axoness p)
  then snd (cell_axoness p) else fst (cell_axoness p).

(** A node with another compartment label. *)
Definition with_axoness (pred : Z) (n : Node) : Node :=
  mk_node (node_id n) (coordinate_scaled n) pred (neighbours n).

(** A job over the reconstructions 7, 8 and 9, where 8 has no skeleton. *)
Definition ssd_second_has_no_skeleton (id : Z) : sso_behaviour :=
  if id =? 8 then mk_sso false None else mk_sso true None.

Definition job_of_three : job_state :=
  mk_job {["args.pkl"%string := [PIds [7; 8; 9]]]} [].

(** Strings of digits, strings that begin with a digit, strings that end
    with one, and strings without the letter a. *)
Fixpoint all_digits (s : string) : bool :=
  match s with
  | EmptyString => true
  | String c rest => is_digit c && all_digits rest
  end.

Definition starts_with_digit (s : string) : bool :=
  match s with
  | String c _ => is_digit c
  | EmptyString => false
  end.

Fixpoint ends_with_digit (s : string) : bool :=
  match s with
  | EmptyString => false
  | String c rest => if is_empty_string rest then is_digit c else ends_with_digit rest
  end.

Fixpoint without_letter_a (s : string) : bool :=
  match s with
  | EmptyString => true
  | String c rest => negb (Ascii.eqb "a" c) && without_letter_a rest
  end.

(** * Properties *)

(** ** The [result] monad *)

Lemma foldl_raise {A B} (f : A -> B -> result A) (e : exn) (l : list B) :
  foldl (fun acc b => a ← acc; f a b) (Raise e) l = Raise e.
Proof. induction l as [|b l IH]; simpl; auto. Qed.

(** ** [majority_processes] *)

(** What the first loop keeps true of its locals: the two lists and the
    counter it created are there, and nothing was ever bound to the
    misspelt name. *)
Definition counting_locals (locals : gmap string pyval) : Prop :=
  (exists ids, locals !! "hns"%string = Some (PyList ids)) /\
  (exists n, locals !! "soma_node_nb"%string = Some (PyInt n)) /\
  locals !! "soma_nodes_ids"%string = None.

Lemma load_unbound_name locals :
  locals !! "soma_nodes_ids"%string = None ->
  load_name locals "soma_nodes_ids" = Raise (NameError "soma_nodes_ids").
Proof. intros H. unfold load_name. rewrite H. reflexivity. Qed.

Lemma hns_append_keeps locals node :
  counting_locals locals ->
  exists locals',
    (if (degree node =? 1)%nat then list_append locals "hns" (node_id node)
     else Ok locals) = Ok locals' /\ counting_locals locals'.
Proof.
  intros (Hh & Hn & Hs). destruct (degree node =? 1)%nat.
  - destruct Hh as [ids Hh]. unfold list_append, load_name. rewrite Hh. simpl.
    eexists; split; [reflexivity|]. split; [|split].
    + eexists. apply lookup_insert_eq.
    + destruct Hn as [n Hn]. exists n. rewrite lookup_insert_ne; [done|discriminate].
    + rewrite lookup_insert_ne; [done|discriminate].
  - exists locals. split; [|split; [|split]]; auto.
Qed.

Lemma count_nodes_step_other locals node :
  counting_locals locals -> axoness_pred node <> 2 ->
  exists locals', count_nodes_step locals node = Ok locals' /\
                  counting_locals locals'.
Proof.
  intros Hinv Hne. unfold count_nodes_step.
  destruct (hns_append_keeps locals node Hinv) as (l' & -> & Hinv'). simpl.
  destruct (Z.eqb_spec (axoness_pred node) 2); [contradiction|]. eauto.
Qed.

Lemma count_nodes_step_soma locals node :
  counting_locals locals -> axoness_pred node = 2 ->
  count_nodes_step locals node = Raise (NameError "soma_nodes_ids").
Proof.
  intros Hinv Heq. unfold count_nodes_step.
  destruct (hns_append_keeps locals node Hinv) as (l' & -> & (_ & [n Hn] & Hs)).
  simpl. rewrite Heq. simpl.
  unfold int_increment, load_name at 1. rewrite Hn. simpl.
  unfold list_append. rewrite load_unbound_name; [reflexivity|].
  rewrite lookup_insert_ne; [done|discriminate].
Qed.

Lemma count_nodes_loop_soma locals anno :
  counting_locals locals ->
  (exists n, n ∈ anno /\ axoness_pred n = 2) ->
  foldl (fun acc node => locals ← acc; count_nodes_step locals node)
        (Ok locals) anno = Raise (NameError "soma_nodes_ids").
Proof.
  revert locals. induction anno as [|node anno IH]; intros locals Hinv (n & Hin & Hn).
  - inversion Hin.
  - simpl. destruct (Z.eq_dec (axoness_pred node) 2) as [Hs|Hs].
    + rewrite (count_nodes_step_soma _ _ Hinv Hs). apply foldl_raise.
    + destruct (count_nodes_step_other _ _ Hinv Hs) as (l' & -> & Hinv').
      apply IH; [exact Hinv'|]. exists n. split; [|exact Hn].
      apply elem_of_cons in Hin as [->|Hin]; [contradiction|exact Hin].
Qed.

(** C5. On every tracing that holds a node predicted as soma,
    [majority_processes] never reaches its soma branch: the first loop
    appends the node's id to [soma_nodes_ids], a name bound nowhere (the
    list was created as [soma_node_ids]), and the call ends in that
    [NameError], whatever the rest of the function would do. *)
Theorem majority_processes_soma_name_error
    (soma_branch no_soma_branch : gmap string pyval -> Annotation -> result Annotation)
    (anno : Annotation) :
  (exists n, n ∈ anno /\ axoness_pred n = 2) ->
  majority_processes soma_branch no_soma_branch anno =
    Raise (NameError "soma_nodes_ids").
Proof.
  intros Hsoma. unfold majority_processes.
  rewrite count_nodes_loop_soma; [reflexivity| |exact Hsoma].
  split; [|split].
  - exists []. rewrite lookup_insert_ne; [|discriminate].
    rewrite lookup_insert_ne; [|discriminate]. apply lookup_insert_eq.
  - exists 0. rewrite lookup_insert_ne; [|discriminate]. apply lookup_insert_eq.
  - reflexivity.
Qed.

Lemma majority_processes_soma_name_error_witness :
  majority_processes (fun _ anno => Ok anno) (fun _ anno => Ok anno)
                     soma_and_dendrite
  = Raise (NameError "soma_nodes_ids").
Proof.
  apply (majority_processes_soma_name_error _ _ soma_and_dendrite).
  exists (mk_node 1 (0, 0, 0)%R 2 [2]). split; [|reflexivity].
  apply elem_of_cons. left. reflexivity.
Defined.

(** Without a soma node the first loop goes through and the function
    carries on with its other branch. *)
Lemma majority_processes_without_soma
    (soma_branch no_soma_branch : gmap string pyval -> Annotation -> result Annotation)
    (anno : Annotation) :
  Forall (fun n => axoness_pred n <> 2) anno ->
  exists locals, majority_processes soma_branch no_soma_branch anno =
                 no_soma_branch locals anno.
Proof.
  intros Hall. unfold majority_processes.
  set (l0 := <["soma_node_ids"%string := PyList []]> _).
  assert (Hinv : counting_locals l0 /\ l0 !! "soma_node_nb"%string = Some (PyInt 0)).
  { subst l0. split; [split; [|split]|].
    - exists []. rewrite lookup_insert_ne; [|discriminate].
      rewrite lookup_insert_ne; [|discriminate]. apply lookup_insert_eq.
    - exists 0. rewrite lookup_insert_ne; [|discriminate]. apply lookup_insert_eq.
    - reflexivity.
    - rewrite lookup_insert_ne; [|discriminate]. apply lookup_insert_eq. }
  clearbody l0. revert l0 Hinv.
  cut (forall done l0,
         counting_locals l0 /\ l0 !! "soma_node_nb"%string = Some (PyInt 0) ->
         exists locals,
           (locals ← foldl (fun acc node => locals ← acc; count_nodes_step locals node)
                      (Ok l0) anno;
            soma_node_nb ← load_name locals "soma_node_nb";
            match soma_node_nb with
            | PyInt 0 => no_soma_branch locals (done ++ anno)
            | _ => soma_branch locals (done ++ anno)
            end) = no_soma_branch locals (done ++ anno)).
  { intros H l0 Hl0. exact (H [] l0 Hl0). }
  induction Hall as [|node anno Hn Hall IH]; intros done l0 [Hinv Hzero].
  - exists l0. simpl. unfold load_name. rewrite Hzero. reflexivity.
  - simpl foldl.
    assert (Hstep : exists l1, count_nodes_step l0 node = Ok l1 /\
              counting_locals l1 /\ l1 !! "soma_node_nb"%string = Some (PyInt 0)).
    { unfold count_nodes_step.
      destruct Hinv as (Hh & Hc & Hs).
      destruct (Z.eqb_spec (axoness_pred node) 2); [contradiction|].
      destruct (degree node =? 1)%nat.
      - destruct Hh as [ids Hh]. unfold list_append, load_name. rewrite Hh. simpl.
        eexists; split; [reflexivity|]. split; [split; [|split]|].
        + eexists. apply lookup_insert_eq.
        + destruct Hc as [n' Hc]. exists n'. rewrite lookup_insert_ne; [done|discriminate].
        + rewrite lookup_insert_ne; [done|discriminate].
        + rewrite lookup_insert_ne; [done|discriminate].
      - exists l0. simpl. split; [reflexivity|]. split; [split; [|split]|]; auto. }
    destruct Hstep as (l1 & -> & Hl1).
    destruct (IH (done ++ [node]) l1 Hl1) as [locals Hlocals].
    exists locals. rewrite <- !app_assoc in Hlocals. exact Hlocals.
Qed.

(** ** The glia call *)

(** The gate of [glia_pred_so]: once the probabilities are at hand, a mean
    that is not above the threshold answers 0 whatever the samples vote. *)
Lemma glia_pred_so_mean_gate load_attr_dict np_mean so thresh appendix rows :
  so_type so = "sv"%string ->
  attr_dict so !! ("glia_probas" +:+ appendix)%string = Some rows ->
  PrimFloat.ltb thresh (np_mean (map snd rows)) = false ->
  glia_pred_so load_attr_dict np_mean so thresh appendix = Ok 0.
Proof.
  intros Hty Hrows Hmean. unfold glia_pred_so. rewrite Hty. simpl.
  rewrite Hrows. rewrite bool_decide_eq_true_2 by eauto.
  rewrite Hrows. simpl. rewrite Hmean. reflexivity.
Qed.

(** Behind the gate the votes are compared with [int(len(preds) * 0.7)]. *)
Lemma glia_pred_so_votes load_attr_dict np_mean so thresh appendix rows bound :
  so_type so = "sv"%string ->
  attr_dict so !! ("glia_probas" +:+ appendix)%string = Some rows ->
  PrimFloat.ltb thresh (np_mean (map snd rows)) = true ->
  int_of_float (PrimFloat.mul (float_of_int (Z.of_nat (length rows))) f0_7)
    = Ok bound ->
  glia_pred_so load_attr_dict np_mean so thresh appendix =
    Ok (if bound <? fold_left Z.add
                 (map (fun p => if PrimFloat.ltb thresh p then 1 else 0)
                      (map snd rows)) 0
        then 1 else 0).
Proof.
  intros Hty Hrows Hmean Hbound. unfold glia_pred_so. rewrite Hty. simpl.
  rewrite Hrows. rewrite bool_decide_eq_true_2 by eauto.
  rewrite Hrows. simpl. rewrite Hmean. simpl.
  rewrite !length_map. rewrite Hbound. simpl.
  destruct (_ <? _); reflexivity.
Qed.

(** With ten samples the bound is 7: seven votes answer 0, eight answer 1. *)
Lemma glia_pred_so_ten_samples :
  glia_pred_so (fun so => so) mean_left_to_right
               (sv_with_rows (glia_rows 7 3)) 0.5%float "" = Ok 0 /\
  glia_pred_so (fun so => so) mean_left_to_right
               (sv_with_rows (glia_rows 8 2)) 0.5%float "" = Ok 1.
Proof. split; vm_compute; reflexivity. Qed.

(** C2. Ninety samples of which 63 vote for glia, exactly 70 percent: in
    double precision [90 * 0.7] is a little less than 63, [int] cuts it to
    62, and the 63 votes exceed that bound.  Whenever the mean lies above
    the threshold, [glia_pred_so] answers 1 on these samples although the
    votes are not more than 70 percent of them. *)
Theorem glia_pred_so_seventy_percent_of_ninety
    (load_attr_dict : SegmentationObject -> SegmentationObject)
    (np_mean : list float -> float) :
  PrimFloat.ltb 0.5%float (np_mean (map snd (glia_rows 63 27))) = true ->
  glia_pred_so load_attr_dict np_mean (sv_with_rows (glia_rows 63 27))
               0.5%float "" = Ok 1 /\
  int_of_float (PrimFloat.mul (float_of_int 90) f0_7) = Ok 62 /\
  fold_left Z.add
    (map (fun p => if PrimFloat.ltb 0.5%float p then 1 else 0)
         (map snd (glia_rows 63 27))) 0 = 63 /\
  10 * 63 = 7 * Z.of_nat (length (glia_rows 63 27)).
Proof.
  intros Hmean. split; [|split; [|split]]; try (vm_compute; reflexivity).
  erewrite glia_pred_so_votes with (rows := glia_rows 63 27) (bound := 62);
    [ | reflexivity | reflexivity | exact Hmean | vm_compute; reflexivity ].
  vm_compute. reflexivity.
Qed.

Lemma glia_pred_so_seventy_percent_of_ninety_witness :
  glia_pred_so (fun so => so) mean_left_to_right
               (sv_with_rows (glia_rows 63 27)) 0.5%float "" = Ok 1.
Proof.
  apply (glia_pred_so_seventy_percent_of_ninety (fun so => so) mean_left_to_right).
  vm_compute. reflexivity.
Defined.

(** ** The two block-processing drivers *)

(** C4. On a 3 x 3 x 3 volume whose flagged centre (label 2) has its only
    partner (label 1) as neighbour on the second axis, with the stencil
    (3, 3, 3): the cropped driver sees the whole window and stores the key
    [(1 << 32) + 2] for the centre, while the full scan cuts its window one
    short on the second and third axes, misses the partner and leaves 0. *)
Theorem process_block_window_is_short :
  (out ← process_block_nonzero centre_flag centre_and_y_neighbour (3, 3, 3);
   getitem out (0, 0, 0)) = Ok (Z.shiftl 1 32 + 2) /\
  (out ← process_block centre_flag centre_and_y_neighbour (3, 3, 3);
   getitem out (1, 1, 1)) = Ok 0.
Proof. split; vm_compute; reflexivity. Qed.

(** The two windows at the centre: 3 x 3 x 3 cells against 3 x 2 x 2. *)
Lemma process_block_window_shapes :
  shape (getslice centre_and_y_neighbour (0, 0, 0) (3, 3, 3)) = (3, 3, 3)%nat /\
  shape (getslice centre_and_y_neighbour (1 - 1, 1 - 1, 1 - 1)
                  (1 + 1 + 1, 1 + 1, 1 + 1)) = (3, 2, 2)%nat.
Proof. split; reflexivity. Qed.

(** ** The spine-head volume batch job *)

Lemma spinehead_loop_files ssd st ids :
  files (fst (spinehead_loop ssd st ids)) = files st.
Proof.
  revert st. induction ids as [|id ids IH]; intros st; simpl; [reflexivity|].
  unfold spinehead_step.
  destruct (load_skeleton (ssd id)); simpl; [|reflexivity].
  destruct (extract_spinehead_volume_mesh (ssd id)); simpl; [reflexivity|].
  rewrite IH. reflexivity.
Qed.

Definition sso_succeeds (b : sso_behaviour) : Prop :=
  load_skeleton b = true /\ extract_spinehead_volume_mesh b = None.

Lemma spinehead_loop_all_succeed ssd st ids :
  Forall (fun id => sso_succeeds (ssd id)) ids ->
  spinehead_loop ssd st ids =
    (mk_job (files st) (saved_skeletons st ++ ids), Ok tt).
Proof.
  intros Hall. revert st. induction Hall as [|id ids [Hl He] _ IH]; intros st; simpl.
  - rewrite app_nil_r. destruct st; reflexivity.
  - unfold spinehead_step. rewrite Hl, He. simpl. rewrite IH. simpl.
    rewrite <- app_assoc. reflexivity.
Qed.

Lemma spinehead_loop_one_fails ssd st ids :
  Exists (fun id => ~ sso_succeeds (ssd id)) ids ->
  exists e, snd (spinehead_loop ssd st ids) = Raise e.
Proof.
  intros Hex. revert st. induction ids as [|id ids IH]; intros st.
  - inversion Hex.
  - simpl. unfold spinehead_step.
    destruct (load_skeleton (ssd id)) eqn:Hl; simpl; [|eauto].
    destruct (extract_spinehead_volume_mesh (ssd id)) eqn:He; simpl; [eauto|].
    apply IH. inversion Hex as [? ? Hbad|]; subst; [|assumption].
    exfalso. apply Hbad. split; assumption.
Qed.

(** The job, as the spec's "always" has it, would leave its output file
    behind on every run.  On the run over the reconstructions 7 and 8 with
    a failing extraction for 8 it ends in the [TypeError] of [raise()],
    after saving the skeleton of 7, and no output file exists. *)
Lemma spinehead_job_failure_leaves_no_output :
  snd (spinehead_job ssd_second_fails job_start "args.pkl" "out.pkl")
    = Raise TypeError /\
  files (fst (spinehead_job ssd_second_fails job_start "args.pkl" "out.pkl"))
    !! "out.pkl"%string = None /\
  saved_skeletons
    (fst (spinehead_job ssd_second_fails job_start "args.pkl" "out.pkl")) = [7].
Proof. split; [|split]; vm_compute; reflexivity. Qed.

(** C9 (amended). The job writes its marker, the pickled empty string, to
    the output path exactly on the runs on which every reconstruction has
    a skeleton and its extraction returns; when one of them fails the job
    ends in an exception and writes no file at all. *)
Theorem spinehead_job_marker_iff_all_succeed
    (ssd : Z -> sso_behaviour) (st : job_state)
    (path_storage_file path_out_file : string)
    (sso_ids : list Z) (more : list pickled) :
  files st !! path_storage_file = Some (PIds sso_ids :: more) ->
  (Forall (fun id => sso_succeeds (ssd id)) sso_ids ->
   spinehead_job ssd st path_storage_file path_out_file =
     (mk_job (<[path_out_file := [PStr ""]]> (files st))
             (saved_skeletons st ++ sso_ids), Ok tt)) /\
  (Exists (fun id => ~ sso_succeeds (ssd id)) sso_ids ->
   exists e,
     snd (spinehead_job ssd st path_storage_file path_out_file) = Raise e /\
     files (fst (spinehead_job ssd st path_storage_file path_out_file))
       = files st).
Proof.
  intros Hargs. unfold spinehead_job. rewrite Hargs. split.
  - intros Hall. rewrite spinehead_loop_all_succeed by exact Hall. reflexivity.
  - intros Hex. destruct (spinehead_loop_one_fails ssd st sso_ids Hex) as [e He].
    pose proof (spinehead_loop_files ssd st sso_ids) as Hf.
    destruct (spinehead_loop ssd st sso_ids) as [st' r]. simpl in *. subst r.
    exists e. simpl. split; [reflexivity|exact Hf].
Qed.

Lemma spinehead_job_marker_iff_all_succeed_witness :
  spinehead_job ssd_all_fine job_start "args.pkl" "out.pkl" =
    (mk_job (<["out.pkl"%string := [PStr ""]]> (files job_start)) [7; 8], Ok tt).
Proof.
  refine (proj1 (spinehead_job_marker_iff_all_succeed ssd_all_fine job_start
                   "args.pkl" "out.pkl" [7; 8] [] _) _).
  - reflexivity.
  - repeat constructor.
Defined.

(** ** Connectivity extraction *)

Lemma feature_ok features k row j (x : float) :
  features !! k = Some row -> row !! j = Some x -> feature features k j = Ok x.
Proof. intros Hr Hx. unfold feature, py_index. rewrite Hr. simpl. rewrite Hx. reflexivity. Qed.

Lemma lookup2_insert_inner d pre post rec syns :
  d !! pre = Some syns ->
  forall pre' post',
    lookup2 (<[pre := <[post := rec]> syns]> d) pre' post' =
      if decide (pre' = pre /\ post' = post) then Some rec else lookup2 d pre' post'.
Proof.
  intros Hd pre' post'. unfold lookup2.
  destruct (decide (pre' = pre)) as [->|Hne].
  - rewrite lookup_insert_eq. simpl. rewrite Hd. simpl.
    destruct (decide (post' = post)) as [->|Hne'].
    + rewrite lookup_insert_eq. rewrite decide_True by done. reflexivity.
    + rewrite lookup_insert_ne by done. rewrite decide_False by tauto. reflexivity.
  - rewrite lookup_insert_ne by done. rewrite decide_False by tauto. reflexivity.
Qed.

Lemma lookup2_insert_fresh d pre post rec :
  d !! pre = None ->
  forall pre' post',
    lookup2 (<[pre := {[post := rec]}]> d) pre' post' =
      if decide (pre' = pre /\ post' = post) then Some rec else lookup2 d pre' post'.
Proof.
  intros Hd pre' post'. unfold lookup2.
  destruct (decide (pre' = pre)) as [->|Hne].
  - rewrite lookup_insert_eq. simpl. rewrite Hd. simpl.
    destruct (decide (post' = post)) as [->|Hne'].
    + rewrite lookup_singleton_eq. rewrite decide_True by done. reflexivity.
    + rewrite lookup_singleton_ne by done. rewrite decide_False by tauto. reflexivity.
  - rewrite lookup_insert_ne by done. rewrite decide_False by tauto. reflexivity.
Qed.

Lemma add_synapse_ok features k p st row a s r :
  features !! k = Some row ->
  row !! 1%nat = Some a -> row !! 2%nat = Some s -> row !! 3%nat = Some r ->
  exists st',
    add_synapse features k (cell_ids p) (cell_axoness p) st = Ok st' /\
    val_syn_ixs st' = val_syn_ixs st ++ [k] /\
    valid_syn_array st' = valid_syn_array st /\
    all_post_ids st' = all_post_ids st ++ [post_of p] /\
    forall pre post,
      lookup2 (pre_dict st') pre post =
        if decide (pre = pre_of p /\ post = post_of p)
        then Some (merge_contact (lookup2 (pre_dict st) pre post) p a s r)
        else lookup2 (pre_dict st) pre post.
Proof.
  intros Hrow Ha Hs Hr. unfold add_synapse.
  rewrite (feature_ok _ _ _ _ _ Hrow Ha), (feature_ok _ _ _ _ _ Hrow Hs),
          (feature_ok _ _ _ _ _ Hrow Hr). simpl.
  eexists. split; [reflexivity|]. simpl.
  split; [reflexivity|]. split; [reflexivity|].
  unfold merge_contact, pre_of, post_of, post_axoness_of.
  destruct (fst (cell_axoness p) <? snd (cell_axoness p)); simpl;
    (split; [reflexivity|]); intros pre post;
    match goal with
    | |- context [pre_dict st !! ?k] =>
        destruct (pre_dict st !! k) as [?|] eqn:Hd
    end;
    try match goal with
    | H : pre_dict st !! _ = Some ?m |- context [?m !! ?k] =>
        destruct (m !! k) as [old|] eqn:Ho
    end;
    first [ rewrite (lookup2_insert_inner _ _ _ _ _ Hd)
          | rewrite (lookup2_insert_fresh _ _ _ _ Hd) ];
    (destruct (decide _) as [[-> ->]|]; [|reflexivity]);
    unfold lookup2; rewrite Hd; simpl; try rewrite Ho; reflexivity.
Qed.

Lemma row_has_four (row : list float) :
  (4 <= length row)%nat ->
  exists a s r, row !! 1%nat = Some a /\ row !! 2%nat = Some s /\ row !! 3%nat = Some r.
Proof.
  intros H. destruct row as [|x0 [|x1 [|x2 [|x3 row]]]]; simpl in H; try lia.
  exists x1, x2, x3. repeat split.
Qed.

Lemma zero_row_ok (a : features_array) k :
  (k < length a)%nat ->
  exists a', zero_row a k = Ok a' /\ length a' = length a.
Proof.
  intros Hk. unfold zero_row.
  destruct (lookup_lt_is_Some_2 a k Hk) as [row ->].
  eexists. split; [reflexivity|]. apply length_insert.
Qed.

Lemma syn_dict_step_ok features get_all k info p st row a s r :
  parse_ax_info info = Ok p ->
  features !! k = Some row ->
  row !! 1%nat = Some a -> row !! 2%nat = Some s -> row !! 3%nat = Some r ->
  (k < length (valid_syn_array st))%nat ->
  exists st',
    syn_dict_step features get_all k info st = Ok st' /\
    val_syn_ixs st' =
      val_syn_ixs st ++ (if contact_is_kept get_all p then [k] else []) /\
    length (valid_syn_array st') = length (valid_syn_array st) /\
    forall pre post,
      lookup2 (pre_dict st') pre post =
        if contributes get_all pre post p
        then Some (merge_contact (lookup2 (pre_dict st) pre post) p a s r)
        else lookup2 (pre_dict st) pre post.
Proof.
  intros Hp Hrow Ha Hs Hr Hk. unfold syn_dict_step. rewrite Hp. simpl.
  unfold contributes, contact_is_kept.
  assert (Hdec : forall pre post,
            (pre =? pre_of p) && (post =? post_of p) =
            bool_decide (pre = pre_of p /\ post = post_of p)).
  { intros pre post. destruct (Z.eqb_spec pre (pre_of p)), (Z.eqb_spec post (post_of p));
      simpl; symmetry;
      first [ apply bool_decide_eq_true_2; tauto | apply bool_decide_eq_false_2; tauto ]. }
  assert (Hadd : forall st0,
     exists st',
       add_synapse features k (cell_ids p) (cell_axoness p) st0 = Ok st' /\
       val_syn_ixs st' = val_syn_ixs st0 ++ [k] /\
       length (valid_syn_array st') = length (valid_syn_array st0) /\
       forall pre post,
         lookup2 (pre_dict st') pre post =
           if (pre =? pre_of p) && (post =? post_of p)
           then Some (merge_contact (lookup2 (pre_dict st0) pre post) p a s r)
           else lookup2 (pre_dict st0) pre post).
  { intros st0.
    destruct (add_synapse_ok features k p st0 row a s r Hrow Ha Hs Hr)
      as (st' & Heq & Hix & Hva & _ & Hd).
    exists st'. split; [exact Heq|]. split; [exact Hix|].
    split; [rewrite Hva; reflexivity|].
    intros pre post. rewrite Hd, Hdec.
    destruct (decide _) as [Hy|Hn].
    - rewrite bool_decide_eq_true_2 by exact Hy. reflexivity.
    - rewrite bool_decide_eq_false_2 by exact Hn. reflexivity. }
  destruct (fst (cell_axoness p) =? snd (cell_axoness p)) eqn:Heq; simpl.
  - destruct (fst (cell_axoness p) =? 1) eqn:Hax; simpl.
    + destruct (Hadd (mk_syn_state (ax_ax_cnt st + 1) (den_den_cnt st)
                  (all_post_ids st) (pre_dict st) (val_syn_ixs st)
                  (valid_syn_array st)
                  (<[(cs_nb p +:+ "_" +:+ fst (cell1 p) +:+ "_" +:+ fst (cell2 p))%string :=
                      <[fst (cell2 p) := snd (cell2 p)]> {[fst (cell1 p) := snd (cell1 p)]}]>
                     (axoness_dict st))))
        as (st' & -> & H1 & H2 & H3).
      exists st'. split; [reflexivity|]. simpl in *. auto.
    + destruct (zero_row_ok (valid_syn_array st) k Hk) as (va & -> & Hlen). simpl.
      destruct get_all; simpl.
      * match goal with
        | |- context [add_synapse _ _ _ _ ?s0] => destruct (Hadd s0) as (st' & -> & H1 & H2 & H3)
        end.
        exists st'. split; [reflexivity|]. simpl in *.
        split; [exact H1|]. split; [lia|exact H3].
      * eexists. split; [reflexivity|]. simpl.
        split; [rewrite app_nil_r; reflexivity|]. split; [exact Hlen|]. reflexivity.
  - match goal with
    | |- context [add_synapse _ _ _ _ ?s0] => destruct (Hadd s0) as (st' & -> & H1 & H2 & H3)
    end.
    exists st'. split; [reflexivity|]. simpl in *. auto.
Qed.

Lemma syn_dict_loop_ok features get_all infos :
  forall k st,
    Forall (fun ax_info => exists p, parse_ax_info ax_info = Ok p) infos ->
    Forall (fun row => (4 <= length row)%nat) features ->
    (k + length infos <= length features)%nat ->
    (k + length infos <= length (valid_syn_array st))%nat ->
    exists st',
      syn_dict_loop features get_all k infos st = Ok st' /\
      val_syn_ixs st' = val_syn_ixs st ++ kept_ixs get_all k infos /\
      forall pre post,
        lookup2 (pre_dict st') pre post =
          pair_record features get_all pre post k infos
                      (lookup2 (pre_dict st) pre post).
Proof.
  induction infos as [|info infos IH]; intros k st Hparse Hrows Hlen Hval.
  - exists st. simpl. rewrite app_nil_r. auto.
  - simpl in Hlen, Hval.
    apply Forall_cons in Hparse as [[p Hp] Hparse].
    destruct (lookup_lt_is_Some_2 features k ltac:(lia)) as [row Hrow].
    assert (H4 : (4 <= length row)%nat).
    { rewrite Forall_forall in Hrows. apply Hrows.
      apply list_elem_of_lookup. eauto. }
    destruct (row_has_four row H4) as (a & s & r & Ha & Hs & Hr).
    destruct (syn_dict_step_ok features get_all k info p st row a s r
                Hp Hrow Ha Hs Hr ltac:(lia)) as (st1 & Hstep & Hix & Hva & Hd).
    destruct (IH (S k) st1 Hparse Hrows ltac:(lia) ltac:(lia))
      as (st' & Hloop & Hix' & Hd').
    exists st'. simpl. rewrite Hstep. simpl. split; [exact Hloop|].
    split.
    + rewrite Hix', Hix. unfold info_is_kept. rewrite Hp.
      rewrite <- app_assoc. reflexivity.
    + intros pre post. rewrite Hd', Hd, Hp, Hrow, Ha, Hs, Hr. reflexivity.
Qed.

Lemma py_index_app_r {A} (done rest : list A) x :
  py_index (done ++ x :: rest) (length done) = Ok x.
Proof.
  unfold py_index. rewrite lookup_app_r by lia.
  replace (length done - length done)%nat with 0%nat by lia. reflexivity.
Qed.

Lemma take_rows_kept {A} get_all (infos : list string) :
  forall (data done : list A),
    length data = length infos ->
    take_rows (done ++ data) (kept_ixs get_all (length done) infos) =
      Ok (map snd (List.filter (fun c => info_is_kept get_all (fst c))
                               (combine infos data))).
Proof.
  induction infos as [|info infos IH]; intros data done Hlen.
  - reflexivity.
  - destruct data as [|x data]; [discriminate|]. simpl in Hlen.
    assert (Hrest : take_rows (done ++ x :: data)
                      (kept_ixs get_all (S (length done)) infos) =
                    Ok (map snd (List.filter (fun c => info_is_kept get_all (fst c))
                                             (combine infos data)))).
    { specialize (IH data (done ++ [x]) ltac:(lia)).
      rewrite <- app_assoc, length_app in IH. simpl in IH.
      replace (length done + 1)%nat with (S (length done)) in IH by lia.
      exact IH. }
    simpl. destruct (info_is_kept get_all info); simpl.
    + rewrite py_index_app_r. simpl. rewrite Hrest. reflexivity.
    + exact Hrest.
Qed.

Lemma filter_combine_self {A} (f : A -> bool) (l : list A) :
  map snd (List.filter (fun c => f (fst c)) (combine l l)) = List.filter f l.
Proof.
  induction l as [|x l IH]; simpl; [reflexivity|].
  destruct (f x); simpl; rewrite IH; reflexivity.
Qed.

(** The whole function on well-formed input. *)
Lemma calc_syn_dict_ok features axoness_info get_all :
  well_formed_contacts features axoness_info ->
  exists r,
    calc_syn_dict features axoness_info get_all = Ok r /\
    res_axoness_info r = List.filter (info_is_kept get_all) axoness_info /\
    res_features r =
      map snd (List.filter (fun c => info_is_kept get_all (fst c))
                           (combine axoness_info features)) /\
    forall pre post,
      lookup2 (res_pre_dict r) pre post =
        pair_record features get_all pre post 0 axoness_info None.
Proof.
  intros (Hlen & Hrows & Hparse). unfold calc_syn_dict.
  destruct axoness_info as [|info infos].
  - destruct features; [|discriminate]. eexists. simpl.
    split; [reflexivity|]. repeat split.
  - remember (info :: infos) as l eqn:El.
    replace (length l =? 0)%nat with false by (subst l; reflexivity).
    clear El info infos.
    destruct (syn_dict_loop_ok features get_all l 0 (syn_state_init features)
                Hparse Hrows ltac:(lia)
                ltac:(simpl; rewrite length_map; lia))
      as (st & -> & Hix & Hd).
    simpl in Hix. simpl.
    rewrite Hix.
    pose proof (take_rows_kept get_all l features [] Hlen) as Hf.
    pose proof (take_rows_kept get_all l l [] eq_refl) as Hi.
    simpl in Hf, Hi. rewrite Hf. simpl. rewrite Hi. simpl.
    eexists. split; [reflexivity|]. simpl.
    split; [apply filter_combine_self|]. split; [reflexivity|].
    intros pre post. rewrite Hd. reflexivity.
Qed.

Lemma pair_record_is_Some features get_all pre post infos :
  forall k acc,
    Forall (fun row => (4 <= length row)%nat) features ->
    (k + length infos <= length features)%nat ->
    (is_Some (pair_record features get_all pre post k infos acc) <->
     is_Some acc \/
     exists ax_info p, ax_info ∈ infos /\ parse_ax_info ax_info = Ok p /\
                       contributes get_all pre post p = true).
Proof.
  induction infos as [|info infos IH]; intros k acc Hrows Hlen.
  - simpl. split; [auto|]. intros [H|(i & p & Hin & _)]; [exact H|inversion Hin].
  - simpl in Hlen. simpl. rewrite IH by (auto; lia).
    destruct (lookup_lt_is_Some_2 features k ltac:(lia)) as [row Hrow].
    assert (H4 : (4 <= length row)%nat).
    { rewrite Forall_forall in Hrows. apply Hrows.
      apply list_elem_of_lookup. eauto. }
    destruct (row_has_four row H4) as (a & s & r & Ha & Hs & Hr).
    rewrite Hrow, Ha, Hs, Hr.
    destruct (parse_ax_info info) as [p|e] eqn:Hp.
    + destruct (contributes get_all pre post p) eqn:Hc.
      * split.
        -- intros _. right. exists info, p. split; [apply elem_of_cons; auto|auto].
        -- intros _. left. eauto.
      * split.
        -- intros [H|(i & q & Hin & Hq & Hcq)]; [auto|].
           right. exists i, q. split; [apply elem_of_cons; auto|auto].
        -- intros [H|(i & q & Hin & Hq & Hcq)]; [auto|].
           apply elem_of_cons in Hin as [->|Hin].
           ++ rewrite Hp in Hq. injection Hq as <-. congruence.
           ++ right. eauto.
    + split.
      * intros [H|(i & q & Hin & Hq & Hcq)]; [auto|].
        right. exists i, q. split; [apply elem_of_cons; auto|auto].
      * intros [H|(i & q & Hin & Hq & Hcq)]; [auto|].
        apply elem_of_cons in Hin as [->|Hin]; [congruence|]. right. eauto.
Qed.

Lemma pair_record_skip features get_all pre post infos :
  forall k acc,
    Forall (fun ax_info => forall p, parse_ax_info ax_info = Ok p ->
                                     contributes get_all pre post p = false) infos ->
    pair_record features get_all pre post k infos acc = acc.
Proof.
  induction infos as [|info infos IH]; intros k acc Hno; [reflexivity|].
  apply Forall_cons in Hno as [Hinfo Hno]. simpl. rewrite IH by exact Hno.
  destruct (parse_ax_info info) as [p|]; [|reflexivity].
  rewrite (Hinfo p eq_refl).
  destruct (features !! k) as [row|]; [|reflexivity].
  destruct (row !! 1%nat), (row !! 2%nat), (row !! 3%nat); reflexivity.
Qed.

Lemma pair_record_app features get_all pre post l1 :
  forall l2 k acc,
    pair_record features get_all pre post k (l1 ++ l2) acc =
    pair_record features get_all pre post (k + length l1) l2
                (pair_record features get_all pre post k l1 acc).
Proof.
  induction l1 as [|x l1 IH]; intros l2 k acc; simpl.
  - rewrite Nat.add_0_r. reflexivity.
  - rewrite IH. replace (S k + length l1)%nat with (k + S (length l1))%nat by lia.
    reflexivity.
Qed.

Lemma pair_record_hit features get_all pre post k info rest acc p row a s r :
  parse_ax_info info = Ok p -> contributes get_all pre post p = true ->
  features !! k = Some row ->
  row !! 1%nat = Some a -> row !! 2%nat = Some s -> row !! 3%nat = Some r ->
  pair_record features get_all pre post k (info :: rest) acc =
  pair_record features get_all pre post (S k) rest
              (Some (merge_contact acc p a s r)).
Proof. intros Hp Hc Hrow Ha Hs Hr. simpl. rewrite Hp, Hrow, Ha, Hs, Hr, Hc. reflexivity. Qed.

Lemma contributes_iff get_all pre post p :
  contributes get_all pre post p = true <->
  contact_is_kept get_all p = true /\ pre = pre_of p /\ post = post_of p.
Proof.
  unfold contributes. rewrite !andb_true_iff, !Z.eqb_eq. tauto.
Qed.

Lemma contact_is_kept_iff p :
  contact_is_kept false p = true <->
  fst (cell_axoness p) <> snd (cell_axoness p) \/ fst (cell_axoness p) = 1.
Proof.
  unfold contact_is_kept. rewrite orb_false_r, orb_true_iff, negb_true_iff.
  rewrite Z.eqb_neq, Z.eqb_eq. tauto.
Qed.

(** The claim as stated would drop a contact between two axons.  The one
    contact "cs12_5axoness1_7axoness1" is returned as valid, and the
    dictionary holds its record under the pair (5, 7). *)
Lemma calc_syn_dict_keeps_axon_axon :
  exists r,
    calc_syn_dict (fst axon_axon_contact) (snd axon_axon_contact) false = Ok r /\
    res_axoness_info r = ["cs12_5axoness1_7axoness1"%string] /\
    lookup2 (res_pre_dict r) 5 7 = Some (mk_syn 7 1 2 3 0.25).
Proof.
  eexists. split; [vm_compute; reflexivity|]. split; vm_compute; reflexivity.
Qed.

(** C7 (amended). With [get_all] off, on contacts whose comments parse and
    whose features have their four columns, [calc_syn_dict] returns as
    valid exactly the contacts whose two compartment labels differ or are
    both axon (1); a contact with equal labels other than axon, dendrite
    with dendrite among them, is left out of the returned contacts and adds
    nothing to the connectivity dictionary.  A pair has a record exactly
    when a returned contact has it as its (pre, post) pair, the presynaptic
    side being the one [np.argmax] picks: the axon of an axon-dendrite
    contact. *)
Theorem calc_syn_dict_valid_contacts
    (features : features_array) (axoness_info : list string) :
  well_formed_contacts features axoness_info ->
  exists r,
    calc_syn_dict features axoness_info false = Ok r /\
    res_axoness_info r = List.filter (info_is_kept false) axoness_info /\
    res_features r =
      map snd (List.filter (fun c => info_is_kept false (fst c))
                           (combine axoness_info features)) /\
    (forall ax_info p,
       parse_ax_info ax_info = Ok p ->
       (info_is_kept false ax_info = true <->
        fst (cell_axoness p) <> snd (cell_axoness p) \/
        fst (cell_axoness p) = 1)) /\
    (forall pre post,
       is_Some (lookup2 (res_pre_dict r) pre post) <->
       exists ax_info p,
         ax_info ∈ axoness_info /\ parse_ax_info ax_info = Ok p /\
         (fst (cell_axoness p) <> snd (cell_axoness p) \/
          fst (cell_axoness p) = 1) /\
         pre = pre_of p /\ post = post_of p) /\
    (forall p,
       (cell_axoness p = (1, 0) ->
        pre_of p = fst (cell_ids p) /\ post_of p = snd (cell_ids p)) /\
       (cell_axoness p = (0, 1) ->
        pre_of p = snd (cell_ids p) /\ post_of p = fst (cell_ids p))).
Proof.
  intros Hwf.
  destruct (calc_syn_dict_ok features axoness_info false Hwf)
    as (r & Hr & Hinfo & Hfeat & Hd).
  destruct Hwf as (Hlen & Hrows & Hparse).
  exists r. split; [exact Hr|]. split; [exact Hinfo|]. split; [exact Hfeat|].
  split; [|split].
  - intros ax_info p Hp. unfold info_is_kept. rewrite Hp.
    apply contact_is_kept_iff.
  - intros pre post. rewrite Hd.
    rewrite pair_record_is_Some by (auto; lia).
    split.
    + intros [[x Hx]|(i & p & Hin & Hp & Hc)]; [discriminate|].
      apply contributes_iff in Hc as (Hk & -> & ->).
      apply contact_is_kept_iff in Hk. eauto 8.
    + intros (i & p & Hin & Hp & Hk & -> & ->). right. exists i, p.
      split; [exact Hin|]. split; [exact Hp|].
      apply contributes_iff. split; [|auto]. apply contact_is_kept_iff. exact Hk.
  - intros p. unfold pre_of, post_of. split; intros ->; simpl; auto.
Qed.

Lemma calc_syn_dict_valid_contacts_witness :
  exists r,
    calc_syn_dict (fst dendrite_dendrite_contact)
                  (snd dendrite_dendrite_contact) false = Ok r /\
    res_axoness_info r = [] /\ lookup2 (res_pre_dict r) 5 7 = None.
Proof.
  destruct (calc_syn_dict_valid_contacts (fst dendrite_dendrite_contact)
              (snd dendrite_dendrite_contact)) as (r & Hr & Hinfo & _).
  - split; [reflexivity|]. split.
    + repeat constructor.
    + repeat constructor. eexists. vm_compute. reflexivity.
  - exists r. split; [exact Hr|]. split; [exact Hinfo|].
    vm_compute in Hr. injection Hr as <-. reflexivity.
Defined.

(** C8. When exactly two of the contacts that [calc_syn_dict] records are
    between the same ordered pair (pre, post), the dictionary holds one
    record for the pair; its [cs_area] is the sum of the two contact areas
    (feature column 1) and its [sj_size_abs] the sum of the two absolute
    cleft sizes (feature column 2), both added as doubles in the order of
    the contacts. *)
Theorem calc_syn_dict_merges_pair
    (features : features_array) (get_all : bool)
    (before between after : list string) (c1 c2 : string)
    (p1 p2 : parsed_info) (pre post : Z) (row1 row2 : list float) :
  well_formed_contacts features (before ++ c1 :: between ++ c2 :: after) ->
  parse_ax_info c1 = Ok p1 -> parse_ax_info c2 = Ok p2 ->
  contact_is_kept get_all p1 = true -> contact_is_kept get_all p2 = true ->
  pre_of p1 = pre -> post_of p1 = post ->
  pre_of p2 = pre -> post_of p2 = post ->
  Forall (fun ax_info => forall p, parse_ax_info ax_info = Ok p ->
                                   contributes get_all pre post p = false)
         (before ++ between ++ after) ->
  features !! length before = Some row1 ->
  features !! (length before + 1 + length between)%nat = Some row2 ->
  exists r rec a1 s1 a2 s2,
    calc_syn_dict features (before ++ c1 :: between ++ c2 :: after) get_all
      = Ok r /\
    lookup2 (res_pre_dict r) pre post = Some rec /\
    row1 !! 1%nat = Some a1 /\ row1 !! 2%nat = Some s1 /\
    row2 !! 1%nat = Some a2 /\ row2 !! 2%nat = Some s2 /\
    cs_area rec = PrimFloat.add a1 a2 /\
    sj_size_abs rec = PrimFloat.add s1 s2 /\
    post_id rec = post.
Proof.
  intros Hwf Hp1 Hp2 Hk1 Hk2 Hpre1 Hpost1 Hpre2 Hpost2 Hothers Hrow1 Hrow2.
  destruct (calc_syn_dict_ok _ _ get_all Hwf) as (r & Hr & _ & _ & Hd).
  destruct Hwf as (Hlen & Hrows & Hparse).
  assert (H41 : (4 <= length row1)%nat).
  { rewrite Forall_forall in Hrows. apply Hrows. apply list_elem_of_lookup. eauto. }
  assert (H42 : (4 <= length row2)%nat).
  { rewrite Forall_forall in Hrows. apply Hrows. apply list_elem_of_lookup. eauto. }
  destruct (row_has_four row1 H41) as (a1 & s1 & r1 & Ha1 & Hs1 & Hr1).
  destruct (row_has_four row2 H42) as (a2 & s2 & r2 & Ha2 & Hs2 & Hr2).
  apply Forall_app in Hothers as [Hbefore Hothers].
  apply Forall_app in Hothers as [Hbetween Hafter].
  assert (Hc1 : contributes get_all pre post p1 = true).
  { apply contributes_iff. auto. }
  assert (Hc2 : contributes get_all pre post p2 = true).
  { apply contributes_iff. auto. }
  exists r, (merge_contact (Some (merge_contact None p1 a1 s1 r1)) p2 a2 s2 r2),
         a1, s1, a2, s2.
  split; [exact Hr|]. split.
  - rewrite Hd. rewrite pair_record_app.
    rewrite (pair_record_skip _ _ _ _ before) by exact Hbefore.
    simpl Nat.add.
    rewrite (pair_record_hit _ _ _ _ _ _ _ _ p1 row1 a1 s1 r1) by assumption.
    rewrite pair_record_app.
    rewrite (pair_record_skip _ _ _ _ between) by exact Hbetween.
    replace (S (length before) + length between)%nat
      with (length before + 1 + length between)%nat by lia.
    rewrite (pair_record_hit _ _ _ _ _ _ _ _ p2 row2 a2 s2 r2) by assumption.
    apply pair_record_skip. exact Hafter.
  - simpl. repeat split; try assumption.
Qed.

Lemma calc_syn_dict_merges_pair_witness :
  exists r rec,
    calc_syn_dict (fst two_contacts) (snd two_contacts) false = Ok r /\
    lookup2 (res_pre_dict r) 5 7 = Some rec /\
    cs_area rec = PrimFloat.add 2 10 /\
    sj_size_abs rec = PrimFloat.add 3 20.
Proof.
  destruct (calc_syn_dict_merges_pair (fst two_contacts) false [] [] []
              "cs12_5axoness1_7axoness0" "cs13_7axoness0_5axoness1"
              (mk_parsed ("5", "1") ("7", "0") "12" (5, 7) (1, 0))
              (mk_parsed ("7", "0") ("5", "1") "13" (7, 5) (0, 1))
              5 7 [0.5; 2; 3; 0.25]%float [0.5; 10; 20; 0.5]%float)
    as (r & rec & a1 & s1 & a2 & s2 & Hr & Hrec & Ha1 & Hs1 & Ha2 & Hs2 & Ha & Hs & _);
    try reflexivity.
  - split; [reflexivity|]. split.
    + repeat constructor.
    + repeat constructor; eexists; vm_compute; reflexivity.
  - constructor.
  - exists r, rec. split; [exact Hr|]. split; [exact Hrec|].
    injection Ha1 as <-. injection Hs1 as <-. injection Ha2 as <-. injection Hs2 as <-.
    split; assumption.
Defined.

(** ** The voxel store *)

Lemma flat_map_bind {A B} (f : A -> list B) (l : list A) :
  flat_map f l = l ≫= f.
Proof. induction l as [|x l IH]; [reflexivity|]. simpl. rewrite IH. reflexivity. Qed.

Lemma elem_of_ndindex (s p : idx3) : p ∈ ndindex s <-> in_shape s p = true.
Proof.
  destruct s as [[sx sy] sz], p as [[x y] z]. unfold ndindex, in_shape.
  rewrite !andb_true_iff, !Nat.ltb_lt.
  rewrite flat_map_bind, list_elem_of_bind. split.
  - intros (x' & Hin & Hx). rewrite flat_map_bind, list_elem_of_bind in Hin.
    destruct Hin as (y' & Hin & Hy).
    change (map ?f ?l) with (f <$> l) in Hin.
    apply list_elem_of_fmap in Hin as (z' & Heq & Hz).
    injection Heq as -> -> ->.
    apply elem_of_seq in Hx, Hy, Hz. lia.
  - intros [[Hx Hy] Hz]. exists x. split; [|apply elem_of_seq; lia].
    rewrite flat_map_bind, list_elem_of_bind. exists y.
    split; [|apply elem_of_seq; lia].
    change (map ?f ?l) with (f <$> l).
    apply list_elem_of_fmap. exists z. split; [reflexivity|apply elem_of_seq; lia].
Qed.

Lemma NoDup_ndindex (s : idx3) : NoDup (ndindex s).
Proof.
  destruct s as [[sx sy] sz]. unfold ndindex. rewrite flat_map_bind.
  apply NoDup_bind; [| |apply NoDup_seq].
  - intros x1 x2 [[x y] z] _ _ H1 H2.
    rewrite flat_map_bind, list_elem_of_bind in H1, H2.
    destruct H1 as (y1 & H1 & _), H2 as (y2 & H2 & _).
    change (map ?f ?l) with (f <$> l) in H1, H2.
    apply list_elem_of_fmap in H1 as (? & H1 & _), H2 as (? & H2 & _).
    congruence.
  - intros x _. rewrite flat_map_bind.
    apply NoDup_bind; [| |apply NoDup_seq].
    + intros y1 y2 [[x' y] z] _ _ H1 H2.
      change (map ?f ?l) with (f <$> l) in H1, H2.
      apply list_elem_of_fmap in H1 as (? & H1 & _), H2 as (? & H2 & _).
      congruence.
    + intros y _. change (map ?f ?l) with (f <$> l).
      apply NoDup_fmap_2; [|apply NoDup_seq].
      intros z1 z2 Heq. congruence.
Qed.

Lemma elem_of_np_nonzero (a : ndarray bool) (p : idx3) :
  p ∈ np_nonzero a <-> in_shape (shape a) p = true /\ at3 a p = true.
Proof.
  unfold np_nonzero. rewrite list_elem_of_filter, elem_of_ndindex. tauto.
Qed.

Lemma NoDup_np_nonzero (a : ndarray bool) : NoDup (np_nonzero a).
Proof. apply NoDup_filter, NoDup_ndindex. Qed.

Lemma count_true_fold (f : idx3 -> bool) (l : list idx3) (n : Z) :
  fold_left (fun acc (b : bool) => if b then acc + 1 else acc) (map f l) n =
  n + Z.of_nat (length (filter (fun p => f p = true) l)).
Proof.
  revert n. induction l as [|p l IH]; intros n; simpl; [lia|].
  rewrite IH. rewrite filter_cons.
  destruct (f p) eqn:Hf.
  - rewrite decide_True by reflexivity. simpl. lia.
  - rewrite decide_False by discriminate. lia.
Qed.

Lemma np_sum_bool_nonzero (a : ndarray bool) :
  np_sum_bool a = Z.of_nat (length (np_nonzero a)).
Proof. unfold np_sum_bool, ravel, np_nonzero. rewrite count_true_fold. lia. Qed.

Lemma length_voxel_list_of (a : ndarray bool) (origin : Z3) :
  Z.of_nat (length (voxel_list_of a origin)) = np_sum_bool a.
Proof. unfold voxel_list_of. rewrite length_map, np_sum_bool_nonzero. reflexivity. Qed.

Lemma NoDup_voxel_list_of (a : ndarray bool) (origin : Z3) :
  NoDup (voxel_list_of a origin).
Proof.
  unfold voxel_list_of. change (map ?f ?l) with (f <$> l).
  apply NoDup_fmap_2; [|apply NoDup_np_nonzero].
  intros [[x y] z] [[x' y'] z'] H. destruct origin as [[ox oy] oz].
  simpl in H. injection H as H1 H2 H3. f_equal; [f_equal|]; lia.
Qed.

Lemma elem_of_voxel_list_of (a : ndarray bool) (origin q : Z3) :
  q ∈ voxel_list_of a origin <-> block_voxel a origin q = true.
Proof.
  unfold voxel_list_of. change (map ?f ?l) with (f <$> l).
  rewrite list_elem_of_fmap. unfold block_voxel.
  destruct origin as [[ox oy] oz], q as [[qx qy] qz]. simpl.
  destruct (shape a) as [[sx sy] sz] eqn:Hs. unfold in_shape. split.
  - intros ([[x y] z] & Heq & Hin). apply elem_of_np_nonzero in Hin as [Hsh Hat].
    rewrite Hs in Hsh. simpl in Heq, Hsh, Hat. injection Heq as -> -> ->.
    replace (Z.of_nat x + ox - ox) with (Z.of_nat x) by lia.
    replace (Z.of_nat y + oy - oy) with (Z.of_nat y) by lia.
    replace (Z.of_nat z + oz - oz) with (Z.of_nat z) by lia.
    rewrite !Nat2Z.id, Hat.
    apply andb_true_iff in Hsh as [Hsh Hz]. apply andb_true_iff in Hsh as [Hx Hy].
    rewrite Hx, Hy, Hz.
    rewrite !andb_true_r. repeat (apply andb_true_iff; split); apply Z.leb_le; lia.
  - intros H. rewrite !andb_true_iff in H.
    destruct H as [[[[Hx Hy] Hz] [[Hsx Hsy] Hsz]] Hc].
    apply Z.leb_le in Hx, Hy, Hz.
    exists (Z.to_nat (qx - ox), Z.to_nat (qy - oy), Z.to_nat (qz - oz)). split.
    + simpl. rewrite !Z2Nat.id by lia. f_equal; [f_equal|]; lia.
    + apply elem_of_np_nonzero. rewrite Hs. simpl.
      rewrite Hsx, Hsy, Hsz, Hc. auto.
Qed.

Lemma slice_axis_inside (len : nat) (lo : Z) (n : nat) :
  0 <= lo -> lo + Z.of_nat n <= Z.of_nat len ->
  slice_axis len lo (lo + Z.of_nat n) = (Z.to_nat lo, n).
Proof.
  intros Hlo Hhi. unfold slice_axis, slice_bound.
  destruct (Z.ltb_spec lo 0); [lia|].
  destruct (Z.ltb_spec (lo + Z.of_nat n) 0); [lia|].
  f_equal; lia.
Qed.

Lemma idx3_eqb_refl (s : idx3) : idx3_eqb s s = true.
Proof. destruct s as [[a b] c]. simpl. rewrite !Nat.eqb_refl. reflexivity. Qed.

Lemma setitem_block (voxels a : ndarray bool) (off bb0 : Z3) :
  z3_le bb0 off ->
  z3_le (z3_sub (block_extent a off) bb0) (z3_of_idx (shape voxels)) ->
  exists V,
    setitem_slice_mask voxels (z3_sub off bb0)
                       (z3_sub (block_extent a off) bb0) a true = Ok V /\
    shape V = shape voxels /\
    forall x y z,
      cell V x y z =
        block_voxel a off (z3_add (z3_of_idx (x, y, z)) bb0) || cell voxels x y z.
Proof.
  destruct off as [[ox oy] oz], bb0 as [[bx by_] bz].
  unfold block_extent, setitem_slice_mask, slice3, block_voxel.
  destruct (shape a) as [[ax ay] az] eqn:Ha.
  destruct (shape voxels) as [[vx vy] vz] eqn:Hv.
  unfold z3_le, z3_sub, z3_add, z3_of_idx. cbv beta iota zeta.
  intros (Hx & Hy & Hz) (Hx' & Hy' & Hz').
  replace (Z.of_nat ax + ox - bx) with (ox - bx + Z.of_nat ax) by lia.
  replace (Z.of_nat ay + oy - by_) with (oy - by_ + Z.of_nat ay) by lia.
  replace (Z.of_nat az + oz - bz) with (oz - bz + Z.of_nat az) by lia.
  rewrite !slice_axis_inside by lia. simpl.
  rewrite !Nat.eqb_refl. simpl.
  eexists. split; [reflexivity|]. split; [reflexivity|].
  intros x y z. unfold in_view. simpl.
  destruct (Z.leb_spec 0 (Z.of_nat x + bx - ox)); simpl.
  2:{ destruct (Nat.leb_spec (Z.to_nat (ox - bx)) x); [lia|]. reflexivity. }
  destruct (Z.leb_spec 0 (Z.of_nat y + by_ - oy)); simpl.
  2:{ destruct (Nat.leb_spec (Z.to_nat (oy - by_)) y); [lia|].
      rewrite !andb_false_r. reflexivity. }
  destruct (Z.leb_spec 0 (Z.of_nat z + bz - oz)); simpl.
  2:{ destruct (Nat.leb_spec (Z.to_nat (oz - bz)) z); [lia|].
      rewrite !andb_false_r. reflexivity. }
  destruct (Nat.leb_spec (Z.to_nat (ox - bx)) x); [|lia].
  destruct (Nat.leb_spec (Z.to_nat (oy - by_)) y); [|lia].
  destruct (Nat.leb_spec (Z.to_nat (oz - bz)) z); [|lia].
  simpl.
  replace (Z.to_nat (Z.of_nat x + bx - ox)) with (x - Z.to_nat (ox - bx))%nat by lia.
  replace (Z.to_nat (Z.of_nat y + by_ - oy)) with (y - Z.to_nat (oy - by_))%nat by lia.
  replace (Z.to_nat (Z.of_nat z + bz - oz)) with (z - Z.to_nat (oz - bz))%nat by lia.
  destruct (Nat.ltb_spec x (Z.to_nat (ox - bx) + ax));
    destruct (Nat.ltb_spec (x - Z.to_nat (ox - bx)) ax); try lia; simpl; [|reflexivity].
  destruct (Nat.ltb_spec y (Z.to_nat (oy - by_) + ay));
    destruct (Nat.ltb_spec (y - Z.to_nat (oy - by_)) ay); try lia; simpl; [|reflexivity].
  destruct (Nat.ltb_spec z (Z.to_nat (oz - bz) + az));
    destruct (Nat.ltb_spec (z - Z.to_nat (oz - bz)) az); try lia; simpl; [|reflexivity].
  destruct (cell a _ _ _); reflexivity.
Qed.

Lemma fold_min_spec (rest : list Z3) :
  forall first, elementwise_min (fold_left z3_min rest first) (first :: rest).
Proof.
  induction rest as [|r rest IH]; intros first.
  - simpl. destruct first as [[a b] c].
    split; [|split; [|split]];
      try (exists (a, b, c); split; [apply elem_of_cons; auto|reflexivity]).
    intros r Hr. apply elem_of_cons in Hr as [->|Hr]; [|inversion Hr].
    simpl. lia.
  - simpl. destruct (IH (z3_min first r)) as (Hle & H1 & H2 & H3).
    assert (Hmin : z3_le (z3_min first r) first /\ z3_le (z3_min first r) r).
    { destruct first as [[a b] c], r as [[a' b'] c']. simpl. lia. }
    assert (Htrans : forall u v w, z3_le u v -> z3_le v w -> z3_le u w).
    { intros [[? ?] ?] [[? ?] ?] [[? ?] ?]. simpl. lia. }
    assert (Hpick : forall (proj : Z3 -> Z),
              (forall u v, proj (z3_min u v) = proj u \/ proj (z3_min u v) = proj v) ->
              (exists e, e ∈ z3_min first r :: rest /\
                         proj e = proj (fold_left z3_min rest (z3_min first r))) ->
              exists e, e ∈ first :: r :: rest /\
                        proj e = proj (fold_left z3_min rest (z3_min first r))).
    { intros proj Hproj (e & He & Heq). apply elem_of_cons in He as [->|He].
      - destruct (Hproj first r) as [Hp|Hp]; rewrite Hp in Heq.
        + exists first. split; [apply elem_of_cons; auto|exact Heq].
        + exists r. split; [|exact Heq].
          apply elem_of_cons; right; apply elem_of_cons; auto.
      - exists e. split; [|exact Heq].
        apply elem_of_cons; right; apply elem_of_cons; auto. }
    split; [|split; [|split]].
    + intros e He. apply elem_of_cons in He as [->|He].
      * eapply Htrans; [apply Hle; apply elem_of_cons; auto|apply Hmin].
      * apply elem_of_cons in He as [->|He].
        -- eapply Htrans; [apply Hle; apply elem_of_cons; auto|apply Hmin].
        -- apply Hle. apply elem_of_cons; auto.
    + apply (Hpick (fun e => e.1.1)); [|exact H1].
      intros [[? ?] ?] [[? ?] ?]. simpl. lia.
    + apply (Hpick (fun e => e.1.2)); [|exact H2].
      intros [[? ?] ?] [[? ?] ?]. simpl. lia.
    + apply (Hpick (fun e => e.2)); [|exact H3].
      intros [[? ?] ?] [[? ?] ?]. simpl. lia.
Qed.

Lemma fold_max_spec (rest : list Z3) :
  forall first, elementwise_max (fold_left z3_max rest first) (first :: rest).
Proof.
  induction rest as [|r rest IH]; intros first.
  - simpl. destruct first as [[a b] c].
    split; [|split; [|split]];
      try (exists (a, b, c); split; [apply elem_of_cons; auto|reflexivity]).
    intros r Hr. apply elem_of_cons in Hr as [->|Hr]; [|inversion Hr].
    simpl. lia.
  - simpl. destruct (IH (z3_max first r)) as (Hle & H1 & H2 & H3).
    assert (Hmax : z3_le first (z3_max first r) /\ z3_le r (z3_max first r)).
    { destruct first as [[a b] c], r as [[a' b'] c']. simpl. lia. }
    assert (Htrans : forall u v w, z3_le u v -> z3_le v w -> z3_le u w).
    { intros [[? ?] ?] [[? ?] ?] [[? ?] ?]. simpl. lia. }
    assert (Hpick : forall (proj : Z3 -> Z),
              (forall u v, proj (z3_max u v) = proj u \/ proj (z3_max u v) = proj v) ->
              (exists e, e ∈ z3_max first r :: rest /\
                         proj e = proj (fold_left z3_max rest (z3_max first r))) ->
              exists e, e ∈ first :: r :: rest /\
                        proj e = proj (fold_left z3_max rest (z3_max first r))).
    { intros proj Hproj (e & He & Heq). apply elem_of_cons in He as [->|He].
      - destruct (Hproj first r) as [Hp|Hp]; rewrite Hp in Heq.
        + exists first. split; [apply elem_of_cons; auto|exact Heq].
        + exists r. split; [|exact Heq].
          apply elem_of_cons; right; apply elem_of_cons; auto.
      - exists e. split; [|exact Heq].
        apply elem_of_cons; right; apply elem_of_cons; auto. }
    split; [|split; [|split]].
    + intros e He. apply elem_of_cons in He as [->|He].
      * eapply Htrans; [apply Hmax|apply Hle; apply elem_of_cons; auto].
      * apply elem_of_cons in He as [->|He].
        -- eapply Htrans; [apply Hmax|apply Hle; apply elem_of_cons; auto].
        -- apply Hle. apply elem_of_cons; auto.
    + apply (Hpick (fun e => e.1.1)); [|exact H1].
      intros [[? ?] ?] [[? ?] ?]. simpl. lia.
    + apply (Hpick (fun e => e.1.2)); [|exact H2].
      intros [[? ?] ?] [[? ?] ?]. simpl. lia.
    + apply (Hpick (fun e => e.2)); [|exact H3].
      intros [[? ?] ?] [[? ?] ?]. simpl. lia.
Qed.

Lemma block_extents_from_zip (bin_arrs : list (ndarray bool)) :
  forall (offs done : list Z3),
    length offs = length bin_arrs ->
    block_extents_from bin_arrs (done ++ offs) (length done) =
      Ok (zip_with block_extent bin_arrs offs).
Proof.
  induction bin_arrs as [|a arrs IH]; intros offs done Hlen.
  - reflexivity.
  - destruct offs as [|o offs]; [discriminate|]. simpl in Hlen.
    simpl. rewrite py_index_app_r. simpl.
    specialize (IH offs (done ++ [o]) ltac:(lia)).
    rewrite <- app_assoc, length_app in IH. simpl in IH.
    replace (length done + 1)%nat with (S (length done)) in IH by lia.
    rewrite IH. reflexivity.
Qed.

Lemma lay_blocks_from_spec (bb0 : Z3) (bin_arrs : list (ndarray bool)) :
  forall (offs doneO doneE : list Z3) (size : Z) (voxels : ndarray bool),
    length offs = length bin_arrs ->
    length doneO = length doneE ->
    (forall a o, (a, o) ∈ zip bin_arrs offs ->
       z3_le bb0 o /\
       z3_le (z3_sub (block_extent a o) bb0) (z3_of_idx (shape voxels))) ->
    exists V,
      lay_blocks_from bin_arrs (doneO ++ offs)
        (doneE ++ zip_with block_extent bin_arrs offs) bb0 (length doneO)
        size voxels
      = Ok (size + foldr Z.add 0 (map np_sum_bool bin_arrs), V) /\
      shape V = shape voxels /\
      forall x y z,
        cell V x y z =
          existsb (fun b => block_voxel b.1 b.2
                                        (z3_add (z3_of_idx (x, y, z)) bb0))
                  (zip bin_arrs offs)
          || cell voxels x y z.
Proof.
  induction bin_arrs as [|a arrs IH];
    intros offs doneO doneE size voxels Hlen Hdone Hbox.
  - exists voxels. simpl. split; [f_equal; f_equal; lia|]. split; reflexivity.
  - destruct offs as [|o offs]; [discriminate|]. simpl in Hlen.
    destruct (Hbox a o ltac:(apply elem_of_cons; auto)) as [Hlo Hhi].
    destruct (setitem_block voxels a o bb0 Hlo Hhi) as (V1 & HV1 & Hs1 & Hc1).
    simpl. rewrite py_index_app_r. simpl.
    rewrite Hdone, py_index_app_r. simpl.
    fold (block_extent a o). rewrite HV1. simpl.
    specialize (IH offs (doneO ++ [o]) (doneE ++ [block_extent a o])
                   (size + np_sum_bool a) V1 ltac:(lia)
                   ltac:(rewrite !length_app; simpl; lia)).
    destruct IH as (V & HV & Hs & Hc).
    { intros a' o' Hin. rewrite Hs1. apply Hbox. apply elem_of_cons; auto. }
    rewrite <- !app_assoc, length_app in HV. simpl in HV.
    replace (length doneO + 1)%nat with (S (length doneO)) in HV by lia.
    rewrite <- Hdone. exists V. split.
    + rewrite HV. f_equal. f_equal. lia.
    + split; [rewrite Hs, Hs1; reflexivity|]. intros x y z. rewrite Hc, Hc1.
      simpl. destruct (block_voxel a o _), (existsb _ _); reflexivity.
Qed.

Lemma existsb_block_voxel (blocks : list (ndarray bool * Z3)) (q : Z3) :
  existsb (fun b => block_voxel b.1 b.2 q) blocks = true <->
  exists a o, (a, o) ∈ blocks /\ block_voxel a o q = true.
Proof.
  rewrite existsb_exists. split.
  - intros ([a o] & Hin & Hb). exists a, o. split; [apply list_elem_of_In; exact Hin|exact Hb].
  - intros (a & o & Hin & Hb). exists (a, o). split; [apply list_elem_of_In; exact Hin|exact Hb].
Qed.

(** [load_voxels] on an object with stored blocks. *)
Lemma load_voxels_entry (fs : storage) (so : SegmentationObject)
    (bin_arrs : list (ndarray bool)) (offs : list Z3) :
  VoxelDict_open fs (voxel_path so) !! so_id so = Some (bin_arrs, offs) ->
  length offs = length bin_arrs -> bin_arrs <> [] ->
  exists V bb0 bb1,
    load_voxels fs so None =
      (mk_so (so_id so) (so_type so) (voxel_path so) (attr_dict so)
             (foldr Z.add 0 (map np_sum_bool bin_arrs)) (Some (bb0, bb1)),
       Ok (Voxels V)) /\
    elementwise_min bb0 offs /\
    elementwise_max bb1 (zip_with block_extent bin_arrs offs) /\
    z3_of_idx (shape V) = z3_sub bb1 bb0 /\
    forall x y z,
      cell V x y z =
        existsb (fun b => block_voxel b.1 b.2 (z3_add (z3_of_idx (x, y, z)) bb0))
                (zip bin_arrs offs).
Proof.
  intros Hentry Hlen Hne. unfold load_voxels.
  cbn [set_size so_id voxel_path so_type attr_dict _size _bounding_box].
  rewrite Hentry.
  pose proof (block_extents_from_zip bin_arrs offs [] Hlen) as Hext.
  simpl in Hext. rewrite Hext.
  destruct bin_arrs as [|a arrs]; [contradiction|].
  destruct offs as [|o offs]; [discriminate|].
  cbn [zip_with np_min_axis0 np_max_axis0].
  set (bb0 := fold_left z3_min offs o).
  set (bb1 := fold_left z3_max (zip_with block_extent arrs offs) (block_extent a o)).
  pose proof (fold_min_spec offs o) as Hmin. fold bb0 in Hmin.
  pose proof (fold_max_spec (zip_with block_extent arrs offs) (block_extent a o)) as Hmax.
  fold bb1 in Hmax.
  assert (Hbox : forall a' o', (a', o') ∈ zip (a :: arrs) (o :: offs) ->
                   z3_le bb0 o' /\ z3_le (block_extent a' o') bb1).
  { intros a' o' Hin. split.
    - apply Hmin. eapply elem_of_zip_r. exact Hin.
    - apply Hmax. change (block_extent a o :: zip_with block_extent arrs offs)
        with (zip_with block_extent (a :: arrs) (o :: offs)).
      rewrite zip_with_zip. apply list_elem_of_fmap. exists (a', o'). auto. }
  destruct (Hbox a o ltac:(apply elem_of_cons; auto)) as [Hlo Hhi].
  assert (Hnonneg : z3_le (0, 0, 0) (z3_sub bb1 bb0)).
  { unfold block_extent in Hhi.
    destruct bb0 as [[? ?] ?], bb1 as [[? ?] ?], o as [[? ?] ?],
             (shape a) as [[? ?] ?]. simpl in *. lia. }
  destruct (z3_sub bb1 bb0) as [[dx dy] dz] eqn:Hd.
  simpl in Hnonneg. unfold np_zeros_bool.
  destruct (Z.ltb_spec dx 0); [lia|]. destruct (Z.ltb_spec dy 0); [lia|].
  destruct (Z.ltb_spec dz 0); [lia|]. cbn [orb].
  cbn [set_bounding_box so_id voxel_path so_type attr_dict _size _bounding_box].
  set (zeros := mk_ndarray (Z.to_nat dx, Z.to_nat dy, Z.to_nat dz) (fun _ _ _ => false)).
  destruct (lay_blocks_from_spec bb0 (a :: arrs) (o :: offs) [] [] 0 zeros Hlen eq_refl)
    as (V & HV & Hs & Hc).
  { intros a' o' Hin. destruct (Hbox a' o' Hin) as [Hb1 Hb2]. split; [exact Hb1|].
    unfold zeros. cbn [shape z3_of_idx]. rewrite !Z2Nat.id by lia.
    rewrite <- Hd.
    destruct bb0 as [[? ?] ?], bb1 as [[? ?] ?], (block_extent a' o') as [[? ?] ?].
    simpl in *. lia. }
  cbn [app length zip_with] in HV. rewrite HV.
  exists V, bb0, bb1. split; [reflexivity|]. split; [exact Hmin|]. split; [exact Hmax|].
  split.
  - rewrite Hs. unfold zeros. cbn [shape z3_of_idx]. rewrite !Z2Nat.id by lia.
    rewrite ?Hd. reflexivity.
  - intros x y z. rewrite Hc. unfold zeros. cbn [cell]. apply orb_false_r.
Qed.

(** The absolute coordinates of the reconstructed volume are those of the
    stored blocks. *)
Lemma loaded_voxel_list (V : ndarray bool) (bb0 bb1 : Z3)
    (bin_arrs : list (ndarray bool)) (offs : list Z3) :
  (forall o, o ∈ offs -> z3_le bb0 o) ->
  (forall e, e ∈ zip_with block_extent bin_arrs offs -> z3_le e bb1) ->
  z3_of_idx (shape V) = z3_sub bb1 bb0 ->
  (forall x y z,
     cell V x y z =
       existsb (fun b => block_voxel b.1 b.2 (z3_add (z3_of_idx (x, y, z)) bb0))
               (zip bin_arrs offs)) ->
  forall q,
    q ∈ voxel_list_of V bb0 <->
    exists a o, (a, o) ∈ zip bin_arrs offs /\ q ∈ voxel_list_of a o.
Proof.
  intros Hlo Hhi Hshape Hcell q.
  assert (Hrw : (exists a o, (a, o) ∈ zip bin_arrs offs /\ q ∈ voxel_list_of a o) <->
                (exists a o, (a, o) ∈ zip bin_arrs offs /\ block_voxel a o q = true)).
  { split; intros (a & o & Hin & Hq); exists a, o; (split; [exact Hin|]);
      apply elem_of_voxel_list_of; exact Hq. }
  rewrite Hrw. clear Hrw. rewrite <- existsb_block_voxel.
  rewrite elem_of_voxel_list_of. unfold block_voxel at 1.
  destruct q as [[qx qy] qz], bb0 as [[bx by_] bz], bb1 as [[cx cy] cz].
  destruct (shape V) as [[vx vy] vz] eqn:Hs.
  cbn [z3_sub z3_of_idx] in Hshape. injection Hshape as Hvx Hvy Hvz.
  cbn [z3_sub in_shape]. split.
  - intros H. rewrite !andb_true_iff in H.
    destruct H as [[[[Hx Hy] Hz] _] Hc].
    apply Z.leb_le in Hx, Hy, Hz.
    rewrite Hcell in Hc. cbn [z3_of_idx z3_add] in Hc.
    rewrite !Z2Nat.id in Hc by lia.
    replace (qx - bx + bx) with qx in Hc by lia.
    replace (qy - by_ + by_) with qy in Hc by lia.
    replace (qz - bz + bz) with qz in Hc by lia.
    exact Hc.
  - intros H. pose proof H as H'.
    apply existsb_block_voxel in H' as (a & o & Hin & Hb).
    assert (Ho : z3_le (bx, by_, bz) o) by (apply Hlo; eapply elem_of_zip_r; exact Hin).
    assert (He : z3_le (block_extent a o) (cx, cy, cz)).
    { apply Hhi. rewrite zip_with_zip. apply list_elem_of_fmap. exists (a, o). auto. }
    unfold block_voxel in Hb. unfold block_extent in He.
    destruct o as [[ox oy] oz], (shape a) as [[ax ay] az].
    cbn [z3_sub in_shape z3_le z3_add z3_of_idx] in Hb, Ho, He.
    rewrite !andb_true_iff in Hb.
    destruct Hb as [[[[Hx Hy] Hz] [[Hsx Hsy] Hsz]] _].
    apply Z.leb_le in Hx, Hy, Hz. apply Nat.ltb_lt in Hsx, Hsy, Hsz.
    rewrite Hcell. cbn [z3_of_idx z3_add].
    rewrite !Z2Nat.id by lia.
    replace (qx - bx + bx) with qx by lia.
    replace (qy - by_ + by_) with qy by lia.
    replace (qz - bz + bz) with qz by lia.
    rewrite H. rewrite andb_true_r.
    repeat (apply andb_true_iff; split);
      first [ apply Z.leb_le; lia | apply Nat.ltb_lt; lia ].
Qed.

Lemma save_voxels_entry (fs : storage) (so : SegmentationObject)
    (a : ndarray bool) (o : Z3) (overwrite : bool) :
  VoxelDict_open (save_voxels fs so a o overwrite) (voxel_path so) !! so_id so =
    match VoxelDict_open fs (voxel_path so) !! so_id so with
    | Some (arrs, offs) =>
        if overwrite then Some ([a], [o]) else Some (arrs ++ [a], offs ++ [o])
    | None => Some ([a], [o])
    end.
Proof.
  unfold save_voxels, save2pkl.
  set (dc := VoxelDict_open fs (voxel_path so)).
  unfold VoxelDict_open at 1. rewrite lookup_insert_eq. simpl.
  destruct (dc !! so_id so) as [[arrs offs]|] eqn:Hdc.
  - rewrite bool_decide_eq_true_2 by eauto. destruct overwrite; simpl.
    + apply lookup_insert_eq.
    + unfold VoxelDict_append. rewrite Hdc. apply lookup_insert_eq.
  - rewrite bool_decide_eq_false_2 by (intros [? ?]; discriminate). simpl.
    apply lookup_insert_eq.
Qed.

Lemma save_voxels_all (so : SegmentationObject)
    (blocks : list (ndarray bool * Z3)) :
  forall (fs : storage) arrs offs,
    VoxelDict_open fs (voxel_path so) !! so_id so = Some (arrs, offs) ->
    VoxelDict_open
      (foldl (fun fs b => save_voxels fs so b.1 b.2 false) fs blocks)
      (voxel_path so) !! so_id so
    = Some (arrs ++ map fst blocks, offs ++ map snd blocks).
Proof.
  induction blocks as [|[a o] blocks IH]; intros fs arrs offs Hfs.
  - cbn [foldl map]. rewrite !app_nil_r. exact Hfs.
  - cbn [foldl map fst snd].
    rewrite (IH (save_voxels fs so a o false) (arrs ++ [a]) (offs ++ [o])).
    + rewrite <- !app_assoc. reflexivity.
    + rewrite save_voxels_entry, Hfs. reflexivity.
Qed.

Lemma zip_map_fst_snd {A B} (l : list (A * B)) : zip (map fst l) (map snd l) = l.
Proof. induction l as [|[a b] l IH]; simpl; [reflexivity|]. rewrite IH. reflexivity. Qed.

(** C1. Saving a first block and then any further blocks for an object id
    that the store did not hold, and loading the object again: [load_voxels]
    returns a dense volume, and the absolute coordinates of its [True]
    voxels (its positions moved by the lower corner of the cached bounding
    box, as [load_voxel_list] lists them) are exactly the absolute
    coordinates of the [True] voxels of the saved blocks.  Each cell of the
    volume is [True] exactly when some block, laid at its offset, is [True]
    there. *)
Theorem load_voxels_after_save_voxels
    (fs : storage) (so : SegmentationObject)
    (first : ndarray bool * Z3) (more : list (ndarray bool * Z3)) :
  VoxelDict_open fs (voxel_path so) !! so_id so = None ->
  exists so' voxels bb,
    load_voxels
      (foldl (fun fs b => save_voxels fs so b.1 b.2 false) fs (first :: more))
      so None = (so', Ok (Voxels voxels)) /\
    _bounding_box so' = Some bb /\
    (forall q : Z3,
       q ∈ voxel_list_of voxels bb.1 <->
       exists bin_arr offset,
         (bin_arr, offset) ∈ first :: more /\
         q ∈ voxel_list_of bin_arr offset) /\
    (forall x y z,
       cell voxels x y z = true <->
       exists bin_arr offset,
         (bin_arr, offset) ∈ first :: more /\
         block_voxel bin_arr offset (z3_add (z3_of_idx (x, y, z)) bb.1) = true).
Proof.
  intros Hfresh. destruct first as [a o]. cbn [foldl].
  set (fs1 := save_voxels fs so a o false).
  assert (H1 : VoxelDict_open fs1 (voxel_path so) !! so_id so = Some ([a], [o])).
  { unfold fs1. rewrite save_voxels_entry, Hfresh. reflexivity. }
  pose proof (save_voxels_all so more fs1 [a] [o] H1) as Hall.
  set (fs' := foldl _ fs1 more) in *.
  destruct (load_voxels_entry fs' so _ _ Hall) as (V & bb0 & bb1 & Hload & Hmin & Hmax & Hshape & Hcell).
  { rewrite !length_app, !length_map. reflexivity. }
  { discriminate. }
  change ([a] ++ map fst more) with (map fst ((a, o) :: more)) in *.
  change ([o] ++ map snd more) with (map snd ((a, o) :: more)) in *.
  rewrite zip_map_fst_snd in Hcell.
  eexists _, V, (bb0, bb1). split; [exact Hload|]. split; [reflexivity|]. split.
  - intros q.
    rewrite (loaded_voxel_list V bb0 bb1 (map fst ((a, o) :: more))
               (map snd ((a, o) :: more))); auto.
    + rewrite zip_map_fst_snd. reflexivity.
    + apply Hmin.
    + apply Hmax.
    + rewrite zip_map_fst_snd. exact Hcell.
  - intros x y z. cbn [fst]. rewrite Hcell. apply existsb_block_voxel.
Qed.

Lemma load_voxels_after_save_voxels_witness :
  exists so' voxels bb,
    load_voxels
      (foldl (fun fs b => save_voxels fs so_one b.1 b.2 false) ∅
             [(full_block (2, 1, 1)%nat, (0, 0, 0));
              (full_block (1, 1, 1)%nat, (5, 0, 0))])
      so_one None = (so', Ok (Voxels voxels)) /\
    _bounding_box so' = Some bb /\
    (5, 0, 0) ∈ voxel_list_of voxels bb.1.
Proof.
  destruct (load_voxels_after_save_voxels ∅ so_one
              (full_block (2, 1, 1)%nat, (0, 0, 0))
              [(full_block (1, 1, 1)%nat, (5, 0, 0))])
    as (so' & voxels & bb & Hload & Hbb & Hq & _).
  - reflexivity.
  - exists so', voxels, bb. split; [exact Hload|]. split; [exact Hbb|].
    apply Hq. exists (full_block (1, 1, 1)%nat), (5, 0, 0). split.
    + apply elem_of_cons. right. apply elem_of_cons. left. reflexivity.
    + apply elem_of_voxel_list_of. reflexivity.
Defined.

Lemma length_block_lists (bin_arrs : list (ndarray bool)) :
  forall offs : list Z3,
    length offs = length bin_arrs ->
    Z.of_nat (length (concat (zip_with voxel_list_of bin_arrs offs))) =
    foldr Z.add 0 (map np_sum_bool bin_arrs).
Proof.
  induction bin_arrs as [|a arrs IH]; intros offs Hlen.
  - reflexivity.
  - destruct offs as [|o offs]; [discriminate|]. simpl in Hlen. simpl.
    rewrite length_app, Nat2Z.inj_add, length_voxel_list_of, IH by lia.
    reflexivity.
Qed.

Lemma elem_of_concat {A} (ls : list (list A)) (x : A) :
  x ∈ concat ls <-> exists l, l ∈ ls /\ x ∈ l.
Proof.
  rewrite list_elem_of_In, in_concat. split.
  - intros (l & Hl & Hx). exists l. rewrite !list_elem_of_In. auto.
  - intros (l & Hl & Hx). exists l. rewrite <- !list_elem_of_In. auto.
Qed.

Lemma elem_of_block_lists (bin_arrs : list (ndarray bool)) (offs : list Z3) q :
  q ∈ concat (zip_with voxel_list_of bin_arrs offs) <->
  exists a o, (a, o) ∈ zip bin_arrs offs /\ q ∈ voxel_list_of a o.
Proof.
  rewrite zip_with_zip, elem_of_concat. split.
  - intros (l & Hl & Hq). apply list_elem_of_fmap in Hl as ([a o] & -> & Hin).
    exists a, o. auto.
  - intros (a & o & Hin & Hq). exists (voxel_list_of a o). split; [|exact Hq].
    apply list_elem_of_fmap. exists (a, o). auto.
Qed.

Lemma concat_shares_element {A} (ls : list (list A)) :
  forall i j li lj q,
    (i < j)%nat -> ls !! i = Some li -> ls !! j = Some lj ->
    q ∈ li -> q ∈ lj -> ~ NoDup (concat ls).
Proof.
  induction ls as [|l ls IH]; intros i j li lj q Hij Hi Hj Hqi Hqj Hnd.
  - destruct i; discriminate.
  - simpl in Hnd. apply NoDup_app in Hnd as (_ & Hdisj & Hrest).
    destruct j as [|j]; [lia|]. simpl in Hj.
    destruct i as [|i].
    + simpl in Hi. injection Hi as ->.
      apply (Hdisj q Hqi). apply elem_of_concat. exists lj. split; [|exact Hqj].
      apply list_elem_of_lookup. eauto.
    + simpl in Hi. apply (IH i j li lj q); auto. lia.
Qed.

(** C10. For an object with stored blocks, [load_voxels] caches as size the
    sum of the [True] counts of the blocks, and as bounding box the
    elementwise minimum of the block offsets with the elementwise maximum
    of the block extents.  The reconstructed volume never has more [True]
    voxels than the cached size, and has strictly fewer as soon as two of
    the blocks are [True] at a common absolute coordinate. *)
Theorem load_voxels_cached_size_and_box
    (fs : storage) (so : SegmentationObject)
    (bin_arrs : list (ndarray bool)) (block_offsets : list Z3) :
  VoxelDict_open fs (voxel_path so) !! so_id so = Some (bin_arrs, block_offsets) ->
  length block_offsets = length bin_arrs -> bin_arrs <> [] ->
  exists so' voxels bb,
    load_voxels fs so None = (so', Ok (Voxels voxels)) /\
    _size so' = foldr Z.add 0 (map np_sum_bool bin_arrs) /\
    _bounding_box so' = Some bb /\
    elementwise_min bb.1 block_offsets /\
    elementwise_max bb.2 (zip_with block_extent bin_arrs block_offsets) /\
    np_sum_bool voxels <= _size so' /\
    ((exists i j a_i o_i a_j o_j q,
        i <> j /\
        bin_arrs !! i = Some a_i /\ block_offsets !! i = Some o_i /\
        bin_arrs !! j = Some a_j /\ block_offsets !! j = Some o_j /\
        block_voxel a_i o_i q = true /\ block_voxel a_j o_j q = true) ->
     np_sum_bool voxels < _size so').
Proof.
  intros Hentry Hlen Hne.
  destruct (load_voxels_entry fs so bin_arrs block_offsets Hentry Hlen Hne)
    as (V & bb0 & bb1 & Hload & Hmin & Hmax & Hshape & Hcell).
  eexists _, V, (bb0, bb1). split; [exact Hload|].
  cbn [_size _bounding_box fst snd].
  split; [reflexivity|]. split; [reflexivity|]. split; [exact Hmin|].
  split; [exact Hmax|].
  set (L := concat (zip_with voxel_list_of bin_arrs block_offsets)).
  set (NV := voxel_list_of V bb0).
  assert (Hsame : forall q, q ∈ NV <-> q ∈ L).
  { intros q. unfold NV, L. rewrite elem_of_block_lists.
    apply (loaded_voxel_list V bb0 bb1 bin_arrs block_offsets); auto.
    - apply Hmin.
    - apply Hmax. }
  assert (Hsub : NV ⊆+ L).
  { apply NoDup_submseteq; [apply NoDup_voxel_list_of|]. intros q. apply Hsame. }
  rewrite <- (length_voxel_list_of V bb0).
  rewrite <- (length_block_lists bin_arrs block_offsets Hlen).
  fold NV. fold L. split.
  - apply inj_le. apply submseteq_length. exact Hsub.
  - intros (i & j & a_i & o_i & a_j & o_j & q & Hij & Hai & Hoi & Haj & Hoj & Hqi & Hqj).
    apply elem_of_voxel_list_of in Hqi, Hqj.
    assert (Hli : zip_with voxel_list_of bin_arrs block_offsets !! i
                  = Some (voxel_list_of a_i o_i)).
    { apply lookup_zip_with_Some. eauto. }
    assert (Hlj : zip_with voxel_list_of bin_arrs block_offsets !! j
                  = Some (voxel_list_of a_j o_j)).
    { apply lookup_zip_with_Some. eauto. }
    assert (Hdup : ~ NoDup L).
    { destruct (Nat.lt_total i j) as [Hlt|[Heq|Hgt]]; [|contradiction|].
      - exact (concat_shares_element _ i j _ _ q Hlt Hli Hlj Hqi Hqj).
      - exact (concat_shares_element _ j i _ _ q Hgt Hlj Hli Hqj Hqi). }
    apply inj_lt. destruct (Nat.lt_ge_cases (length NV) (length L)) as [Hlt|Hge];
      [exact Hlt|].
    exfalso. apply Hdup.
    pose proof (submseteq_length_Permutation NV L Hsub Hge) as Hperm.
    rewrite <- Hperm. apply NoDup_voxel_list_of.
Qed.

Lemma load_voxels_cached_size_and_box_witness :
  exists so' voxels,
    load_voxels overlapping_store so_one None = (so', Ok (Voxels voxels)) /\
    _size so' = 4 /\ np_sum_bool voxels < _size so'.
Proof.
  destruct (load_voxels_cached_size_and_box overlapping_store so_one
              [full_block (2, 1, 1)%nat; full_block (2, 1, 1)%nat]
              [(0, 0, 0); (1, 0, 0)])
    as (so' & voxels & bb & Hload & Hsize & _ & _ & _ & _ & Hlt).
  - reflexivity.
  - reflexivity.
  - discriminate.
  - exists so', voxels. split; [exact Hload|]. split; [exact Hsize|].
    apply Hlt. exists 0%nat, 1%nat, (full_block (2, 1, 1)%nat), (0, 0, 0),
                      (full_block (2, 1, 1)%nat), (1, 0, 0), (1, 0, 0).
    repeat split; discriminate.
Defined.

(** ** Contact-site detection on two abutting blocks *)

Lemma convolve3_jac (a : ndarray Z) (x y z : nat) :
  cell (convolve3 a jac) x y z =
    let '(sx, sy, sz) := shape a in
    let c (i j l : nat) :=
      cell a (reflect sx (Z.of_nat x + 1 - Z.of_nat i))
             (reflect sy (Z.of_nat y + 1 - Z.of_nat j))
             (reflect sz (Z.of_nat z + 1 - Z.of_nat l)) in
    (c 0 1 1)%nat + (c 1 0 1)%nat + (c 1 1 0)%nat - 6 * (c 1 1 1)%nat
    + (c 1 1 2)%nat + (c 1 2 1)%nat + (c 2 1 1)%nat.
Proof.
  unfold convolve3. destruct (shape a) as [[sx sy] sz].
  cbv [cell ndindex flat_map seq map app fold_left jac store idx3_eqb
       Nat.eqb andb shape].
  cbv zeta. lia.
Qed.

Lemma reflect_same (len x : nat) :
  (x < len)%nat -> reflect len (Z.of_nat x + 1 - Z.of_nat 1) = x.
Proof.
  intros H. unfold reflect.
  destruct (Z.ltb_spec (Z.of_nat x + 1 - Z.of_nat 1) 0); [lia|].
  destruct (Z.leb_spec (Z.of_nat len) (Z.of_nat x + 1 - Z.of_nat 1)); lia.
Qed.

Lemma reflect_next (len x : nat) :
  (x < len)%nat ->
  reflect len (Z.of_nat x + 1 - Z.of_nat 0) = if (S x <? len)%nat then S x else x.
Proof.
  intros H. unfold reflect.
  destruct (Z.ltb_spec (Z.of_nat x + 1 - Z.of_nat 0) 0); [lia|].
  destruct (Z.leb_spec (Z.of_nat len) (Z.of_nat x + 1 - Z.of_nat 0));
    destruct (Nat.ltb_spec (S x) len); lia.
Qed.

Lemma reflect_previous (len x : nat) :
  (x < len)%nat -> reflect len (Z.of_nat x + 1 - Z.of_nat 2) = Nat.pred x.
Proof.
  intros H. unfold reflect.
  destruct (Z.ltb_spec (Z.of_nat x + 1 - Z.of_nat 2) 0); [lia|].
  destruct (Z.leb_spec (Z.of_nat len) (Z.of_nat x + 1 - Z.of_nat 2)); lia.
Qed.

Ltac split_nat_tests :=
  repeat match goal with
         | |- context [(?a <? ?b)%nat] => destruct (Nat.ltb_spec a b)
         | |- context [(?a =? ?b)%nat] => destruct (Nat.eqb_spec a b)
         end.

Lemma in_shape_iff (s p : idx3) :
  in_shape s p = true <->
  (p.1.1 < s.1.1 /\ p.1.2 < s.1.2 /\ p.2 < s.2)%nat.
Proof.
  destruct s as [[sx sy] sz], p as [[x y] z]. simpl.
  rewrite !andb_true_iff, !Nat.ltb_lt. tauto.
Qed.

(** The edge detector on two abutting blocks flags the layer of label-2
    voxels next to the shared face, and nothing else. *)
Lemma detect_edges_two_blocks (s : idx3) (ax : axis) (split : nat) (p : idx3) :
  (0 < split < along ax s)%nat ->
  in_shape s p = true ->
  at3 (detect_edges (two_blocks s ax split)) p =
    if (along ax p =? split)%nat then 1 else 0.
Proof.
  intros Hsplit Hin. apply in_shape_iff in Hin.
  destruct s as [[sx sy] sz], p as [[x y] z]. cbn [fst snd] in Hin.
  destruct Hin as (Hx & Hy & Hz).
  unfold detect_edges, map_array, at3. cbn [cell].
  rewrite convolve3_jac. cbn [shape two_blocks]. cbv zeta.
  rewrite !reflect_same, !reflect_next, !reflect_previous by assumption.
  cbn [cell].
  destruct ax; cbn [along fst snd] in *; split_nat_tests;
    unfold two_blocks; cbn [cell along fst snd]; split_nat_tests;
    try lia; reflexivity.
Qed.

Lemma occurrences_nonneg v l : 0 <= occurrences v l.
Proof. induction l as [|u l IH]; simpl; [lia|]. destruct (u =? v); lia. Qed.

Lemma occurrences_pos v l : v ∈ l -> 0 < occurrences v l.
Proof.
  induction l as [|u l IH]; intros Hin; [inversion Hin|].
  pose proof (occurrences_nonneg v l). simpl.
  apply elem_of_cons in Hin as [->|Hin].
  - rewrite Z.eqb_refl. lia.
  - specialize (IH Hin). destruct (u =? v); lia.
Qed.

Lemma count_insert_one n m :
  0 <= n -> 0 <= m ->
  count_insert 1 (ones_and_twos n m) = ones_and_twos (n + 1) m.
Proof.
  intros Hn Hm. unfold ones_and_twos.
  destruct (Z.ltb_spec 0 n), (Z.ltb_spec 0 m), (Z.ltb_spec 0 (n + 1));
    try lia; simpl; try reflexivity.
  - replace n with 0 by lia. reflexivity.
  - replace n with 0 by lia. reflexivity.
Qed.

Lemma count_insert_two n m :
  0 <= n -> 0 <= m ->
  count_insert 2 (ones_and_twos n m) = ones_and_twos n (m + 1).
Proof.
  intros Hn Hm. unfold ones_and_twos.
  destruct (Z.ltb_spec 0 n), (Z.ltb_spec 0 m), (Z.ltb_spec 0 (m + 1));
    try lia; simpl; try reflexivity.
  - replace m with 0 by lia. reflexivity.
  - replace m with 0 by lia. reflexivity.
Qed.

Lemma unique_counts_ones_and_twos (l : list Z) :
  Forall (fun v => v = 1 \/ v = 2) l ->
  forall n m, 0 <= n -> 0 <= m ->
    fold_left (fun uc v => count_insert v uc) l (ones_and_twos n m) =
    ones_and_twos (n + occurrences 1 l) (m + occurrences 2 l).
Proof.
  induction 1 as [|v l Hv Hl IH]; intros n m Hn Hm.
  - simpl. rewrite !Z.add_0_r. reflexivity.
  - simpl. destruct Hv as [-> | ->]; simpl.
    + rewrite count_insert_one, IH by lia. f_equal; lia.
    + rewrite count_insert_two, IH by lia. f_equal; lia.
Qed.

(** [kernel] around a label-2 voxel whose window holds only the labels 1
    and 2, and label 1 at least once. *)
Lemma kernel_ones_and_twos (chunk : ndarray Z) :
  Forall (fun v => v = 1 \/ v = 2) (ravel chunk) ->
  1 ∈ ravel chunk ->
  kernel chunk 2 = Ok (Z.shiftl 1 32 + 2).
Proof.
  intros Hall Hone. unfold kernel, np_unique_counts.
  change (@nil (Z * Z)) with (ones_and_twos 0 0).
  rewrite unique_counts_ones_and_twos by (auto; lia).
  pose proof (occurrences_pos 1 _ Hone) as H1.
  pose proof (occurrences_nonneg 2 (ravel chunk)) as H2.
  rewrite !Z.add_0_l. unfold ones_and_twos.
  destruct (Z.ltb_spec 0 (occurrences 1 (ravel chunk))); [|lia].
  destruct (Z.ltb_spec 0 (occurrences 2 (ravel chunk))); simpl.
  - destruct (Z.ltb_spec 0 (Z.max (occurrences 1 (ravel chunk)) (-1))); [|lia].
    destruct (Z.ltb_spec (occurrences 1 (ravel chunk)) (-1)); [lia|].
    reflexivity.
  - destruct (Z.ltb_spec 0 (occurrences 1 (ravel chunk))); [|lia].
    reflexivity.
Qed.

Lemma py_axis_index_in (len i : nat) :
  (i < len)%nat -> py_axis_index len (Z.of_nat i) = Ok i.
Proof.
  intros H. unfold py_axis_index.
  destruct (Z.ltb_spec (Z.of_nat i) 0); [lia|].
  destruct (Z.leb_spec 0 (Z.of_nat i)); [|lia].
  destruct (Z.ltb_spec (Z.of_nat i) (Z.of_nat len)); [|lia].
  simpl. rewrite Nat2Z.id. reflexivity.
Qed.

Lemma py_index3_in (s p : idx3) :
  in_shape s p = true -> py_index3 s (z3_of_idx p) = Ok p.
Proof.
  intros H. apply in_shape_iff in H.
  destruct s as [[sx sy] sz], p as [[x y] z]. cbn [fst snd] in H.
  destruct H as (Hx & Hy & Hz). unfold py_index3, z3_of_idx.
  rewrite !py_axis_index_in by assumption. reflexivity.
Qed.

Lemma getitem_in {A} (a : ndarray A) (p : idx3) :
  in_shape (shape a) p = true -> getitem a (z3_of_idx p) = Ok (at3 a p).
Proof. intros H. unfold getitem. rewrite py_index3_in by exact H. reflexivity. Qed.

Lemma setitem_in {A} (a : ndarray A) (p : idx3) (v : A) :
  in_shape (shape a) p = true -> setitem a (z3_of_idx p) v = Ok (store a p v).
Proof. intros H. unfold setitem. rewrite py_index3_in by exact H. reflexivity. Qed.

(** A window [a[x : x + nx, y : y + ny, z : z + nz]] that lies inside [a]. *)
Lemma getslice_window {A} (a : ndarray A) (x y z nx ny nz : nat) :
  in_shape (shape a) (x + nx - 1, y + ny - 1, z + nz - 1)%nat = true ->
  (0 < nx)%nat -> (0 < ny)%nat -> (0 < nz)%nat ->
  getslice a (Z.of_nat x, Z.of_nat y, Z.of_nat z)
             (Z.of_nat x + Z.of_nat nx, Z.of_nat y + Z.of_nat ny,
              Z.of_nat z + Z.of_nat nz) =
  mk_ndarray (nx, ny, nz)
             (fun i j k => cell a (x + i)%nat (y + j)%nat (z + k)%nat).
Proof.
  intros H Hx Hy Hz. apply in_shape_iff in H. unfold getslice, slice3.
  destruct (shape a) as [[sx sy] sz]. cbn [fst snd] in H.
  rewrite !slice_axis_inside by lia. cbn [view_start view_shape].
  rewrite !Nat2Z.id. reflexivity.
Qed.

(** Cropping by [o] on both ends: [o : -o] on an axis of length [len]. *)
Lemma slice_axis_crop (len o : nat) :
  (0 < o)%nat -> (2 * o <= len)%nat ->
  slice_axis len (Z.of_nat o) (- Z.of_nat o) = (o, (len - 2 * o)%nat).
Proof.
  intros Ho Hlen. unfold slice_axis, slice_bound.
  destruct (Z.ltb_spec (Z.of_nat o) 0); [lia|].
  destruct (Z.ltb_spec (- Z.of_nat o) 0); [|lia].
  f_equal; lia.
Qed.

(** The loop of [process_block_nonzero] when every visited position stores
    the same key. *)
Lemma process_block_nonzero_loop (arr : ndarray Z) (stencil offset : Z3)
    (key : Z) (nze : list idx3) :
  forall out0 : ndarray Z,
    (forall q out, q ∈ nze -> shape out = shape out0 ->
       process_block_nonzero_at arr stencil offset out q = Ok (store out q key)) ->
    exists out,
      foldl (fun acc q =>
               out ← acc; process_block_nonzero_at arr stencil offset out q)
            (Ok out0) nze = Ok out /\
      shape out = shape out0 /\
      forall p, at3 out p = if bool_decide (p ∈ nze) then key else at3 out0 p.
Proof.
  induction nze as [|q nze IH]; intros out0 Hstep.
  - exists out0. split; [reflexivity|]. split; [reflexivity|].
    intros p. rewrite bool_decide_eq_false_2; [reflexivity|]. intros H; inversion H.
  - cbn [foldl]. cbn [mbind result_bind].
    rewrite (Hstep q out0) by (auto; apply elem_of_cons; auto).
    destruct (IH (store out0 q key)) as (out & Hfold & Hshape & Hcell).
    { intros q' out' Hq' Hs'. apply Hstep; [apply elem_of_cons; auto|].
      rewrite Hs'. reflexivity. }
    exists out. split; [exact Hfold|]. split; [rewrite Hshape; reflexivity|].
    intros p. rewrite Hcell.
    destruct (decide (p ∈ nze)) as [Hp|Hp].
    + rewrite !bool_decide_eq_true_2; [reflexivity| |exact Hp].
      apply elem_of_cons; auto.
    + rewrite (bool_decide_eq_false_2 _ Hp).
      destruct (decide (p = q)) as [->|Hne].
      * rewrite bool_decide_eq_true_2 by (apply elem_of_cons; auto).
        destruct q as [[x y] z]. unfold store, at3. cbn [cell].
        rewrite idx3_eqb_refl. reflexivity.
      * rewrite bool_decide_eq_false_2.
        2:{ intros H. apply elem_of_cons in H as [?|?]; contradiction. }
        destruct p as [[x y] z], q as [[x' y'] z']. unfold store, at3. cbn [cell].
        unfold idx3_eqb.
        destruct (Nat.eqb_spec x x'), (Nat.eqb_spec y y'), (Nat.eqb_spec z z');
          try reflexivity. subst. contradiction.
Qed.

Lemma two_blocks_labels (s : idx3) (ax : axis) (split : nat) (x y z : nat) :
  cell (map_array astype_uint32 (two_blocks s ax split)) x y z =
    if (along ax (x, y, z) <? split)%nat then 1 else 2.
Proof.
  unfold map_array, two_blocks. cbn [cell].
  destruct (along ax (x, y, z) <? split)%nat; reflexivity.
Qed.

(** One visit of [process_block_nonzero] at a flagged position of the two
    blocks: the centre is label 2, its 13 x 13 x 7 window holds label 1,
    and the key [(1 << 32) + 2] is stored. *)
Lemma process_block_nonzero_at_two_blocks
    (s : idx3) (ax : axis) (split : nat) (out : ndarray Z) (q : idx3) :
  in_shape s (q.1.1 + 12, q.1.2 + 12, q.2 + 6)%nat = true ->
  (along ax q + along ax (6, 6, 3) = split)%nat ->
  in_shape (shape out) q = true ->
  process_block_nonzero_at (map_array astype_uint32 (two_blocks s ax split))
                           (13, 13, 7) (6, 6, 3) out q =
    Ok (store out q (Z.shiftl 1 32 + 2)).
Proof.
  intros Hfit Hsplit Hout. destruct q as [[x y] z]. cbn [fst snd] in Hfit.
  set (arr := map_array astype_uint32 (two_blocks s ax split)).
  assert (Hshape : shape arr = s) by reflexivity.
  pose proof Hfit as Hfit'. apply in_shape_iff in Hfit'. cbn [fst snd] in Hfit'.
  unfold process_block_nonzero_at. cbn [z3_of_idx z3_add].
  change 6 with (Z.of_nat 6). change 3 with (Z.of_nat 3).
  rewrite <- !Nat2Z.inj_add.
  change (Z.of_nat (x + 6), Z.of_nat (y + 6), Z.of_nat (z + 3))
    with (z3_of_idx (x + 6, y + 6, z + 3)%nat).
  rewrite getitem_in.
  2:{ rewrite Hshape. apply in_shape_iff. cbn [fst snd]. lia. }
  cbn [mbind result_bind].
  assert (Hcentre : at3 arr (x + 6, y + 6, z + 3)%nat = 2).
  { unfold arr, at3. rewrite two_blocks_labels.
    destruct ax; cbn [along fst snd] in *; split_nat_tests; try lia; reflexivity. }
  rewrite Hcentre.
  change 13 with (Z.of_nat 13). change 7 with (Z.of_nat 7).
  rewrite getslice_window; [| |lia|lia|lia].
  2:{ rewrite Hshape. apply in_shape_iff. cbn [fst snd]. lia. }
  rewrite kernel_ones_and_twos.
  - cbn [mbind result_bind].
    change (Z.of_nat x, Z.of_nat y, Z.of_nat z) with (z3_of_idx (x, y, z)).
    rewrite setitem_in by exact Hout. reflexivity.
  - unfold ravel. cbn [shape]. apply Forall_forall. intros v Hv.
    change (map ?f ?l) with (f <$> l) in Hv.
    apply list_elem_of_fmap in Hv as ([[i j] k] & -> & _).
    unfold at3. cbn [cell]. unfold arr. rewrite two_blocks_labels.
    destruct (_ <? _)%nat; auto.
  - unfold ravel. cbn [shape]. change (map ?f ?l) with (f <$> l).
    apply list_elem_of_fmap.
    destruct ax; cbn [along fst snd] in *.
    + exists (5, 0, 0)%nat. split; [|apply elem_of_ndindex; reflexivity].
      unfold at3. cbn [cell]. unfold arr. rewrite two_blocks_labels.
      cbn [along fst snd]. split_nat_tests; [reflexivity|lia].
    + exists (0, 5, 0)%nat. split; [|apply elem_of_ndindex; reflexivity].
      unfold at3. cbn [cell]. unfold arr. rewrite two_blocks_labels.
      cbn [along fst snd]. split_nat_tests; [reflexivity|lia].
    + exists (0, 0, 2)%nat. split; [|apply elem_of_ndindex; reflexivity].
      unfold at3. cbn [cell]. unfold arr. rewrite two_blocks_labels.
      cbn [along fst snd]. split_nat_tests; [reflexivity|lia].
Qed.

Lemma detect_cs_two_blocks_cells (s : idx3) (ax : axis) (split : nat) :
  (0 < split < along ax s)%nat ->
  (12 <= s.1.1 /\ 12 <= s.1.2 /\ 6 <= s.2)%nat ->
  exists out,
    detect_cs (two_blocks s ax split) = Ok out /\
    shape out = (s.1.1 - 12, s.1.2 - 12, s.2 - 6)%nat /\
    forall q, in_shape (shape out) q = true ->
      at3 out q =
        if (along ax q + along ax (6, 6, 3) =? split)%nat
        then Z.shiftl 1 32 + 2 else 0.
Proof.
  intros Hsplit Hsize. destruct s as [[sx sy] sz]. cbn [fst snd] in Hsize.
  unfold detect_cs, process_block_nonzero.
  change (py_assert (stencil_is_odd (13, 13, 7))) with (Ok tt).
  cbn [mbind result_bind].
  change (half_stencil (13, 13, 7)) with (6, 6, 3).
  change (shape (map_array astype_uint32 (two_blocks (sx, sy, sz) ax split)))
    with (sx, sy, sz).
  cbn [z3_of_idx z3_sub z3_add].
  unfold np_zeros_int.
  destruct (Z.ltb_spec (Z.of_nat sx - 13 + 1) 0); [lia|].
  destruct (Z.ltb_spec (Z.of_nat sy - 13 + 1) 0); [lia|].
  destruct (Z.ltb_spec (Z.of_nat sz - 7 + 1) 0); [lia|].
  cbn [orb].
  replace (Z.to_nat (Z.of_nat sx - 13 + 1)) with (sx - 12)%nat by lia.
  replace (Z.to_nat (Z.of_nat sy - 13 + 1)) with (sy - 12)%nat by lia.
  replace (Z.to_nat (Z.of_nat sz - 7 + 1)) with (sz - 6)%nat by lia.
  set (out0 := mk_ndarray (sx - 12, sy - 12, sz - 6)%nat (fun _ _ _ => 0)).
  assert (Hedge : forall p, in_shape (sx, sy, sz) p = true ->
            at3 (detect_edges (two_blocks (sx, sy, sz) ax split)) p =
              if (along ax p =? split)%nat then 1 else 0).
  { intros p Hp. apply detect_edges_two_blocks; assumption. }
  assert (Hes : shape (detect_edges (two_blocks (sx, sy, sz) ax split))
                = (sx, sy, sz)) by reflexivity.
  generalize dependent (detect_edges (two_blocks (sx, sy, sz) ax split)).
  intros edges Hedge Hes.
  cbn [mbind result_bind].
  set (nze := np_nonzero _).
  assert (Hnze : forall q, q ∈ nze <->
            in_shape (sx - 12, sy - 12, sz - 6)%nat q = true /\
            (along ax q + along ax (6, 6, 3) = split)%nat).
  { intros [[x y] z]. unfold nze. rewrite elem_of_np_nonzero.
    unfold getslice, slice3, map_array. cbn [shape].
    rewrite Hes.
    change 6 with (Z.of_nat 6). change 3 with (Z.of_nat 3).
    rewrite !slice_axis_crop by lia.
    cbn [view_start view_shape shape at3 cell].
    replace (sx - 2 * 6)%nat with (sx - 12)%nat by lia.
    replace (sy - 2 * 6)%nat with (sy - 12)%nat by lia.
    replace (sz - 2 * 3)%nat with (sz - 6)%nat by lia.
    split.
    - intros [Hin Hflag]. split; [exact Hin|].
      pose proof Hin as Hin'. apply in_shape_iff in Hin'. cbn [fst snd] in Hin'.
      change (cell edges (6 + x) (6 + y) (3 + z))
        with (at3 edges (6 + x, 6 + y, 3 + z)%nat) in Hflag.
      rewrite Hedge in Hflag.
      + destruct ax; cbn [along fst snd] in *;
          match type of Hflag with
          | context [(?a =? split)%nat] => destruct (Nat.eqb_spec a split)
          end; try discriminate; lia.
      + apply in_shape_iff. cbn [fst snd]. lia.
    - intros [Hin Hal]. split; [exact Hin|].
      pose proof Hin as Hin'. apply in_shape_iff in Hin'. cbn [fst snd] in Hin'.
      change (cell edges (6 + x) (6 + y) (3 + z))
        with (at3 edges (6 + x, 6 + y, 3 + z)%nat).
      rewrite Hedge.
      + destruct ax; cbn [along fst snd] in *;
          match goal with
          | |- context [(?a =? split)%nat] => destruct (Nat.eqb_spec a split)
          end; try reflexivity; lia.
      + apply in_shape_iff. cbn [fst snd]. lia. }
  destruct (process_block_nonzero_loop
              (map_array astype_uint32 (two_blocks (sx, sy, sz) ax split))
              (13, 13, 7) (6, 6, 3) (Z.shiftl 1 32 + 2) nze out0)
    as (out & Hfold & Hshape & Hcell).
  { intros q out' Hq Hs'. apply Hnze in Hq as [Hin Hal].
    apply process_block_nonzero_at_two_blocks.
    - apply in_shape_iff in Hin. apply in_shape_iff.
      destruct q as [[x y] z]. cbn [fst snd] in *. lia.
    - exact Hal.
    - rewrite Hs'. exact Hin. }
  exists out. split; [exact Hfold|]. split; [exact Hshape|].
  intros q Hq. rewrite Hshape in Hq. rewrite Hcell.
  destruct (Nat.eqb_spec (along ax q + along ax (6, 6, 3)%nat) split) as [Heq|Hne].
  - rewrite bool_decide_eq_true_2; [reflexivity|]. apply Hnze. auto.
  - rewrite bool_decide_eq_false_2; [destruct q as [[? ?] ?]; reflexivity|].
    intros Hq'. apply Hnze in Hq' as [_ Hq']. contradiction.
Qed.

(** Not every flagged voxel carries the key in the result.  In
    the 14 x 13 x 7 volume split at 7 along the first axis, the voxel
    (7, 0, 0) is flagged, but the result of [detect_cs] has the shape
    (2, 1, 1) and no cell for it; the flagged voxel (7, 6, 3), six voxels
    inside, has the key. *)
Lemma detect_cs_margin_voxel_has_no_key :
  at3 (detect_edges (two_blocks (14, 13, 7)%nat Axis0 7)) (7, 0, 0)%nat = 1 /\
  (out ← detect_cs (two_blocks (14, 13, 7)%nat Axis0 7);
   Ok (shape out, assigned_key out (7, 0, 0)%nat,
       assigned_key out (7, 6, 3)%nat))
  = Ok ((2, 1, 1)%nat, None, Some (Z.shiftl 1 32 + 2)).
Proof. split; vm_compute; reflexivity. Qed.

(** X1. On a volume of two abutting constant blocks, label 1
    below [split] and label 2 from [split] on along one axis, the kernel
    of weight -6 at the centre and +1 at the six face neighbours flags
    exactly the layer of label-2 voxels next to the shared face.
    [detect_cs] returns the volume cropped by (6, 6, 3) on every face: a
    voxel at least that far inside has the key [(1 << 32) + 2] when it is
    flagged and 0 otherwise, and a voxel in the margin has no cell in the
    result. *)
Theorem detect_cs_two_blocks (s : idx3) (ax : axis) (split : nat) :
  (0 < split < along ax s)%nat ->
  (12 <= s.1.1 /\ 12 <= s.1.2 /\ 6 <= s.2)%nat ->
  (forall p, in_shape s p = true ->
     at3 (detect_edges (two_blocks s ax split)) p =
       if (along ax p =? split)%nat then 1 else 0) /\
  exists out,
    detect_cs (two_blocks s ax split) = Ok out /\
    shape out = (s.1.1 - 12, s.1.2 - 12, s.2 - 6)%nat /\
    forall p, in_shape s p = true ->
      assigned_key out p =
        if interior s p
        then Some (if (along ax p =? split)%nat
                   then Z.shiftl (Z.min 1 2) 32 + Z.max 1 2 else 0)
        else None.
Proof.
  intros Hsplit Hsize. split.
  - intros p Hp. apply detect_edges_two_blocks; assumption.
  - destruct (detect_cs_two_blocks_cells s ax split Hsplit Hsize)
      as (out & Hout & Hshape & Hcell).
    exists out. split; [exact Hout|]. split; [exact Hshape|].
    intros [[x y] z] Hp. unfold assigned_key, interior. rewrite Hshape.
    destruct s as [[sx sy] sz]. cbn [fst snd] in *.
    apply in_shape_iff in Hp. cbn [fst snd] in Hp.
    destruct (Nat.leb_spec 6 x); [|reflexivity].
    destruct (Nat.leb_spec 6 y); cbn [andb];
      [|rewrite !andb_false_r; reflexivity].
    destruct (Nat.leb_spec 3 z); cbn [andb];
      [|rewrite !andb_false_r; reflexivity].
    unfold in_shape.
    destruct (Nat.ltb_spec (x - 6) (sx - 12)), (Nat.ltb_spec (x + 6) sx);
      try lia; cbn [andb]; [|reflexivity].
    destruct (Nat.ltb_spec (y - 6) (sy - 12)), (Nat.ltb_spec (y + 6) sy);
      try lia; cbn [andb]; [|reflexivity].
    destruct (Nat.ltb_spec (z - 3) (sz - 6)), (Nat.ltb_spec (z + 3) sz);
      try lia; cbn [andb]; [|reflexivity].
    f_equal.
    change (cell out (x - 6) (y - 6) (z - 3))
      with (at3 out (x - 6, y - 6, z - 3)%nat).
    rewrite Hcell.
    + destruct ax; cbn [along fst snd] in *; split_nat_tests; try lia; reflexivity.
    + rewrite Hshape. apply in_shape_iff. cbn [fst snd]. lia.
Qed.

Lemma detect_cs_two_blocks_witness :
  exists out,
    detect_cs (two_blocks (14, 13, 7)%nat Axis0 7) = Ok out /\
    assigned_key out (7, 6, 3)%nat = Some (Z.shiftl 1 32 + 2) /\
    assigned_key out (6, 6, 3)%nat = Some 0.
Proof.
  destruct (detect_cs_two_blocks (14, 13, 7)%nat Axis0 7)
    as (_ & out & Hout & _ & Hkey).
  - cbn [along fst snd]. lia.
  - cbn [fst snd]. lia.
  - exists out. split; [exact Hout|]. split.
    + rewrite Hkey by reflexivity. reflexivity.
    + rewrite Hkey by reflexivity. reflexivity.
Defined.

(** ** [np.unique] with counts, [np.argmax] and the kernel in general *)

Lemma occurrences_app v l1 l2 :
  occurrences v (l1 ++ l2) = occurrences v l1 + occurrences v l2.
Proof. induction l1 as [|u l1 IH]; simpl; [reflexivity|]. rewrite IH. lia. Qed.

Lemma occurrences_absent v l : v ∉ l -> occurrences v l = 0.
Proof.
  induction l as [|u l IH]; intros H; simpl; [reflexivity|].
  apply not_elem_of_cons in H as [Hne H]. rewrite (IH H).
  destruct (Z.eqb_spec u v); [congruence|reflexivity].
Qed.

Lemma occurrences_present v l : 0 < occurrences v l -> v ∈ l.
Proof.
  intros H. destruct (decide (v ∈ l)) as [Hin|Hout]; [exact Hin|].
  rewrite (occurrences_absent _ _ Hout) in H. lia.
Qed.

Lemma keys_count_insert v uc x :
  x ∈ map fst (count_insert v uc) <-> x = v \/ x ∈ map fst uc.
Proof.
  induction uc as [|[u c] uc IH]; simpl.
  - rewrite list_elem_of_singleton. rewrite elem_of_nil. tauto.
  - destruct (Z.ltb_spec v u); [|destruct (Z.eqb_spec v u)]; simpl.
    + rewrite !elem_of_cons. simpl. tauto.
    + subst. rewrite !elem_of_cons. tauto.
    + rewrite !elem_of_cons, IH. tauto.
Qed.

Lemma sorted_count_insert v uc :
  StronglySorted Z.lt (map fst uc) ->
  StronglySorted Z.lt (map fst (count_insert v uc)).
Proof.
  induction uc as [|[u c] uc IH]; intros Hs; simpl.
  - repeat constructor.
  - apply StronglySorted_inv in Hs as [Hs Hall]. simpl in Hall.
    destruct (Z.ltb_spec v u); [|destruct (Z.eqb_spec v u)]; simpl.
    + constructor; [constructor; assumption|].
      constructor; [exact H|]. eapply Forall_impl; [exact Hall|].
      intros a Ha. simpl in Ha. lia.
    + constructor; assumption.
    + constructor; [apply IH; exact Hs|].
      apply Forall_forall. intros x Hx. apply keys_count_insert in Hx as [->|Hx].
      * lia.
      * rewrite Forall_forall in Hall. apply Hall. exact Hx.
Qed.

(** The counts [np.unique] keeps are the numbers of occurrences. *)
Lemma counts_count_insert l v uc :
  StronglySorted Z.lt (map fst uc) ->
  Forall (fun p => p.2 = occurrences p.1 l /\ 0 < p.2) uc ->
  (v ∉ map fst uc -> occurrences v l = 0) ->
  Forall (fun p => p.2 = occurrences p.1 (l ++ [v]) /\ 0 < p.2)
         (count_insert v uc).
Proof.
  assert (Hsnoc : forall u, occurrences u (l ++ [v]) =
                            occurrences u l + if v =? u then 1 else 0).
  { intros u. rewrite occurrences_app. simpl. lia. }
  induction uc as [|[u c] uc IH]; intros Hs Hall Hnew; simpl.
  - constructor; [|constructor]. simpl. rewrite Hsnoc, Z.eqb_refl.
    rewrite Hnew; [lia|]. apply not_elem_of_nil.
  - apply StronglySorted_inv in Hs as [Hs Hlt]. simpl in Hlt.
    apply Forall_cons in Hall as [[Hc Hpos] Hall]. simpl in Hc, Hpos.
    destruct (Z.ltb_spec v u); [|destruct (Z.eqb_spec v u)]; simpl.
    + constructor; [|constructor].
      * simpl. rewrite Hsnoc, Z.eqb_refl. rewrite Hnew; [lia|].
        simpl. apply not_elem_of_cons. split; [lia|].
        intros Hin. rewrite Forall_forall in Hlt. specialize (Hlt _ Hin). lia.
      * simpl. rewrite Hsnoc. destruct (Z.eqb_spec v u); [lia|]. lia.
      * eapply Forall_forall. intros [a b] Hab.
        rewrite Forall_forall in Hall. destruct (Hall _ Hab) as [Hb Hb'].
        simpl in *. rewrite Hsnoc. split; [|exact Hb'].
        destruct (Z.eqb_spec v a); [|lia]. subst a.
        assert (Hin : v ∈ map fst uc).
        { apply list_elem_of_fmap. exists (v, b). split; [reflexivity|exact Hab]. }
        rewrite Forall_forall in Hlt. specialize (Hlt _ Hin). lia.
    + subst u. constructor.
      * simpl. rewrite Hsnoc, Z.eqb_refl. lia.
      * eapply Forall_forall. intros [a b] Hab.
        rewrite Forall_forall in Hall. destruct (Hall _ Hab) as [Hb Hb'].
        simpl in *. rewrite Hsnoc. split; [|exact Hb'].
        destruct (Z.eqb_spec v a); [|lia]. subst a.
        assert (Hin : v ∈ map fst uc).
        { apply list_elem_of_fmap. exists (v, b). split; [reflexivity|exact Hab]. }
        rewrite Forall_forall in Hlt. specialize (Hlt _ Hin). lia.
    + constructor.
      * simpl. rewrite Hsnoc. destruct (Z.eqb_spec v u); [lia|]. lia.
      * apply IH; [exact Hs|exact Hall|].
        intros Hout. apply Hnew. simpl. apply not_elem_of_cons. split; [lia|exact Hout].
Qed.

Lemma unique_counts_fold (values : list Z) :
  forall (done : list Z) (uc : list (Z * Z)),
    StronglySorted Z.lt (map fst uc) ->
    Forall (fun p => p.2 = occurrences p.1 done /\ 0 < p.2) uc ->
    (forall v, v ∈ done -> v ∈ map fst uc) ->
    let uc' := fold_left (fun uc v => count_insert v uc) values uc in
    StronglySorted Z.lt (map fst uc') /\
    Forall (fun p => p.2 = occurrences p.1 (done ++ values) /\ 0 < p.2) uc' /\
    (forall v, v ∈ done ++ values -> v ∈ map fst uc').
Proof.
  induction values as [|x values IH]; intros done uc Hs Hc Hk; simpl.
  - rewrite app_nil_r. auto.
  - replace (done ++ x :: values) with ((done ++ [x]) ++ values)
      by (rewrite <- app_assoc; reflexivity).
    apply IH.
    + apply sorted_count_insert. exact Hs.
    + apply counts_count_insert; [exact Hs|exact Hc|].
      intros Hout. apply occurrences_absent. intros Hin. apply Hout, Hk, Hin.
    + intros v Hv. apply keys_count_insert.
      apply elem_of_app in Hv as [Hv|Hv].
      * right. apply Hk, Hv.
      * left. apply list_elem_of_singleton in Hv. exact Hv.
Qed.

Lemma unique_counts_spec (l : list Z) :
  StronglySorted Z.lt (map fst (np_unique_counts l)) /\
  Forall (fun p => p.2 = occurrences p.1 l /\ 0 < p.2) (np_unique_counts l) /\
  (forall v, v ∈ l -> v ∈ map fst (np_unique_counts l)).
Proof.
  unfold np_unique_counts.
  apply (unique_counts_fold l [] []).
  - constructor.
  - constructor.
  - intros v Hv. inversion Hv.
Qed.

Lemma sorted_lookup_lt (ks : list Z) :
  StronglySorted Z.lt ks ->
  forall i j a b, (i < j)%nat -> ks !! i = Some a -> ks !! j = Some b -> a < b.
Proof.
  induction 1 as [|k ks Hs IH Hall]; intros i j a b Hij Ha Hb.
  - rewrite lookup_nil in Ha. discriminate.
  - destruct j as [|j]; [lia|]. simpl in Hb. destruct i as [|i].
    + simpl in Ha. injection Ha as <-. rewrite Forall_forall in Hall.
      apply Hall. eapply list_elem_of_lookup_2. exact Hb.
    + simpl in Ha. apply (IH i j); [lia|exact Ha|exact Hb].
Qed.

(** [np.argmax] names the first position of the largest value. *)
Lemma argmax_from_spec (rest : list Z) :
  forall (i best_i : nat) (best : Z),
    let r := argmax_from rest i best_i best in
    let m := fold_left Z.max rest best in
    Forall (fun x => x <= m) rest /\ best <= m /\
    ((r = best_i /\ m = best) \/
     exists k, r = (i + k)%nat /\ rest !! k = Some m /\ best < m /\
               forall j y, (j < k)%nat -> rest !! j = Some y -> y < m).
Proof.
  induction rest as [|v rest IH]; intros i bi b; simpl.
  - split; [constructor|]. split; [lia|]. left. auto.
  - destruct (Z.ltb_spec b v) as [Hlt|Hge].
    + replace (Z.max b v) with v by lia.
      destruct (IH (S i) i v) as (Hall & Hv & Hcase).
      split; [constructor; assumption|]. split; [lia|]. right.
      destruct Hcase as [[Hr Hm]|(k & Hr & Hk & Hlt' & Hbefore)].
      * exists 0%nat. rewrite Hr, Hm. split; [lia|]. split; [reflexivity|].
        split; [exact Hlt|]. intros j y Hj. lia.
      * exists (S k). split; [lia|]. split; [exact Hk|]. split; [lia|].
        intros [|j] y Hj Hy; simpl in Hy.
        -- injection Hy as <-. exact Hlt'.
        -- apply (Hbefore j); [lia|exact Hy].
    + replace (Z.max b v) with b by lia.
      destruct (IH (S i) bi b) as (Hall & Hb & Hcase).
      split; [constructor; [lia|assumption]|]. split; [exact Hb|].
      destruct Hcase as [[Hr Hm]|(k & Hr & Hk & Hlt' & Hbefore)].
      * left. auto.
      * right. exists (S k). split; [lia|]. split; [exact Hk|]. split; [exact Hlt'|].
        intros [|j] y Hj Hy; simpl in Hy.
        -- injection Hy as <-. lia.
        -- apply (Hbefore j); [lia|exact Hy].
Qed.

Lemma np_argmax_spec (l : list Z) :
  l <> [] ->
  exists m, np_max l = Ok m /\ l !! np_argmax l = Some m /\
            forall j y, l !! j = Some y ->
                        y <= m /\ ((j < np_argmax l)%nat -> y < m).
Proof.
  destruct l as [|v rest]; [congruence|]. intros _.
  exists (fold_left Z.max rest v). split; [reflexivity|].
  unfold np_argmax.
  destruct (argmax_from_spec rest 1 0 v) as (Hall & Hv & Hcase).
  destruct Hcase as [[Hr Hm]|(k & Hr & Hk & Hlt & Hbefore)].
  - rewrite Hr, Hm. split; [reflexivity|].
    intros [|j] y Hy; simpl in Hy.
    + injection Hy as <-. split; [lia|lia].
    + rewrite Hm in Hall. rewrite Forall_forall in Hall. split; [|lia].
      apply Hall. eapply list_elem_of_lookup_2. exact Hy.
  - rewrite Hr. simpl. split; [exact Hk|].
    intros [|j] y Hy; simpl in Hy.
    + injection Hy as <-. split; [lia|]. intros _. exact Hlt.
    + split.
      * rewrite Forall_forall in Hall. apply Hall.
        eapply list_elem_of_lookup_2. exact Hy.
      * intros Hj. apply (Hbefore j); [lia|exact Hy].
Qed.

(** What [kernel] answers on a window that is not empty: 0 when the window
    holds nothing but background and the centre's own label, and otherwise
    the key of the centre with the most frequent other label, the smallest
    such label when several are equally frequent. *)
Lemma kernel_partner (chunk : ndarray Z) (center_id : Z) :
  ravel chunk <> [] ->
  (kernel chunk center_id = Ok 0 /\
   forall v, v ∈ ravel chunk -> v = 0 \/ v = center_id) \/
  exists partner_id,
    partner_id ∈ ravel chunk /\ partner_id <> 0 /\ partner_id <> center_id /\
    (forall v, v ∈ ravel chunk -> v <> 0 -> v <> center_id ->
       occurrences v (ravel chunk) < occurrences partner_id (ravel chunk) \/
       (occurrences v (ravel chunk) = occurrences partner_id (ravel chunk) /\
        partner_id <= v)) /\
    kernel chunk center_id =
      Ok (if partner_id <? center_id
          then wrap_int64 (wrap_int64 (Z.shiftl partner_id 32) + center_id)
          else wrap_int64 (wrap_int64 (Z.shiftl center_id 32) + partner_id)).
Proof.
  intros Hne. unfold kernel.
  destruct (unique_counts_spec (ravel chunk)) as (Hs & Hc & Hk).
  set (l := ravel chunk) in *. set (uc := np_unique_counts l) in *.
  set (cnt := fun p : Z * Z =>
                if p.1 =? center_id then -1 else if p.1 =? 0 then -1 else p.2).
  assert (Hids : map fst (mask_count center_id (mask_count 0 uc)) = map fst uc).
  { unfold mask_count. rewrite !map_map. apply map_ext. intros [u c]. reflexivity. }
  assert (Hcounts : map snd (mask_count center_id (mask_count 0 uc)) = map cnt uc).
  { unfold mask_count. rewrite !map_map. apply map_ext. intros [u c]. reflexivity. }
  rewrite Hids, Hcounts.
  assert (Hkey : forall v, v ∈ l ->
            exists j, uc !! j = Some (v, occurrences v l)).
  { intros v Hv. specialize (Hk v Hv).
    apply list_elem_of_fmap in Hk as ([u c] & Hu & Hin). simpl in Hu. subst u.
    rewrite Forall_forall in Hc. destruct (Hc _ Hin) as [Hcv _]. simpl in Hcv.
    apply list_elem_of_lookup_1 in Hin as [j Hj]. exists j. rewrite Hj, Hcv.
    reflexivity. }
  assert (Hnonempty : map cnt uc <> []).
  { destruct l as [|v l'] eqn:El; [congruence|].
    destruct (Hkey v) as [j Hj]; [apply elem_of_cons; auto|].
    destruct uc; [rewrite lookup_nil in Hj; discriminate|discriminate]. }
  destruct (np_argmax_spec (map cnt uc) Hnonempty) as (m & Hmax & Harg & Hle).
  rewrite Hmax. cbn [mbind result_bind].
  set (i := np_argmax (map cnt uc)) in *.
  change (map cnt uc) with (cnt <$> uc) in Harg, Hle.
  rewrite list_lookup_fmap in Harg.
  destruct (uc !! i) as [[p c]|] eqn:Hp; [|discriminate].
  simpl in Harg. injection Harg as Hm.
  destruct (Z.ltb_spec 0 m) as [Hpos|Hnonpos].
  - right. exists p.
    assert (Hp' : p <> center_id /\ p <> 0 /\ c = m).
    { unfold cnt in Hm. simpl in Hm.
      destruct (Z.eqb_spec p center_id); [lia|].
      destruct (Z.eqb_spec p 0); [lia|]. auto. }
    destruct Hp' as (Hpc & Hp0 & Hcm).
    assert (Hpin : (p, c) ∈ uc) by (eapply list_elem_of_lookup_2; exact Hp).
    rewrite Forall_forall in Hc. destruct (Hc _ Hpin) as [Hocc Hcpos].
    simpl in Hocc, Hcpos.
    split; [apply occurrences_present; lia|].
    split; [exact Hp0|]. split; [exact Hpc|]. split.
    + intros v Hv Hv0 Hvc. destruct (Hkey v Hv) as [j Hj].
      assert (Hcj : (cnt <$> uc) !! j = Some (occurrences v l)).
      { rewrite list_lookup_fmap, Hj. simpl. unfold cnt. simpl.
        destruct (Z.eqb_spec v center_id); [contradiction|].
        destruct (Z.eqb_spec v 0); [contradiction|]. reflexivity. }
      destruct (Hle j _ Hcj) as [Hvm Hbefore].
      destruct (Z.lt_ge_cases (occurrences v l) m) as [Hlt|Hge].
      * left. lia.
      * right. split; [lia|].
        destruct (Nat.lt_trichotomy j i) as [Hji|[Hji|Hji]].
        -- specialize (Hbefore Hji). lia.
        -- rewrite Hji, Hp in Hj. injection Hj as -> _. lia.
        -- assert (p < v); [|lia].
           apply (sorted_lookup_lt _ Hs i j); [exact Hji| |].
           ++ change (map fst uc) with (fst <$> uc).
              rewrite list_lookup_fmap, Hp. reflexivity.
           ++ change (map fst uc) with (fst <$> uc).
              rewrite list_lookup_fmap, Hj. reflexivity.
    + unfold py_index. change (map fst uc) with (fst <$> uc).
      rewrite list_lookup_fmap, Hp. simpl.
      destruct (p <? center_id); reflexivity.
  - left. split; [reflexivity|].
    intros v Hv. destruct (Z.eq_dec v 0) as [?|Hv0]; [auto|].
    destruct (Z.eq_dec v center_id) as [?|Hvc]; [auto|]. exfalso.
    destruct (Hkey v Hv) as [j Hj].
    assert (Hcj : (cnt <$> uc) !! j = Some (occurrences v l)).
    { rewrite list_lookup_fmap, Hj. simpl. unfold cnt. simpl.
      destruct (Z.eqb_spec v center_id); [contradiction|].
      destruct (Z.eqb_spec v 0); [contradiction|]. reflexivity. }
    destruct (Hle j _ Hcj) as [Hvm _].
    pose proof (occurrences_pos v l Hv). lia.
Qed.

(** The key is stored as [uint64]: for ids below [2 ^ 32] that is the
    smaller id in the upper and the larger id in the lower 32 bits. *)
Lemma astype_uint64_wrap_add (x y : Z) :
  astype_uint64 (wrap_int64 (wrap_int64 x + y)) = (x + y) mod 2 ^ 64.
Proof.
  unfold astype_uint64, wrap_int64.
  pose proof (Z.div_mod (x + 2 ^ 63) (2 ^ 64) ltac:(lia)) as H1.
  pose proof (Z.div_mod ((x + 2 ^ 63) mod 2 ^ 64 - 2 ^ 63 + y + 2 ^ 63) (2 ^ 64)
                        ltac:(lia)) as H2.
  set (q1 := (x + 2 ^ 63) / 2 ^ 64) in *.
  set (q2 := ((x + 2 ^ 63) mod 2 ^ 64 - 2 ^ 63 + y + 2 ^ 63) / 2 ^ 64) in *.
  replace (((x + 2 ^ 63) mod 2 ^ 64 - 2 ^ 63 + y + 2 ^ 63) mod 2 ^ 64 - 2 ^ 63)
    with (x + y + (- q1 - q2) * 2 ^ 64) by lia.
  apply Z_mod_plus_full.
Qed.

Lemma packed_key (a b : Z) :
  0 <= a < 2 ^ 32 -> 0 <= b < 2 ^ 32 ->
  astype_uint64 (wrap_int64 (wrap_int64 (Z.shiftl a 32) + b)) =
    Z.shiftl a 32 + b /\
  Z.shiftr (Z.shiftl a 32 + b) 32 = a /\
  Z.land (Z.shiftl a 32 + b) (2 ^ 32 - 1) = b.
Proof.
  intros Ha Hb. rewrite astype_uint64_wrap_add. rewrite Z.shiftl_mul_pow2 by lia.
  split; [apply Z.mod_small; lia|]. split.
  - rewrite Z.shiftr_div_pow2 by lia.
    rewrite Z.div_add_l by lia. rewrite Z.div_small by lia. lia.
  - change (2 ^ 32 - 1) with (Z.ones 32). rewrite Z.land_ones by lia.
    rewrite Z.add_comm, Z_mod_plus_full. apply Z.mod_small. lia.
Qed.

Lemma ravel_nonempty {A} (a : ndarray A) :
  in_shape (shape a) (0, 0, 0)%nat = true -> ravel a <> [].
Proof.
  intros H Hnil. apply elem_of_ndindex in H. unfold ravel in Hnil.
  apply map_eq_nil in Hnil. rewrite Hnil in H. inversion H.
Qed.

Lemma ravel_empty {A} (a : ndarray A) :
  in_shape (shape a) (0, 0, 0)%nat = false -> ravel a = [].
Proof.
  intros H. unfold ravel.
  destruct (ndindex (shape a)) as [|[[x y] z] l] eqn:E; [reflexivity|].
  assert (Hin : (x, y, z) ∈ ndindex (shape a)) by (rewrite E; apply elem_of_cons; auto).
  apply elem_of_ndindex in Hin. apply in_shape_iff in Hin.
  destruct (shape a) as [[sx sy] sz]. cbn [fst snd] in Hin.
  unfold in_shape in H.
  destruct (Nat.ltb_spec 0 sx), (Nat.ltb_spec 0 sy), (Nat.ltb_spec 0 sz);
    try lia; discriminate.
Qed.

Lemma elem_of_ravel {A} (a : ndarray A) (v : A) :
  v ∈ ravel a <-> exists p, in_shape (shape a) p = true /\ at3 a p = v.
Proof.
  unfold ravel. change (map ?f ?l) with (f <$> l). rewrite list_elem_of_fmap.
  split; intros (p & H1 & H2).
  - exists p. split; [apply elem_of_ndindex; exact H2|auto].
  - exists p. split; [auto|apply elem_of_ndindex; exact H1].
Qed.

Lemma kernel_total (chunk : ndarray Z) (center_id : Z) :
  ravel chunk <> [] -> exists key, kernel chunk center_id = Ok key.
Proof.
  intros H. destruct (kernel_partner chunk center_id H)
    as [[Hk _]|(p & _ & _ & _ & _ & Hk)]; eauto.
Qed.

(** The loop of [process_block_nonzero] in general: each visited position
    ends with the key its visit stores. *)
Lemma process_block_nonzero_loop_keys (arr : ndarray Z) (stencil offset : Z3)
    (key : idx3 -> Z) (nze : list idx3) :
  forall out0 : ndarray Z,
    (forall q out, q ∈ nze -> shape out = shape out0 ->
       process_block_nonzero_at arr stencil offset out q =
         Ok (store out q (key q))) ->
    exists out,
      foldl (fun acc q =>
               out ← acc; process_block_nonzero_at arr stencil offset out q)
            (Ok out0) nze = Ok out /\
      shape out = shape out0 /\
      forall p, at3 out p = if bool_decide (p ∈ nze) then key p else at3 out0 p.
Proof.
  induction nze as [|q nze IH]; intros out0 Hstep.
  - exists out0. split; [reflexivity|]. split; [reflexivity|].
    intros p. rewrite bool_decide_eq_false_2; [reflexivity|]. intros H; inversion H.
  - cbn [foldl]. cbn [mbind result_bind].
    rewrite (Hstep q out0) by (auto; apply elem_of_cons; auto).
    destruct (IH (store out0 q (key q))) as (out & Hfold & Hshape & Hcell).
    { intros q' out' Hq' Hs'. apply Hstep; [apply elem_of_cons; auto|].
      rewrite Hs'. reflexivity. }
    exists out. split; [exact Hfold|]. split; [rewrite Hshape; reflexivity|].
    intros p. rewrite Hcell.
    destruct (decide (p ∈ nze)) as [Hp|Hp].
    + rewrite !bool_decide_eq_true_2; [reflexivity| |exact Hp].
      apply elem_of_cons; auto.
    + rewrite (bool_decide_eq_false_2 _ Hp).
      destruct (decide (p = q)) as [->|Hne].
      * rewrite bool_decide_eq_true_2 by (apply elem_of_cons; auto).
        destruct q as [[x y] z]. unfold store, at3. cbn [cell].
        rewrite idx3_eqb_refl. reflexivity.
      * rewrite bool_decide_eq_false_2.
        2:{ intros H. apply elem_of_cons in H as [?|?]; contradiction. }
        destruct p as [[x y] z], q as [[x' y'] z']. unfold store, at3. cbn [cell].
        unfold idx3_eqb.
        destruct (Nat.eqb_spec x x'), (Nat.eqb_spec y y'), (Nat.eqb_spec z z');
          try reflexivity. subst. contradiction.
Qed.

Lemma odd_stencil (o0 o1 o2 : nat) :
  stencil_is_odd (2 * Z.of_nat o0 + 1, 2 * Z.of_nat o1 + 1, 2 * Z.of_nat o2 + 1)
    = true /\
  half_stencil (2 * Z.of_nat o0 + 1, 2 * Z.of_nat o1 + 1, 2 * Z.of_nat o2 + 1)
    = (Z.of_nat o0, Z.of_nat o1, Z.of_nat o2).
Proof.
  unfold stencil_is_odd, half_stencil.
  assert (H : forall o : nat, (2 * Z.of_nat o + 1) mod 2 = 1 /\
                              (2 * Z.of_nat o + 1) / 2 = Z.of_nat o).
  { intros o. split.
    - rewrite Z.add_comm, Z.mul_comm, Z_mod_plus_full. reflexivity.
    - rewrite Z.add_comm, Z.mul_comm, Z.div_add by lia. reflexivity. }
  destruct (H o0) as [-> ->], (H o1) as [-> ->], (H o2) as [-> ->].
  split; reflexivity.
Qed.

(** [process_block_nonzero] with the stencil [2 * o + 1] on volumes that
    are at least [2 * o] wide. *)
Lemma process_block_nonzero_spec (edges arr : ndarray Z) (o0 o1 o2 : nat) :
  shape edges = shape arr ->
  (0 < o0 /\ 0 < o1 /\ 0 < o2)%nat ->
  (2 * o0 <= (shape arr).1.1 /\ 2 * o1 <= (shape arr).1.2 /\
   2 * o2 <= (shape arr).2)%nat ->
  exists out,
    process_block_nonzero edges arr
      (2 * Z.of_nat o0 + 1, 2 * Z.of_nat o1 + 1, 2 * Z.of_nat o2 + 1) = Ok out /\
    shape out = ((shape arr).1.1 - 2 * o0, (shape arr).1.2 - 2 * o1,
                 (shape arr).2 - 2 * o2)%nat /\
    forall x y z, in_shape (shape out) (x, y, z) = true ->
      if cell edges (x + o0) (y + o1) (z + o2) =? 0
      then cell out x y z = 0
      else exists key,
        kernel (mk_ndarray (2 * o0 + 1, 2 * o1 + 1, 2 * o2 + 1)%nat
                  (fun i j k => cell arr (x + i) (y + j) (z + k)))
               (cell arr (x + o0) (y + o1) (z + o2)) = Ok key /\
        cell out x y z = astype_uint64 key.
Proof.
  intros Hes Hpos Hfit. destruct (shape arr) as [[sx sy] sz] eqn:Has.
  cbn [fst snd] in Hfit.
  unfold process_block_nonzero.
  destruct (odd_stencil o0 o1 o2) as [-> ->].
  cbn [py_assert mbind result_bind].
  rewrite Has. cbn [z3_of_idx z3_sub z3_add].
  unfold np_zeros_int.
  destruct (Z.ltb_spec (Z.of_nat sx - (2 * Z.of_nat o0 + 1) + 1) 0); [lia|].
  destruct (Z.ltb_spec (Z.of_nat sy - (2 * Z.of_nat o1 + 1) + 1) 0); [lia|].
  destruct (Z.ltb_spec (Z.of_nat sz - (2 * Z.of_nat o2 + 1) + 1) 0); [lia|].
  cbn [orb].
  replace (Z.to_nat (Z.of_nat sx - (2 * Z.of_nat o0 + 1) + 1))
    with (sx - 2 * o0)%nat by lia.
  replace (Z.to_nat (Z.of_nat sy - (2 * Z.of_nat o1 + 1) + 1))
    with (sy - 2 * o1)%nat by lia.
  replace (Z.to_nat (Z.of_nat sz - (2 * Z.of_nat o2 + 1) + 1))
    with (sz - 2 * o2)%nat by lia.
  set (out0 := mk_ndarray (sx - 2 * o0, sy - 2 * o1, sz - 2 * o2)%nat
                          (fun _ _ _ => 0)).
  cbn [mbind result_bind].
  set (nze := np_nonzero _).
  assert (Hnze : forall x y z, (x, y, z) ∈ nze <->
            in_shape (sx - 2 * o0, sy - 2 * o1, sz - 2 * o2)%nat (x, y, z) = true /\
            (cell edges (x + o0) (y + o1) (z + o2) =? 0) = false).
  { intros x y z. unfold nze. rewrite elem_of_np_nonzero.
    unfold getslice, slice3, map_array. cbn [shape].
    rewrite Hes. rewrite !slice_axis_crop by lia.
    cbn [view_start view_shape shape at3 cell].
    rewrite (Nat.add_comm o0 x), (Nat.add_comm o1 y), (Nat.add_comm o2 z).
    rewrite negb_true_iff. reflexivity. }
  set (window := fun q : idx3 =>
         mk_ndarray (2 * o0 + 1, 2 * o1 + 1, 2 * o2 + 1)%nat
           (fun i j k => cell arr (q.1.1 + i) (q.1.2 + j) (q.2 + k))).
  set (centre := fun q : idx3 => cell arr (q.1.1 + o0) (q.1.2 + o1) (q.2 + o2)).
  set (key := fun q : idx3 =>
         match kernel (window q) (centre q) with
         | Ok k => astype_uint64 k
         | Raise _ => 0
         end).
  destruct (process_block_nonzero_loop_keys arr
              (2 * Z.of_nat o0 + 1, 2 * Z.of_nat o1 + 1, 2 * Z.of_nat o2 + 1)
              (Z.of_nat o0, Z.of_nat o1, Z.of_nat o2) key nze out0)
    as (out & Hfold & Hshape & Hcell).
  { intros [[x y] z] out' Hq Hs'. apply Hnze in Hq as [Hin _].
    pose proof Hin as Hin'. apply in_shape_iff in Hin'. cbn [fst snd] in Hin'.
    unfold process_block_nonzero_at. cbn [z3_of_idx z3_add].
    rewrite <- !Nat2Z.inj_add.
    change (Z.of_nat (x + o0), Z.of_nat (y + o1), Z.of_nat (z + o2))
      with (z3_of_idx (x + o0, y + o1, z + o2)%nat).
    rewrite getitem_in.
    2:{ rewrite Has. apply in_shape_iff. cbn [fst snd]. lia. }
    cbn [mbind result_bind].
    replace (2 * Z.of_nat o0 + 1) with (Z.of_nat (2 * o0 + 1)) by lia.
    replace (2 * Z.of_nat o1 + 1) with (Z.of_nat (2 * o1 + 1)) by lia.
    replace (2 * Z.of_nat o2 + 1) with (Z.of_nat (2 * o2 + 1)) by lia.
    rewrite getslice_window; [| |lia|lia|lia].
    2:{ rewrite Has. apply in_shape_iff. cbn [fst snd]. lia. }
    unfold key, window, centre. cbn [fst snd].
    change (at3 arr (x + o0, y + o1, z + o2)%nat)
      with (cell arr (x + o0) (y + o1) (z + o2)).
    destruct (kernel_total
                (mk_ndarray (2 * o0 + 1, 2 * o1 + 1, 2 * o2 + 1)%nat
                   (fun i j k => cell arr (x + i) (y + j) (z + k)))
                (cell arr (x + o0) (y + o1) (z + o2))) as [k Hk].
    { apply ravel_nonempty. cbn [shape]. apply in_shape_iff. cbn [fst snd]. lia. }
    rewrite Hk. cbn [mbind result_bind].
    change (Z.of_nat x, Z.of_nat y, Z.of_nat z) with (z3_of_idx (x, y, z)).
    rewrite setitem_in by (rewrite Hs'; exact Hin). reflexivity. }
  exists out. split; [exact Hfold|]. split; [exact Hshape|].
  intros x y z Hin. rewrite Hshape in Hin.
  change (cell out x y z) with (at3 out (x, y, z)). rewrite Hcell.
  destruct (cell edges (x + o0) (y + o1) (z + o2) =? 0) eqn:He.
  - rewrite bool_decide_eq_false_2; [reflexivity|].
    intros Hq. apply Hnze in Hq as [_ Hq]. congruence.
  - rewrite bool_decide_eq_true_2 by (apply Hnze; auto).
    unfold key, window, centre. cbn [fst snd].
    destruct (kernel_total
                (mk_ndarray (2 * o0 + 1, 2 * o1 + 1, 2 * o2 + 1)%nat
                   (fun i j k => cell arr (x + i) (y + j) (z + k)))
                (cell arr (x + o0) (y + o1) (z + o2))) as [k Hk].
    { apply ravel_nonempty. cbn [shape]. apply in_shape_iff. cbn [fst snd]. lia. }
    exists k. rewrite Hk. auto.
Qed.

(** X2. [kernel] on a window of [uint32] labels that is not empty answers 0
    when the window holds only background and the centre's own label.
    Otherwise its partner is a label of the window other than 0 and the
    centre's, no other such label occurs more often, and among the most
    frequent ones it is the smallest; the key, stored as [uint64], is the
    smaller of the two ids shifted left by 32 bits plus the larger one, so
    the upper and the lower half of the key give the pair back. *)
Theorem kernel_names_most_frequent_label (chunk : ndarray Z) (center_id : Z) :
  ravel chunk <> [] ->
  Forall (fun v => 0 <= v < 2 ^ 32) (ravel chunk) ->
  0 <= center_id < 2 ^ 32 ->
  exists key,
    kernel chunk center_id = Ok key /\
    ((key = 0 /\ forall v, v ∈ ravel chunk -> v = 0 \/ v = center_id) \/
     exists partner_id,
       partner_id ∈ ravel chunk /\ partner_id <> 0 /\ partner_id <> center_id /\
       (forall v, v ∈ ravel chunk -> v <> 0 -> v <> center_id ->
          occurrences v (ravel chunk) < occurrences partner_id (ravel chunk) \/
          (occurrences v (ravel chunk) = occurrences partner_id (ravel chunk) /\
           partner_id <= v)) /\
       astype_uint64 key =
         Z.shiftl (Z.min center_id partner_id) 32 + Z.max center_id partner_id /\
       Z.shiftr (astype_uint64 key) 32 = Z.min center_id partner_id /\
       Z.land (astype_uint64 key) (2 ^ 32 - 1) = Z.max center_id partner_id).
Proof.
  intros Hne Hrange Hc.
  destruct (kernel_partner chunk center_id Hne)
    as [[Hk Hall]|(p & Hin & Hp0 & Hpc & Hmost & Hk)].
  - exists 0. split; [exact Hk|]. left. auto.
  - eexists. split; [exact Hk|]. right. exists p.
    split; [exact Hin|]. split; [exact Hp0|]. split; [exact Hpc|].
    split; [exact Hmost|].
    rewrite Forall_forall in Hrange. specialize (Hrange p Hin).
    destruct (Z.ltb_spec p center_id).
    + replace (Z.min center_id p) with p by lia.
      replace (Z.max center_id p) with center_id by lia.
      destruct (packed_key p center_id Hrange Hc) as (-> & H1 & H2). auto.
    + replace (Z.min center_id p) with center_id by lia.
      replace (Z.max center_id p) with p by lia.
      destruct (packed_key center_id p Hc Hrange) as (-> & H1 & H2). auto.
Qed.

Lemma kernel_names_most_frequent_label_witness :
  exists key,
    kernel centre_and_y_neighbour 2 = Ok key /\
    ((key = 0 /\
      forall v, v ∈ ravel centre_and_y_neighbour -> v = 0 \/ v = 2) \/
     exists partner_id,
       partner_id ∈ ravel centre_and_y_neighbour /\
       partner_id <> 0 /\ partner_id <> 2 /\
       (forall v, v ∈ ravel centre_and_y_neighbour -> v <> 0 -> v <> 2 ->
          occurrences v (ravel centre_and_y_neighbour)
            < occurrences partner_id (ravel centre_and_y_neighbour) \/
          (occurrences v (ravel centre_and_y_neighbour)
             = occurrences partner_id (ravel centre_and_y_neighbour) /\
           partner_id <= v)) /\
       astype_uint64 key = Z.shiftl (Z.min 2 partner_id) 32 + Z.max 2 partner_id /\
       Z.shiftr (astype_uint64 key) 32 = Z.min 2 partner_id /\
       Z.land (astype_uint64 key) (2 ^ 32 - 1) = Z.max 2 partner_id).
Proof.
  apply kernel_names_most_frequent_label.
  - apply ravel_nonempty. reflexivity.
  - unfold ravel.
    cbv [flat_map seq map app at3 cell centre_and_y_neighbour store idx3_eqb
         Nat.eqb andb shape ndindex].
    repeat (constructor; [lia|]). constructor.
  - lia.
Defined.

(** X3. [kernel] fails on a window without cells, with the [ValueError] of
    [np.max] on an empty array, and on no other window. *)
Theorem kernel_fails_on_empty_window_only (chunk : ndarray Z) (center_id : Z) :
  (ravel chunk = [] /\ kernel chunk center_id = Raise ValueError) \/
  (ravel chunk <> [] /\ exists key, kernel chunk center_id = Ok key).
Proof.
  destruct (ravel chunk) as [|v l] eqn:E.
  - left. split; [reflexivity|]. unfold kernel. rewrite E. reflexivity.
  - right. split; [discriminate|]. apply kernel_total. rewrite E. discriminate.
Qed.

(** X4. [process_block_nonzero] with an odd stencil [2 * o + 1], [o] at
    least 1 along every axis, on an edge volume and a label volume of one
    shape that is at least [2 * o] wide: the call succeeds, its result is
    the volume cropped by [o] on every face, a cell whose voxel is not
    flagged holds 0, and a cell whose voxel is flagged holds, as [uint64],
    what [kernel] answers on the window of that voxel. *)
Theorem process_block_nonzero_cells (edges arr : ndarray Z) (o0 o1 o2 : nat) :
  shape edges = shape arr ->
  (0 < o0 /\ 0 < o1 /\ 0 < o2)%nat ->
  (2 * o0 <= (shape arr).1.1 /\ 2 * o1 <= (shape arr).1.2 /\
   2 * o2 <= (shape arr).2)%nat ->
  exists out,
    process_block_nonzero edges arr
      (2 * Z.of_nat o0 + 1, 2 * Z.of_nat o1 + 1, 2 * Z.of_nat o2 + 1) = Ok out /\
    shape out = ((shape arr).1.1 - 2 * o0, (shape arr).1.2 - 2 * o1,
                 (shape arr).2 - 2 * o2)%nat /\
    forall x y z, in_shape (shape out) (x, y, z) = true ->
      if cell edges (x + o0) (y + o1) (z + o2) =? 0
      then cell out x y z = 0
      else exists key,
        kernel (mk_ndarray (2 * o0 + 1, 2 * o1 + 1, 2 * o2 + 1)%nat
                  (fun i j k => cell arr (x + i) (y + j) (z + k)))
               (cell arr (x + o0) (y + o1) (z + o2)) = Ok key /\
        cell out x y z = astype_uint64 key.
Proof.
  intros Hes Hpos Hfit.
  destruct (process_block_nonzero_spec edges arr o0 o1 o2 Hes Hpos Hfit)
    as (out & Hout & Hshape & Hcell).
  exists out. split; [exact Hout|]. split; [exact Hshape|]. exact Hcell.
Qed.

Lemma process_block_nonzero_cells_witness :
  exists out,
    process_block_nonzero centre_flag centre_and_y_neighbour (3, 3, 3) = Ok out /\
    shape out = (1, 1, 1)%nat /\
    cell out 0 0 0 = Z.shiftl 1 32 + 2.
Proof.
  destruct (process_block_nonzero_cells centre_flag centre_and_y_neighbour 1 1 1)
    as (out & Hout & Hshape & Hcell).
  - reflexivity.
  - lia.
  - cbn [shape centre_and_y_neighbour store fst snd]. lia.
  - exists out. split; [exact Hout|]. split; [exact Hshape|].
    specialize (Hcell 0%nat 0%nat 0%nat). rewrite Hshape in Hcell.
    specialize (Hcell eq_refl).
    change (cell centre_flag (0 + 1) (0 + 1) (0 + 1) =? 0) with false in Hcell.
    destruct Hcell as (key & Hkey & ->).
    vm_compute in Hkey. injection Hkey as <-. reflexivity.
Defined.

(** The edge detector at one voxel: the six face neighbours, a voxel at a
    face of the volume standing in for the neighbour it lacks, are summed
    and compared with six times the voxel's own label. *)
Lemma detect_edges_cell (arr : ndarray Z) (x y z : nat) :
  in_shape (shape arr) (x, y, z) = true ->
  cell (detect_edges arr) x y z =
    let next (len i : nat) := if (S i <? len)%nat then S i else i in
    let '(sx, sy, sz) := shape arr in
    if cell arr (next sx x) y z + cell arr x (next sy y) z
       + cell arr x y (next sz z) + cell arr x y (Nat.pred z)
       + cell arr x (Nat.pred y) z + cell arr (Nat.pred x) y z
       <? 6 * cell arr x y z
    then 1 else 0.
Proof.
  intros Hin. apply in_shape_iff in Hin.
  unfold detect_edges, map_array. cbn [cell].
  rewrite convolve3_jac. destruct (shape arr) as [[sx sy] sz].
  cbn [fst snd] in Hin. destruct Hin as (Hx & Hy & Hz). cbv beta iota zeta.
  rewrite !reflect_same, !reflect_next, !reflect_previous by assumption.
  match goal with
  | |- context [if ?a <? 0 then _ else _] =>
      match goal with
      | |- context [if ?b <? 6 * ?c then _ else _] =>
          replace (a <? 0) with (b <? 6 * c)
      end
  end.
  - destruct (_ <? _); reflexivity.
  - match goal with
    | |- (?b <? ?c) = (?a <? 0) =>
        destruct (Z.ltb_spec b c), (Z.ltb_spec a 0); try reflexivity; lia
    end.
Qed.

(** X6. The edge detector flags a voxel only when one of its face
    neighbours inside the volume carries a smaller label: a voxel whose
    label is the smallest among its neighbours, background in a volume of
    unsigned labels for one, is never flagged. *)
Theorem detect_edges_needs_smaller_neighbour (arr : ndarray Z) (p : idx3) :
  in_shape (shape arr) p = true ->
  (forall q, in_shape (shape arr) q = true -> face_neighbour p q ->
             at3 arr p <= at3 arr q) ->
  at3 (detect_edges arr) p = 0.
Proof.
  intros Hin Hmin. destruct p as [[x y] z]. unfold at3.
  rewrite (detect_edges_cell arr x y z Hin).
  apply in_shape_iff in Hin. destruct (shape arr) as [[sx sy] sz] eqn:Has.
  cbn [fst snd] in Hin. destruct Hin as (Hx & Hy & Hz). cbv beta zeta.
  assert (Hq : forall x' y' z',
            (x' < sx)%nat -> (y' < sy)%nat -> (z' < sz)%nat ->
            (x', y', z') = (x, y, z) \/ face_neighbour (x, y, z) (x', y', z') ->
            cell arr x y z <= cell arr x' y' z').
  { intros x' y' z' Hx' Hy' Hz' [Heq|Hnb].
    - injection Heq as -> -> ->. lia.
    - apply (Hmin (x', y', z')); [|exact Hnb].
      apply in_shape_iff. cbn [fst snd]. lia. }
  assert (H1 : cell arr x y z <= cell arr (if (S x <? sx)%nat then S x else x) y z).
  { destruct (Nat.ltb_spec (S x) sx); apply Hq; try lia; [right|left; reflexivity].
    unfold face_neighbour. tauto. }
  assert (H2 : cell arr x y z <= cell arr x (if (S y <? sy)%nat then S y else y) z).
  { destruct (Nat.ltb_spec (S y) sy); apply Hq; try lia; [right|left; reflexivity].
    unfold face_neighbour. tauto. }
  assert (H3 : cell arr x y z <= cell arr x y (if (S z <? sz)%nat then S z else z)).
  { destruct (Nat.ltb_spec (S z) sz); apply Hq; try lia; [right|left; reflexivity].
    unfold face_neighbour. tauto. }
  assert (H4 : cell arr x y z <= cell arr (Nat.pred x) y z).
  { destruct x as [|x']; apply Hq; try lia; [left; reflexivity|right].
    unfold face_neighbour. simpl. tauto. }
  assert (H5 : cell arr x y z <= cell arr x (Nat.pred y) z).
  { destruct y as [|y']; apply Hq; try lia; [left; reflexivity|right].
    unfold face_neighbour. simpl. tauto. }
  assert (H6 : cell arr x y z <= cell arr x y (Nat.pred z)).
  { destruct z as [|z']; apply Hq; try lia; [left; reflexivity|right].
    unfold face_neighbour. simpl. tauto. }
  match goal with |- context [?a <? ?b] => destruct (Z.ltb_spec a b) end;
    [lia|reflexivity].
Qed.

Lemma detect_edges_needs_smaller_neighbour_witness :
  at3 (detect_edges (two_blocks (14, 13, 7)%nat Axis0 7)) (6, 0, 0)%nat = 0.
Proof.
  apply detect_edges_needs_smaller_neighbour.
  - reflexivity.
  - intros [[x y] z] _ _. unfold at3, two_blocks. cbn [cell along fst snd].
    destruct (x <? 7)%nat; simpl; lia.
Defined.

Lemma shape_detect_edges (arr : ndarray Z) : shape (detect_edges arr) = shape arr.
Proof.
  unfold detect_edges, map_array, convolve3. cbn [shape].
  destruct (shape arr) as [[sx sy] sz] eqn:E. reflexivity.
Qed.

(** [detect_cs] on a volume of [uint32] labels: the shape of its result
    and what its cells hold. *)
Lemma detect_cs_cells (arr : ndarray Z) :
  (forall x y z, in_shape (shape arr) (x, y, z) = true ->
                 0 <= cell arr x y z < 2 ^ 32) ->
  (12 <= (shape arr).1.1 /\ 12 <= (shape arr).1.2 /\ 6 <= (shape arr).2)%nat ->
  exists out,
    detect_cs arr = Ok out /\
    shape out = ((shape arr).1.1 - 12, (shape arr).1.2 - 12,
                 (shape arr).2 - 6)%nat /\
    forall x y z, in_shape (shape out) (x, y, z) = true ->
      cell out x y z = 0 \/
      exists i j k,
        (i < 13 /\ j < 13 /\ k < 7)%nat /\
        cell (detect_edges arr) (x + 6) (y + 6) (z + 3) = 1 /\
        let own := cell arr (x + 6) (y + 6) (z + 3) in
        let partner := cell arr (x + i) (y + j) (z + k) in
        own <> 0 /\ partner <> 0 /\ partner <> own /\
        cell out x y z = Z.shiftl (Z.min own partner) 32 + Z.max own partner.
Proof.
  intros Hrange Hsize. unfold detect_cs.
  change (13, 13, 7) with
    (2 * Z.of_nat 6 + 1, 2 * Z.of_nat 6 + 1, 2 * Z.of_nat 3 + 1).
  destruct (process_block_nonzero_spec (detect_edges arr)
              (map_array astype_uint32 arr) 6 6 3)
    as (out & Hout & Hshape & Hcell).
  { rewrite shape_detect_edges. reflexivity. }
  { lia. }
  { cbn [map_array shape]. lia. }
  cbn [map_array shape] in Hshape.
  exists out. split; [exact Hout|]. split; [exact Hshape|].
  intros x y z Hin. specialize (Hcell x y z Hin).
  rewrite Hshape in Hin. apply in_shape_iff in Hin.
  destruct (shape arr) as [[sx sy] sz] eqn:Has. cbn [fst snd] in Hin, Hsize.
  assert (Hlabel : forall i j k, (i < 13)%nat -> (j < 13)%nat -> (k < 7)%nat ->
            0 <= cell arr (x + i) (y + j) (z + k) < 2 ^ 32 /\
            astype_uint32 (cell arr (x + i) (y + j) (z + k))
              = cell arr (x + i) (y + j) (z + k)).
  { intros i j k Hi Hj Hk.
    assert (H : 0 <= cell arr (x + i) (y + j) (z + k) < 2 ^ 32).
    { apply Hrange. apply in_shape_iff. cbn [fst snd]. lia. }
    split; [exact H|]. unfold astype_uint32. apply Z.mod_small. exact H. }
  destruct (cell (detect_edges arr) (x + 6) (y + 6) (z + 3) =? 0) eqn:Hflag;
    [left; exact Hcell|].
  destruct Hcell as (key & Hkey & Hcell).
  cbn [map_array cell] in Hkey.
  destruct (Hlabel 6 6 3)%nat as [Hown Hown']; [lia|lia|lia|].
  rewrite Hown' in Hkey.
  set (window := mk_ndarray _ _) in Hkey.
  destruct (kernel_partner window (cell arr (x + 6) (y + 6) (z + 3)))
    as [[Hk _]|(p & Hp & Hp0 & Hpc & _ & Hk)].
  { apply ravel_nonempty. reflexivity. }
  { left. rewrite Hk in Hkey. injection Hkey as <-. rewrite Hcell. reflexivity. }
  right. apply elem_of_ravel in Hp as ([[i j] k] & Hijk & Hp).
  apply in_shape_iff in Hijk. cbn [window shape fst snd] in Hijk.
  unfold window, at3 in Hp. cbn [cell] in Hp.
  destruct (Hlabel i j k) as [Hpr Hpr']; [lia|lia|lia|].
  rewrite Hpr' in Hp. subst p.
  exists i, j, k. split; [lia|]. cbv zeta.
  assert (Hedge : cell (detect_edges arr) (x + 6) (y + 6) (z + 3) = 1 /\
                  cell arr (x + 6) (y + 6) (z + 3) <> 0).
  { apply Z.eqb_neq in Hflag. revert Hflag.
    rewrite detect_edges_cell by (rewrite Has; apply in_shape_iff; cbn [fst snd]; lia).
    rewrite Has. cbv beta zeta.
    match goal with |- context [?a <? ?b] => destruct (Z.ltb_spec a b) as [Hlt|Hge] end;
      [|congruence].
    intros _. split; [reflexivity|].
    assert (Hnn : forall x' y' z', (x' < sx)%nat -> (y' < sy)%nat -> (z' < sz)%nat ->
              0 <= cell arr x' y' z').
    { intros x' y' z' ? ? ?. apply Hrange. apply in_shape_iff. cbn [fst snd]. lia. }
    pose proof (Hnn (if (S (x + 6) <? sx)%nat then S (x + 6) else (x + 6)%nat)
                    (y + 6)%nat (z + 3)%nat
                    ltac:(destruct (Nat.ltb_spec (S (x + 6)) sx); lia)
                    ltac:(lia) ltac:(lia)).
    pose proof (Hnn (x + 6)%nat
                    (if (S (y + 6) <? sy)%nat then S (y + 6) else (y + 6)%nat)
                    (z + 3)%nat ltac:(lia)
                    ltac:(destruct (Nat.ltb_spec (S (y + 6)) sy); lia) ltac:(lia)).
    pose proof (Hnn (x + 6)%nat (y + 6)%nat
                    (if (S (z + 3) <? sz)%nat then S (z + 3) else (z + 3)%nat)
                    ltac:(lia) ltac:(lia)
                    ltac:(destruct (Nat.ltb_spec (S (z + 3)) sz); lia)).
    pose proof (Hnn (x + 6)%nat (y + 6)%nat (Nat.pred (z + 3))
                    ltac:(lia) ltac:(lia) ltac:(lia)).
    pose proof (Hnn (x + 6)%nat (Nat.pred (y + 6)) (z + 3)%nat
                    ltac:(lia) ltac:(lia) ltac:(lia)).
    pose proof (Hnn (Nat.pred (x + 6)) (y + 6)%nat (z + 3)%nat
                    ltac:(lia) ltac:(lia) ltac:(lia)).
    lia. }
  destruct Hedge as [Hedge Hown0].
  split; [exact Hedge|]. split; [exact Hown0|]. split; [exact Hp0|].
  split; [exact Hpc|].
  rewrite Hcell. rewrite Hk in Hkey. injection Hkey as <-.
  set (own := cell arr (x + 6) (y + 6) (z + 3)) in *.
  set (partner := cell arr (x + i) (y + j) (z + k)) in *.
  destruct (Z.ltb_spec partner own).
  - replace (Z.min own partner) with partner by lia.
    replace (Z.max own partner) with own by lia.
    apply (packed_key partner own Hpr Hown).
  - replace (Z.min own partner) with own by lia.
    replace (Z.max own partner) with partner by lia.
    apply (packed_key own partner Hown Hpr).
Qed.

(** X5. [detect_cs] on a volume of [uint32] labels that is at least
    12 x 12 x 6 wide succeeds; its result is the volume cropped by
    (6, 6, 3) on every face.  Each cell of the result is 0 or a key for a
    voxel the edge detector flagged: the voxel's own label and another
    label of its 13 x 13 x 7 window, neither of them background, the
    smaller in the upper and the larger in the lower 32 bits. *)
Theorem detect_cs_keys (arr : ndarray Z) :
  (forall x y z, in_shape (shape arr) (x, y, z) = true ->
                 0 <= cell arr x y z < 2 ^ 32) ->
  (12 <= (shape arr).1.1 /\ 12 <= (shape arr).1.2 /\ 6 <= (shape arr).2)%nat ->
  exists out,
    detect_cs arr = Ok out /\
    shape out = ((shape arr).1.1 - 12, (shape arr).1.2 - 12,
                 (shape arr).2 - 6)%nat /\
    forall x y z, in_shape (shape out) (x, y, z) = true ->
      cell out x y z = 0 \/
      exists i j k,
        (i < 13 /\ j < 13 /\ k < 7)%nat /\
        cell (detect_edges arr) (x + 6) (y + 6) (z + 3) = 1 /\
        let own := cell arr (x + 6) (y + 6) (z + 3) in
        let partner := cell arr (x + i) (y + j) (z + k) in
        own <> 0 /\ partner <> 0 /\ partner <> own /\
        cell out x y z = Z.shiftl (Z.min own partner) 32 + Z.max own partner.
Proof.
  intros Hrange Hsize.
  destruct (detect_cs_cells arr Hrange Hsize) as (out & Hout & Hshape & Hcell).
  exists out. split; [exact Hout|]. split; [exact Hshape|]. exact Hcell.
Qed.

Lemma detect_cs_keys_witness :
  exists out,
    detect_cs (two_blocks (14, 13, 7)%nat Axis0 7) = Ok out /\
    shape out = (2, 1, 1)%nat.
Proof.
  destruct (detect_cs_keys (two_blocks (14, 13, 7)%nat Axis0 7))
    as (out & Hout & Hshape & _).
  - intros x y z _. unfold two_blocks. cbn [cell].
    destruct (_ <? _)%nat; lia.
  - cbn [shape two_blocks fst snd]. lia.
  - exists out. split; [exact Hout|exact Hshape].
Defined.

(** ** More on the voxel store *)

Lemma load_voxels_only_reads_entry (fs fs' : storage) (so : SegmentationObject) :
  VoxelDict_open fs' (voxel_path so) !! so_id so =
    VoxelDict_open fs (voxel_path so) !! so_id so ->
  load_voxels fs' so None = load_voxels fs so None.
Proof.
  intros H. unfold load_voxels. cbn [set_size so_id]. rewrite H. reflexivity.
Qed.

Lemma save_voxels_other_entry (fs : storage) (so : SegmentationObject)
    (a : ndarray bool) (o : Z3) (overwrite : bool) (path : string) (oid : Z) :
  path <> voxel_path so \/ oid <> so_id so ->
  VoxelDict_open (save_voxels fs so a o overwrite) path !! oid =
    VoxelDict_open fs path !! oid.
Proof.
  intros Hother. unfold save_voxels, save2pkl. cbv zeta.
  set (dc := VoxelDict_open fs (voxel_path so)).
  destruct (decide (path = voxel_path so)) as [->|Hpath].
  - destruct Hother as [?|Hid]; [contradiction|].
    unfold VoxelDict_open at 1. rewrite lookup_insert_eq. simpl.
    destruct (_ && _).
    + unfold VoxelDict_append.
      destruct (dc !! so_id so) as [[arrs offs]|];
        rewrite lookup_insert_ne by congruence; reflexivity.
    + rewrite lookup_insert_ne by congruence. reflexivity.
  - unfold VoxelDict_open at 1. rewrite lookup_insert_ne by congruence.
    reflexivity.
Qed.

(** X7. Saving voxels for one object changes nothing for any other: an
    object with another id, or kept under another path, loads as it did
    before. *)
Theorem save_voxels_leaves_other_objects (fs : storage)
    (so other : SegmentationObject) (bin_arr : ndarray bool) (offset : Z3)
    (overwrite : bool) :
  voxel_path other <> voxel_path so \/ so_id other <> so_id so ->
  load_voxels (save_voxels fs so bin_arr offset overwrite) other None =
    load_voxels fs other None.
Proof.
  intros H. apply load_voxels_only_reads_entry.
  apply save_voxels_other_entry. exact H.
Qed.

Lemma save_voxels_leaves_other_objects_witness :
  load_voxels (save_voxels overlapping_store
                 (mk_so 6 "sv" "voxel.pkl" ∅ 0 None)
                 (full_block (1, 1, 1)%nat) (9, 9, 9) true)
              so_one None =
    load_voxels overlapping_store so_one None.
Proof.
  apply save_voxels_leaves_other_objects. right. discriminate.
Defined.

(** X8. [load_voxels] answers with the sentinel -1 exactly when the id is
    not in the voxel dictionary; it then sets the cached size to 0 and
    leaves the object as it was otherwise. *)
Theorem load_voxels_sentinel_iff_absent (fs : storage) (so : SegmentationObject)
    (voxel_dc : option VoxelDict) :
  let dc := default (VoxelDict_open fs (voxel_path so)) voxel_dc in
  (dc !! so_id so = None /\
   load_voxels fs so voxel_dc = (set_size so 0, Ok MinusOne)) \/
  (is_Some (dc !! so_id so) /\
   snd (load_voxels fs so voxel_dc) <> Ok MinusOne).
Proof.
  cbv zeta. unfold load_voxels. cbn [set_size so_id].
  replace (match voxel_dc with
           | Some dc => dc
           | None => VoxelDict_open fs (voxel_path so)
           end)
    with (default (VoxelDict_open fs (voxel_path so)) voxel_dc)
    by (destruct voxel_dc; reflexivity).
  destruct (default _ voxel_dc !! so_id so) as [[arrs offs]|] eqn:E.
  - right. split; [eauto|].
    repeat case_match; cbn [snd]; discriminate.
  - left. auto.
Qed.

(** Every entry of a store built by [save_voxels] holds at least one block
    and as many offsets as blocks. *)
Lemma saved_store_entries (fs : storage) :
  saved_store fs ->
  forall path oid arrs offs,
    VoxelDict_open fs path !! oid = Some (arrs, offs) ->
    length offs = length arrs /\ arrs <> [].
Proof.
  induction 1 as [|fs so a o overwrite Hfs IH]; intros path oid arrs offs Hentry.
  - unfold VoxelDict_open in Hentry. rewrite lookup_empty in Hentry.
    cbn [default] in Hentry. rewrite lookup_empty in Hentry. discriminate.
  - destruct (decide (path = voxel_path so /\ oid = so_id so)) as [[-> ->]|Hne].
    + rewrite save_voxels_entry in Hentry.
      destruct (VoxelDict_open fs (voxel_path so) !! so_id so)
        as [[arrs0 offs0]|] eqn:E.
      * destruct overwrite.
        -- injection Hentry as <- <-. split; [reflexivity|discriminate].
        -- injection Hentry as <- <-.
           destruct (IH _ _ _ _ E) as [Hlen _].
           split; [rewrite !length_app, Hlen; reflexivity|].
           intros Hnil. apply app_eq_nil in Hnil as [_ ?]. discriminate.
      * injection Hentry as <- <-. split; [reflexivity|discriminate].
    + rewrite save_voxels_other_entry in Hentry.
      * apply (IH _ _ _ _ Hentry).
      * destruct (decide (path = voxel_path so)); [right|left]; [|assumption].
        intros ->. apply Hne. auto.
Qed.

(** X9. On a store that calls of [save_voxels] built from an empty one,
    [load_voxels] never raises: it answers with the sentinel for an id
    without voxels and with a volume for every other object, whatever was
    saved and in whatever order. *)
Theorem load_voxels_total_on_saved_stores (fs : storage)
    (so : SegmentationObject) :
  saved_store fs ->
  snd (load_voxels fs so None) = Ok MinusOne \/
  exists voxels, snd (load_voxels fs so None) = Ok (Voxels voxels).
Proof.
  intros Hfs.
  destruct (VoxelDict_open fs (voxel_path so) !! so_id so) as [[arrs offs]|] eqn:E.
  - right. destruct (saved_store_entries fs Hfs _ _ _ _ E) as [Hlen Hne].
    destruct (load_voxels_entry fs so arrs offs E Hlen Hne)
      as (V & bb0 & bb1 & Hload & _).
    exists V. rewrite Hload. reflexivity.
  - left. unfold load_voxels. cbn [set_size so_id]. rewrite E. reflexivity.
Qed.

Lemma load_voxels_total_on_saved_stores_witness :
  snd (load_voxels
         (save_voxels (save_voxels ∅ so_one (full_block (2, 1, 1)%nat) (0, 0, 0) false)
                      so_one (full_block (1, 2, 1)%nat) (4, 4, 4) false)
         so_one None) = Ok MinusOne \/
  exists voxels,
    snd (load_voxels
           (save_voxels (save_voxels ∅ so_one (full_block (2, 1, 1)%nat) (0, 0, 0) false)
                        so_one (full_block (1, 2, 1)%nat) (4, 4, 4) false)
           so_one None) = Ok (Voxels voxels).
Proof.
  apply load_voxels_total_on_saved_stores.
  apply saved_step. apply saved_step. apply saved_empty.
Defined.

(** X10. Saving with [overwrite=True] replaces whatever the store held
    for the object: loading it again gives the saved block alone, in a
    bounding box from the block's offset to its extent and with the
    block's number of [True] voxels as size. *)
Theorem save_voxels_overwrite_replaces (fs : storage) (so : SegmentationObject)
    (bin_arr : ndarray bool) (offset : Z3) :
  exists voxels,
    load_voxels (save_voxels fs so bin_arr offset true) so None =
      (mk_so (so_id so) (so_type so) (voxel_path so) (attr_dict so)
             (np_sum_bool bin_arr)
             (Some (offset, block_extent bin_arr offset)),
       Ok (Voxels voxels)) /\
    shape voxels = shape bin_arr /\
    forall x y z, in_shape (shape bin_arr) (x, y, z) = true ->
                  cell voxels x y z = cell bin_arr x y z.
Proof.
  assert (E : VoxelDict_open (save_voxels fs so bin_arr offset true)
                (voxel_path so) !! so_id so = Some ([bin_arr], [offset])).
  { rewrite save_voxels_entry. destruct (_ !! _) as [[? ?]|]; reflexivity. }
  destruct (load_voxels_entry _ so _ _ E eq_refl ltac:(discriminate))
    as (V & bb0 & bb1 & Hload & Hmin & Hmax & Hshape & Hcell).
  assert (Hbb0 : bb0 = offset).
  { destruct Hmin as (_ & (r1 & Hr1 & H1) & (r2 & Hr2 & H2) & (r3 & Hr3 & H3)).
    apply list_elem_of_singleton in Hr1, Hr2, Hr3. subst r1 r2 r3.
    destruct bb0 as [[? ?] ?], offset as [[? ?] ?]. cbn [fst snd] in *. congruence. }
  assert (Hbb1 : bb1 = block_extent bin_arr offset).
  { destruct Hmax as (_ & (r1 & Hr1 & H1) & (r2 & Hr2 & H2) & (r3 & Hr3 & H3)).
    cbn [zip_with] in Hr1, Hr2, Hr3.
    apply list_elem_of_singleton in Hr1, Hr2, Hr3. subst r1 r2 r3.
    destruct bb1 as [[? ?] ?], (block_extent bin_arr offset) as [[? ?] ?].
    cbn [fst snd] in *. congruence. }
  subst bb0 bb1. exists V. split.
  - rewrite Hload. cbn [map foldr]. rewrite Z.add_0_r. reflexivity.
  - assert (Hs : shape V = shape bin_arr).
    { unfold block_extent in Hshape.
      destruct (shape V) as [[vx vy] vz], (shape bin_arr) as [[ax ay] az],
        offset as [[o0 o1] o2].
      cbn [z3_of_idx z3_add z3_sub] in Hshape.
      injection Hshape as H1 H2 H3. f_equal; [f_equal|]; lia. }
    split; [exact Hs|].
    intros x y z Hin. rewrite Hcell. cbn [zip zip_with existsb fst snd].
    rewrite orb_false_r. unfold block_voxel.
    destruct offset as [[o0 o1] o2]. cbn [z3_of_idx z3_add z3_sub].
    replace (Z.of_nat x + o0 - o0) with (Z.of_nat x) by lia.
    replace (Z.of_nat y + o1 - o1) with (Z.of_nat y) by lia.
    replace (Z.of_nat z + o2 - o2) with (Z.of_nat z) by lia.
    rewrite !Nat2Z.id, Hin.
    destruct (Z.leb_spec 0 (Z.of_nat x)); [|lia].
    destruct (Z.leb_spec 0 (Z.of_nat y)); [|lia].
    destruct (Z.leb_spec 0 (Z.of_nat z)); [|lia].
    reflexivity.
Qed.

(** ** Voxel lists *)

Lemma wrap_int32_small (v : Z) : - 2 ^ 31 <= v < 2 ^ 31 -> wrap_int32 v = v.
Proof. intros H. unfold wrap_int32. rewrite Z.mod_small by lia. lia. Qed.

Lemma nonzero_rows_small (a : ndarray bool) :
  small_shape (shape a) ->
  nonzero_rows a = map z3_of_idx (np_nonzero a).
Proof.
  intros Hs. unfold nonzero_rows. apply map_ext_in. intros [[x y] z] Hin.
  apply list_elem_of_In, elem_of_np_nonzero in Hin as [Hin _].
  apply in_shape_iff in Hin. unfold small_shape in Hs.
  destruct (shape a) as [[sx sy] sz]. cbn [z3_of_idx z3_le fst snd] in *.
  cbn [z3_map]. rewrite !wrap_int32_small by lia. reflexivity.
Qed.

Lemma nonzero_rows_nil (a : ndarray bool) :
  nonzero_rows a = [] <-> np_nonzero a = [].
Proof.
  unfold nonzero_rows. split; intros H.
  - apply map_eq_nil in H. exact H.
  - rewrite H. reflexivity.
Qed.

Lemma broadcast_rows_ok (f : Z3 -> Z3) (rows : list Z3) :
  rows <> [] -> broadcast_rows f rows = Ok (map f rows).
Proof. destruct rows; [congruence|reflexivity]. Qed.

(** The block branch on blocks that each hold a voxel and fit [int32]. *)
Lemma load_voxel_list_blocks_ok (bin_arrs : list (ndarray bool)) :
  forall (offs done : list Z3) (acc : list Z3),
    length offs = length bin_arrs ->
    Forall (fun a => np_nonzero a <> []) bin_arrs ->
    Forall (fun b => fits_int32 b.1 b.2) (zip bin_arrs offs) ->
    load_voxel_list_blocks bin_arrs (done ++ offs) (length done) acc =
      Ok (acc ++ concat (zip_with voxel_list_of bin_arrs offs)).
Proof.
  induction bin_arrs as [|a arrs IH]; intros offs done acc Hlen Hne Hfit.
  - simpl. rewrite app_nil_r. reflexivity.
  - destruct offs as [|o offs]; [discriminate|]. simpl in Hlen.
    apply Forall_cons in Hne as [Ha Hne]. cbn [zip zip_with] in Hfit.
    apply Forall_cons in Hfit as [Hao Hfit]. cbn [fst snd] in Hao.
    cbn [load_voxel_list_blocks]. rewrite py_index_app_r.
    cbn [mbind result_bind].
    rewrite broadcast_rows_ok by (rewrite nonzero_rows_nil; exact Ha).
    cbn [mbind result_bind].
    assert (Hrows : map (fun r => z3_map wrap_int32 (z3_add r o)) (nonzero_rows a)
                    = voxel_list_of a o).
    { unfold nonzero_rows, voxel_list_of. rewrite map_map.
      apply map_ext_in. intros [[x y] z] Hin.
      apply list_elem_of_In, elem_of_np_nonzero in Hin as [Hin _].
      apply in_shape_iff in Hin. destruct Hao as [Hlo Hhi].
      unfold block_extent in Hhi.
      destruct (shape a) as [[sx sy] sz], o as [[o0 o1] o2].
      cbn [z3_of_idx z3_le z3_add z3_map fst snd] in *.
      rewrite !(wrap_int32_small (Z.of_nat _)) by lia.
      rewrite !wrap_int32_small by lia. reflexivity. }
    rewrite Hrows.
    specialize (IH offs (done ++ [o]) (acc ++ voxel_list_of a o)
                   ltac:(lia) Hne Hfit).
    rewrite <- app_assoc, length_app in IH. simpl in IH.
    replace (length done + 1)%nat with (S (length done)) in IH by lia.
    rewrite IH. cbn [zip_with concat]. rewrite <- app_assoc. reflexivity.
Qed.

(** The block branch stops with a [ValueError] at the first block that
    holds no voxel. *)
Lemma load_voxel_list_blocks_empty_block (bin_arrs : list (ndarray bool)) :
  forall (offs done : list Z3) (acc : list Z3),
    length offs = length bin_arrs ->
    Exists (fun a => np_nonzero a = []) bin_arrs ->
    load_voxel_list_blocks bin_arrs (done ++ offs) (length done) acc =
      Raise ValueError.
Proof.
  induction bin_arrs as [|a arrs IH]; intros offs done acc Hlen Hex.
  - inversion Hex.
  - destruct offs as [|o offs]; [discriminate|]. simpl in Hlen.
    cbn [load_voxel_list_blocks]. rewrite py_index_app_r.
    cbn [mbind result_bind].
    destruct (np_nonzero a) as [|p ps] eqn:Ea.
    + unfold nonzero_rows. rewrite Ea. reflexivity.
    + apply Exists_cons in Hex as [Hex|Hex]; [congruence|].
      rewrite broadcast_rows_ok by (rewrite nonzero_rows_nil, Ea; discriminate).
      cbn [mbind result_bind].
      specialize (IH offs (done ++ [o])
                     (acc ++ map (fun r => z3_map wrap_int32 (z3_add r o))
                                 (nonzero_rows a))
                     ltac:(lia) Hex).
      rewrite <- app_assoc, length_app in IH. simpl in IH.
      replace (length done + 1)%nat with (S (length done)) in IH by lia.
      exact IH.
Qed.

(** X11. For an object whose stored blocks each hold a voxel and have
    coordinates that are not negative and fit [int32], the two branches of
    [load_voxel_list] list the same coordinates.  The branch that reads
    the cached volume lists every coordinate once.  The branch that reads
    the blocks lists them block after block, a coordinate once for every
    block that holds it, so the length of its list is the cached size. *)
Theorem load_voxel_list_branches_agree (fs : storage) (so : SegmentationObject)
    (bin_arrs : list (ndarray bool)) (block_offsets : list Z3) :
  VoxelDict_open fs (voxel_path so) !! so_id so = Some (bin_arrs, block_offsets) ->
  length block_offsets = length bin_arrs -> bin_arrs <> [] ->
  Forall (fun a => np_nonzero a <> []) bin_arrs ->
  Forall (fun b => fits_int32 b.1 b.2) (zip bin_arrs block_offsets) ->
  exists so' voxels bb from_volume from_blocks,
    load_voxels fs so None = (so', Ok (Voxels voxels)) /\
    _bounding_box so' = Some bb /\
    load_voxel_list fs so (Some voxels) bb = Ok from_volume /\
    load_voxel_list fs so None bb = Ok from_blocks /\
    (forall q, q ∈ from_volume <-> q ∈ from_blocks) /\
    NoDup from_volume /\
    from_blocks = concat (zip_with voxel_list_of bin_arrs block_offsets) /\
    Z.of_nat (length from_blocks) = _size so'.
Proof.
  intros Hentry Hlen Hne Hfull Hfit.
  destruct (load_voxels_entry fs so bin_arrs block_offsets Hentry Hlen Hne)
    as (V & bb0 & bb1 & Hload & Hmin & Hmax & Hshape & Hcell).
  pose proof (loaded_voxel_list V bb0 bb1 bin_arrs block_offsets
                (proj1 Hmin) (proj1 Hmax) Hshape Hcell) as Hlist.
  assert (Hsmall : small_shape (shape V)).
  { unfold small_shape. rewrite Hshape.
    destruct Hmin as (_ & (r1 & Hr1 & H1) & (r2 & Hr2 & H2) & (r3 & Hr3 & H3)).
    destruct Hmax as (_ & (e1 & He1 & G1) & (e2 & He2 & G2) & (e3 & He3 & G3)).
    assert (Hoff : forall r, r ∈ block_offsets -> z3_le (0, 0, 0) r).
    { intros r Hr. apply list_elem_of_lookup_1 in Hr as [i Hi].
      destruct (lookup_lt_is_Some_2 bin_arrs i) as [a Ha].
      { rewrite <- Hlen. eapply lookup_lt_Some. exact Hi. }
      rewrite Forall_forall in Hfit.
      destruct (Hfit (a, r)) as [Hlo _]; [|exact Hlo].
      apply list_elem_of_lookup. exists i. apply lookup_zip_with_Some.
      exists a, r. auto. }
    assert (Hext : forall e, e ∈ zip_with block_extent bin_arrs block_offsets ->
                             z3_le e (2 ^ 31, 2 ^ 31, 2 ^ 31)).
    { intros e He. rewrite zip_with_zip in He.
      apply list_elem_of_fmap in He as ([a o] & -> & Hin).
      rewrite Forall_forall in Hfit. destruct (Hfit _ Hin) as [_ Hhi]. exact Hhi. }
    pose proof (Hoff _ Hr1). pose proof (Hoff _ Hr2). pose proof (Hoff _ Hr3).
    pose proof (Hext _ He1). pose proof (Hext _ He2). pose proof (Hext _ He3).
    destruct bb0 as [[b0 b1] b2], bb1 as [[c0 c1] c2].
    destruct r1 as [[? ?] ?], r2 as [[? ?] ?], r3 as [[? ?] ?].
    destruct e1 as [[? ?] ?], e2 as [[? ?] ?], e3 as [[? ?] ?].
    cbn [z3_le z3_sub fst snd] in *. lia. }
  assert (Hsome : np_nonzero V <> []).
  { destruct bin_arrs as [|a arrs]; [contradiction|].
    destruct block_offsets as [|o offs]; [discriminate|].
    apply Forall_cons in Hfull as [Ha _].
    destruct (np_nonzero a) as [|p ps] eqn:Ea; [contradiction|].
    assert (Hq : z3_add (z3_of_idx p) o ∈ voxel_list_of V bb0).
    { apply Hlist. exists a, o. split; [apply elem_of_cons; auto|].
      unfold voxel_list_of. rewrite Ea. apply elem_of_cons. auto. }
    intros Hnil. unfold voxel_list_of in Hq. rewrite Hnil in Hq. inversion Hq. }
  eexists _, V, (bb0, bb1), (voxel_list_of V bb0),
    (concat (zip_with voxel_list_of bin_arrs block_offsets)).
  split; [exact Hload|]. split; [reflexivity|]. split.
  { unfold load_voxel_list. cbn [fst].
    rewrite broadcast_rows_ok by (rewrite nonzero_rows_nil; exact Hsome).
    rewrite nonzero_rows_small by exact Hsmall.
    unfold voxel_list_of. rewrite map_map. reflexivity. }
  split.
  { unfold load_voxel_list. rewrite Hentry.
    apply (load_voxel_list_blocks_ok bin_arrs block_offsets [] []); assumption. }
  split.
  { intros q. rewrite Hlist, elem_of_block_lists. reflexivity. }
  split; [apply NoDup_voxel_list_of|]. split; [reflexivity|].
  cbn [_size]. apply length_block_lists. exact Hlen.
Qed.

Lemma load_voxel_list_branches_agree_witness :
  exists so' voxels bb from_volume from_blocks,
    load_voxels overlapping_store so_one None = (so', Ok (Voxels voxels)) /\
    _bounding_box so' = Some bb /\
    load_voxel_list overlapping_store so_one (Some voxels) bb = Ok from_volume /\
    load_voxel_list overlapping_store so_one None bb = Ok from_blocks /\
    (forall q, q ∈ from_volume <-> q ∈ from_blocks) /\
    NoDup from_volume /\
    from_blocks = [(0, 0, 0); (1, 0, 0); (1, 0, 0); (2, 0, 0)].
Proof.
  destruct (load_voxel_list_branches_agree overlapping_store so_one
              [full_block (2, 1, 1)%nat; full_block (2, 1, 1)%nat]
              [(0, 0, 0); (1, 0, 0)])
    as (so' & voxels & bb & l1 & l2 & H1 & H2 & H3 & H4 & H5 & H6 & H7 & _).
  - reflexivity.
  - reflexivity.
  - discriminate.
  - repeat constructor; discriminate.
  - repeat constructor; cbn; lia.
  - exists so', voxels, bb, l1, l2. repeat (split; [assumption|]).
    rewrite H7. reflexivity.
Defined.

(** X12. An object one of whose stored blocks holds no voxel has no voxel
    list by the branch that reads the blocks: the addition of the offset
    to the empty array of that block raises a [ValueError]. *)
Theorem load_voxel_list_fails_on_empty_block (fs : storage)
    (so : SegmentationObject) (bin_arrs : list (ndarray bool))
    (block_offsets : list Z3) (bounding_box : Z3 * Z3) :
  VoxelDict_open fs (voxel_path so) !! so_id so = Some (bin_arrs, block_offsets) ->
  length block_offsets = length bin_arrs ->
  Exists (fun a => np_nonzero a = []) bin_arrs ->
  load_voxel_list fs so None bounding_box = Raise ValueError.
Proof.
  intros Hentry Hlen Hex. unfold load_voxel_list. rewrite Hentry.
  apply (load_voxel_list_blocks_empty_block bin_arrs block_offsets [] []);
    assumption.
Qed.

Lemma load_voxel_list_fails_on_empty_block_witness :
  load_voxel_list store_with_empty_block so_one None ((0, 0, 0), (4, 1, 1)) =
    Raise ValueError.
Proof.
  apply (load_voxel_list_fails_on_empty_block store_with_empty_block so_one
           [full_block (1, 1, 1)%nat; mk_ndarray (1, 1, 1)%nat (fun _ _ _ => false)]
           [(0, 0, 0); (3, 0, 0)]).
  - reflexivity.
  - reflexivity.
  - apply Exists_cons. right. apply Exists_cons. left. reflexivity.
Defined.

(** ** Downsampling *)

Lemma ceil_div_lt (len k i : nat) :
  (0 < k)%nat -> (i < (len + k - 1) / k)%nat <-> (i * k < len)%nat.
Proof.
  intros Hk. split; intros H.
  - destruct (Nat.lt_ge_cases (i * k) len) as [?|Hge]; [assumption|].
    exfalso. apply (Nat.lt_irrefl i). eapply Nat.lt_le_trans; [exact H|].
    apply Nat.lt_succ_r. apply Nat.Div0.div_lt_upper_bound. nia.
  - apply Nat.div_le_lower_bound; [lia|]. nia.
Qed.

Lemma stride_axis_pos (len : nat) (d : Z) :
  1 <= d ->
  stride_axis len d =
    Ok (((len + Z.to_nat d - 1) / Z.to_nat d)%nat,
        fun i => (i * Z.to_nat d)%nat).
Proof.
  intros Hd. unfold stride_axis.
  destruct (Z.eqb_spec d 0); [lia|].
  destruct (Z.ltb_spec 0 d); [|lia].
  rewrite Z.abs_eq by lia. reflexivity.
Qed.

Lemma getstrided_pos {A} (a : ndarray A) (d0 d1 d2 : Z) :
  1 <= d0 -> 1 <= d1 -> 1 <= d2 ->
  getstrided a (d0, d1, d2) =
    Ok (mk_ndarray
          (((shape a).1.1 + Z.to_nat d0 - 1) / Z.to_nat d0,
           ((shape a).1.2 + Z.to_nat d1 - 1) / Z.to_nat d1,
           ((shape a).2 + Z.to_nat d2 - 1) / Z.to_nat d2)%nat
          (fun x y z => cell a (x * Z.to_nat d0) (y * Z.to_nat d1)
                               (z * Z.to_nat d2))).
Proof.
  intros H0 H1 H2. unfold getstrided. destruct (shape a) as [[sx sy] sz].
  rewrite !stride_axis_pos by assumption. reflexivity.
Qed.

(** The cells of a strided view are cells of the volume. *)
Lemma strided_cells (v : ndarray bool) (d0 d1 d2 : Z) (x y z : nat) :
  1 <= d0 -> 1 <= d1 -> 1 <= d2 ->
  let a := mk_ndarray
             (((shape v).1.1 + Z.to_nat d0 - 1) / Z.to_nat d0,
              ((shape v).1.2 + Z.to_nat d1 - 1) / Z.to_nat d1,
              ((shape v).2 + Z.to_nat d2 - 1) / Z.to_nat d2)%nat
             (fun x y z => cell v (x * Z.to_nat d0) (y * Z.to_nat d1)
                                  (z * Z.to_nat d2)) in
  in_shape (shape a) (x, y, z) = true <->
  in_shape (shape v) (x * Z.to_nat d0, y * Z.to_nat d1, z * Z.to_nat d2)%nat = true.
Proof.
  intros H0 H1 H2. cbv zeta. cbn [shape]. rewrite !in_shape_iff. cbn [fst snd].
  rewrite !ceil_div_lt by lia. reflexivity.
Qed.

Lemma strided_small (v : ndarray bool) (d0 d1 d2 : Z) :
  1 <= d0 -> 1 <= d1 -> 1 <= d2 ->
  small_shape (shape v) ->
  small_shape (((shape v).1.1 + Z.to_nat d0 - 1) / Z.to_nat d0,
               ((shape v).1.2 + Z.to_nat d1 - 1) / Z.to_nat d1,
               ((shape v).2 + Z.to_nat d2 - 1) / Z.to_nat d2)%nat.
Proof.
  intros H0 H1 H2. unfold small_shape. destruct (shape v) as [[sx sy] sz].
  cbn [z3_of_idx z3_le fst snd]. intros (Hx & Hy & Hz).
  assert (H : forall len k : nat, (0 < k)%nat -> ((len + k - 1) / k <= len)%nat).
  { intros len k Hk. destruct len as [|len].
    - rewrite Nat.div_small by lia. lia.
    - apply Nat.lt_succ_r. apply Nat.Div0.div_lt_upper_bound. nia. }
  pose proof (H sx (Z.to_nat d0) ltac:(lia)).
  pose proof (H sy (Z.to_nat d1) ltac:(lia)).
  pose proof (H sz (Z.to_nat d2) ltac:(lia)). lia.
Qed.

(** The coordinates the downsampled list is made of. *)
Lemma downsampled_coordinates (v : ndarray bool) (bb0 : Z3) (d0 d1 d2 : Z)
    (q : Z3) :
  1 <= d0 -> 1 <= d1 -> 1 <= d2 ->
  let a := mk_ndarray
             (((shape v).1.1 + Z.to_nat d0 - 1) / Z.to_nat d0,
              ((shape v).1.2 + Z.to_nat d1 - 1) / Z.to_nat d1,
              ((shape v).2 + Z.to_nat d2 - 1) / Z.to_nat d2)%nat
             (fun x y z => cell v (x * Z.to_nat d0) (y * Z.to_nat d1)
                                  (z * Z.to_nat d2)) in
  q ∈ map (fun p => z3_add (z3_mul (z3_of_idx p) (d0, d1, d2)) bb0) (np_nonzero a)
  <-> q ∈ voxel_list_of v bb0 /\ on_grid (d0, d1, d2) bb0 q.
Proof.
  intros H0 H1 H2 a. change (map ?f ?l) with (f <$> l).
  rewrite list_elem_of_fmap, elem_of_voxel_list_of.
  destruct bb0 as [[b0 b1] b2], q as [[q0 q1] q2].
  unfold block_voxel, on_grid. cbn [z3_sub]. split.
  - intros ([[x y] z] & Hq & Hp). apply elem_of_np_nonzero in Hp as [Hin Hcell].
    apply (strided_cells v d0 d1 d2 x y z H0 H1 H2) in Hin.
    cbn [z3_of_idx z3_mul z3_add] in Hq. injection Hq as -> -> ->.
    unfold a, at3 in Hcell. cbn [cell] in Hcell.
    replace (Z.of_nat x * d0 + b0 - b0) with (Z.of_nat x * d0) by lia.
    replace (Z.of_nat y * d1 + b1 - b1) with (Z.of_nat y * d1) by lia.
    replace (Z.of_nat z * d2 + b2 - b2) with (Z.of_nat z * d2) by lia.
    replace (Z.to_nat (Z.of_nat x * d0)) with (x * Z.to_nat d0)%nat by nia.
    replace (Z.to_nat (Z.of_nat y * d1)) with (y * Z.to_nat d1)%nat by nia.
    replace (Z.to_nat (Z.of_nat z * d2)) with (z * Z.to_nat d2)%nat by nia.
    rewrite Hin, Hcell. split.
    + destruct (Z.leb_spec 0 (Z.of_nat x * d0)); [|nia].
      destruct (Z.leb_spec 0 (Z.of_nat y * d1)); [|nia].
      destruct (Z.leb_spec 0 (Z.of_nat z * d2)); [|nia]. reflexivity.
    + split; [|split]; apply Z.divide_factor_r.
  - intros [Hv (Hd0 & Hd1 & Hd2)]. rewrite !andb_true_iff in Hv.
    destruct Hv as [[[[Hx Hy] Hz] Hin] Hcell].
    apply Z.leb_le in Hx, Hy, Hz.
    destruct Hd0 as [c0 Hc0], Hd1 as [c1 Hc1], Hd2 as [c2 Hc2].
    exists (Z.to_nat c0, Z.to_nat c1, Z.to_nat c2).
    assert (0 <= c0) by nia. assert (0 <= c1) by nia. assert (0 <= c2) by nia.
    split.
    + cbn [z3_of_idx z3_mul z3_add]. rewrite !Z2Nat.id by lia.
      f_equal; [f_equal|]; lia.
    + apply elem_of_np_nonzero.
      replace (Z.to_nat (q0 - b0)) with (Z.to_nat c0 * Z.to_nat d0)%nat in Hin, Hcell by nia.
      replace (Z.to_nat (q1 - b1)) with (Z.to_nat c1 * Z.to_nat d1)%nat in Hin, Hcell by nia.
      replace (Z.to_nat (q2 - b2)) with (Z.to_nat c2 * Z.to_nat d2)%nat in Hin, Hcell by nia.
      split; [|exact Hcell].
      apply (strided_cells v d0 d1 d2); assumption.
Qed.

Lemma load_voxel_list_downsampled_pos (v : ndarray bool) (bb0 : Z3)
    (d0 d1 d2 : Z) :
  1 <= d0 -> 1 <= d1 -> 1 <= d2 ->
  small_shape (shape v) ->
  let a := mk_ndarray
             (((shape v).1.1 + Z.to_nat d0 - 1) / Z.to_nat d0,
              ((shape v).1.2 + Z.to_nat d1 - 1) / Z.to_nat d1,
              ((shape v).2 + Z.to_nat d2 - 1) / Z.to_nat d2)%nat
             (fun x y z => cell v (x * Z.to_nat d0) (y * Z.to_nat d1)
                                  (z * Z.to_nat d2)) in
  (voxel_list ← broadcast_rows (fun r => z3_mul r (d0, d1, d2)) (nonzero_rows a);
   Ok (map (fun r => z3_add r bb0) voxel_list)) =
    match np_nonzero a with
    | [] => Raise ValueError
    | _ => Ok (map (fun p => z3_add (z3_mul (z3_of_idx p) (d0, d1, d2)) bb0)
                   (np_nonzero a))
    end.
Proof.
  intros H0 H1 H2 Hs a.
  rewrite (nonzero_rows_small a) by (apply strided_small; assumption).
  destruct (np_nonzero a) as [|p ps]; [reflexivity|].
  cbn [broadcast_rows mbind result_bind map]. rewrite !map_map. reflexivity.
Qed.

(** X13. With downsampling factors of at least 1, on a volume whose shape
    fits [int32], [load_voxel_list_downsampled] lists exactly the voxels of
    the object that lie a multiple of the factors away from the lower
    corner of the bounding box along every axis.  When there is no such
    voxel it has no list to return but raises a [ValueError]. *)
Theorem load_voxel_list_downsampled_grid (voxels : ndarray bool) (bb0 : Z3)
    (d0 d1 d2 : Z) :
  1 <= d0 /\ 1 <= d1 /\ 1 <= d2 ->
  small_shape (shape voxels) ->
  (exists voxel_list,
     load_voxel_list_downsampled (Voxels voxels) bb0 (d0, d1, d2) = Ok voxel_list /\
     voxel_list <> [] /\
     forall q, q ∈ voxel_list <->
               q ∈ voxel_list_of voxels bb0 /\ on_grid (d0, d1, d2) bb0 q) \/
  (load_voxel_list_downsampled (Voxels voxels) bb0 (d0, d1, d2) = Raise ValueError /\
   forall q, q ∈ voxel_list_of voxels bb0 -> ~ on_grid (d0, d1, d2) bb0 q).
Proof.
  intros (H0 & H1 & H2) Hs. unfold load_voxel_list_downsampled.
  cbn [load_voxels_downsampled]. rewrite getstrided_pos by assumption.
  cbn [mbind result_bind dvoxel_rows].
  rewrite (load_voxel_list_downsampled_pos voxels bb0 d0 d1 d2 H0 H1 H2 Hs).
  pose proof (fun q => downsampled_coordinates voxels bb0 d0 d1 d2 q H0 H1 H2) as Hq.
  cbv zeta in Hq.
  set (a := mk_ndarray _ _) in *.
  destruct (np_nonzero a) as [|p ps] eqn:Ea.
  - right. split; [reflexivity|]. intros q Hv Hg.
    assert (Hin : q ∈ @nil Z3) by (apply Hq; auto). inversion Hin.
  - left. eexists. split; [reflexivity|]. split; [discriminate|].
    intros q. apply Hq.
Qed.

Lemma load_voxel_list_downsampled_grid_witness :
  (exists voxel_list,
     load_voxel_list_downsampled (Voxels (full_block (3, 2, 1)%nat)) (10, 20, 30)
                                 (2, 2, 1) = Ok voxel_list /\
     voxel_list <> [] /\
     forall q, q ∈ voxel_list <->
               q ∈ voxel_list_of (full_block (3, 2, 1)%nat) (10, 20, 30) /\
               on_grid (2, 2, 1) (10, 20, 30) q) \/
  (load_voxel_list_downsampled (Voxels (full_block (3, 2, 1)%nat)) (10, 20, 30)
                               (2, 2, 1) = Raise ValueError /\
   forall q, q ∈ voxel_list_of (full_block (3, 2, 1)%nat) (10, 20, 30) ->
             ~ on_grid (2, 2, 1) (10, 20, 30) q).
Proof.
  apply load_voxel_list_downsampled_grid.
  - lia.
  - unfold small_shape. cbn. lia.
Defined.

Lemma contains_true_iff (a : ndarray bool) :
  contains_true (Some a) = true <-> np_nonzero a <> [].
Proof.
  cbn [contains_true]. rewrite existsb_exists. split.
  - intros (b & Hin & Hb). subst b.
    apply list_elem_of_In, elem_of_ravel in Hin as (p & Hp & Hat).
    intros Hnil.
    assert (H : p ∈ np_nonzero a) by (apply elem_of_np_nonzero; auto).
    rewrite Hnil in H. inversion H.
  - intros Hne. destruct (np_nonzero a) as [|p ps] eqn:E; [congruence|].
    assert (H : p ∈ np_nonzero a) by (rewrite E; apply elem_of_cons; auto).
    apply elem_of_np_nonzero in H as [Hp Hat].
    exists true. split; [|reflexivity].
    apply list_elem_of_In, elem_of_ravel. exists p. auto.
Qed.

(** A voxel of a strided view is a voxel of the volume. *)
Lemma strided_nonzero (v a : ndarray bool) (d0 d1 d2 : Z) :
  1 <= d0 -> 1 <= d1 -> 1 <= d2 ->
  getstrided v (d0, d1, d2) = Ok a ->
  np_nonzero a <> [] -> np_nonzero v <> [].
Proof.
  intros H0 H1 H2 Ha Hne Hnil. rewrite getstrided_pos in Ha by assumption.
  injection Ha as <-.
  destruct (np_nonzero _) as [|[[x y] z] ps] eqn:E in Hne; [congruence|].
  assert (H : (x, y, z) ∈ (x, y, z) :: ps) by (apply elem_of_cons; auto).
  rewrite <- E in H. apply elem_of_np_nonzero in H as [Hp Hat].
  apply (strided_cells v d0 d1 d2 x y z H0 H1 H2) in Hp.
  assert (H : (x * Z.to_nat d0, y * Z.to_nat d1, z * Z.to_nat d2)%nat
                ∈ np_nonzero v).
  { apply elem_of_np_nonzero. split; [exact Hp|exact Hat]. }
  rewrite Hnil in H. inversion H.
Qed.

(** With all factors equal to 1 the view is the volume itself. *)
Lemma strided_by_one (v a : ndarray bool) :
  getstrided v (1, 1, 1) = Ok a ->
  np_nonzero v <> [] -> np_nonzero a <> [].
Proof.
  intros Ha Hne Hnil. rewrite getstrided_pos in Ha by lia. injection Ha as <-.
  destruct (np_nonzero v) as [|[[x y] z] ps] eqn:E; [congruence|].
  assert (H : (x, y, z) ∈ np_nonzero v) by (rewrite E; apply elem_of_cons; auto).
  apply elem_of_np_nonzero in H as [Hp Hat].
  match type of Hnil with
  | np_nonzero ?a = [] =>
      assert (H : (x, y, z) ∈ np_nonzero a)
  end.
  { apply elem_of_np_nonzero. split.
    - apply (strided_cells v 1 1 1 x y z); [lia|lia|lia|].
      change (Z.to_nat 1) with 1%nat. rewrite !Nat.mul_1_r. exact Hp.
    - unfold at3. cbn [cell]. change (Z.to_nat 1) with 1%nat.
      rewrite !Nat.mul_1_r. exact Hat. }
  rewrite Hnil in H. inversion H.
Qed.

Lemma halve_downsampling_bounds (d0 d1 d2 : Z) :
  1 <= d0 -> 1 <= d1 -> 1 <= d2 ->
  exists e0 e1 e2,
    halve_downsampling (d0, d1, d2) = (e0, e1, e2) /\
    1 <= e0 /\ 1 <= e1 /\ 1 <= e2 /\
    ((d0, d1, d2) = (1, 1, 1) \/ e0 + e1 + e2 < d0 + d1 + d2).
Proof.
  intros H0 H1 H2. unfold halve_downsampling, z3_map.
  eexists _, _, _. split; [reflexivity|].
  assert (H : forall d, 1 <= d ->
            1 <= (if d / 2 <? 1 then 1 else d / 2) /\
            (if d / 2 <? 1 then 1 else d / 2) <= d /\
            (d = 1 \/ (if d / 2 <? 1 then 1 else d / 2) < d)).
  { intros d Hd. pose proof (Z.div_mod d 2 ltac:(lia)).
    pose proof (Z.mod_pos_bound d 2 ltac:(lia)).
    destruct (Z.ltb_spec (d / 2) 1); lia. }
  destruct (H d0 H0) as (? & ? & [?|?]), (H d1 H1) as (? & ? & [?|?]),
    (H d2 H2) as (? & ? & [?|?]); subst;
    (split; [assumption|]); (split; [assumption|]); (split; [assumption|]);
    first [left; reflexivity | right; lia].
Qed.

(** The loop leaves through its [break] as soon as the factors have come
    down to 1, if not before. *)
Lemma adapt_loop_terminates (v : ndarray bool) (fuel : nat) :
  np_nonzero v <> [] ->
  forall (d0 d1 d2 : Z) (a : ndarray bool),
    1 <= d0 -> 1 <= d1 -> 1 <= d2 ->
    (Z.to_nat (d0 + d1 + d2) <= fuel + 2)%nat ->
    getstrided v (d0, d1, d2) = Ok a ->
    exists e0 e1 e2 a',
      1 <= e0 /\ 1 <= e1 /\ 1 <= e2 /\
      getstrided v (e0, e1, e2) = Ok a' /\
      np_nonzero a' <> [] /\
      adapt_loop fuel (Voxels v) (d0, d1, d2) (Some a) =
        Some (Ok ((e0, e1, e2), Some a')).
Proof.
  intros Hv. induction fuel as [|fuel IH]; intros d0 d1 d2 a H0 H1 H2 Hfuel Ha.
  - lia.
  - cbn [adapt_loop].
    destruct (contains_true (Some a)) eqn:Hc.
    + exists d0, d1, d2, a. repeat (split; [assumption|]).
      split; [apply contains_true_iff; exact Hc|reflexivity].
    + destruct (halve_downsampling_bounds d0 d1 d2 H0 H1 H2)
        as (e0 & e1 & e2 & -> & He0 & He1 & He2 & Hless).
      destruct Hless as [Hone|Hless].
      * injection Hone as -> -> ->.
        pose proof (strided_by_one v a Ha Hv) as Hne.
        apply contains_true_iff in Hne. congruence.
      * cbn [load_voxels_downsampled].
        pose proof (getstrided_pos v e0 e1 e2 He0 He1 He2) as Ha'.
        rewrite Ha'. cbn [mbind result_bind].
        apply IH; [assumption|assumption|assumption|lia|exact Ha'].
Qed.

(** Without a voxel in the volume the loop has no way out. *)
Lemma adapt_loop_never_leaves (v : ndarray bool) (fuel : nat) :
  np_nonzero v = [] ->
  forall (d0 d1 d2 : Z) (a : ndarray bool),
    1 <= d0 -> 1 <= d1 -> 1 <= d2 ->
    getstrided v (d0, d1, d2) = Ok a ->
    adapt_loop fuel (Voxels v) (d0, d1, d2) (Some a) = None.
Proof.
  intros Hv. induction fuel as [|fuel IH]; intros d0 d1 d2 a H0 H1 H2 Ha.
  - reflexivity.
  - cbn [adapt_loop].
    destruct (contains_true (Some a)) eqn:Hc.
    + apply contains_true_iff in Hc.
      exfalso. apply (strided_nonzero v a d0 d1 d2 H0 H1 H2 Ha Hc Hv).
    + destruct (halve_downsampling_bounds d0 d1 d2 H0 H1 H2)
        as (e0 & e1 & e2 & -> & He0 & He1 & He2 & _).
      cbn [load_voxels_downsampled].
      pose proof (getstrided_pos v e0 e1 e2 He0 He1 He2) as Ha'.
      rewrite Ha'. cbn [mbind result_bind].
      apply IH; assumption.
Qed.

(** X14. On an object that has a voxel, with downsampling factors of at
    least 1, [load_voxel_list_downsampled_adapt] returns: after at most as
    many passes of its loop as the factors add up to, it has a list that
    is not empty, and every coordinate of the list is a voxel of the
    object. *)
Theorem load_voxel_list_downsampled_adapt_returns (voxels : ndarray bool)
    (bb0 : Z3) (d0 d1 d2 : Z) (fuel : nat) :
  1 <= d0 /\ 1 <= d1 /\ 1 <= d2 ->
  small_shape (shape voxels) ->
  np_nonzero voxels <> [] ->
  (Z.to_nat (d0 + d1 + d2) <= fuel + 2)%nat ->
  exists voxel_list,
    load_voxel_list_downsampled_adapt fuel (Voxels voxels) bb0 (d0, d1, d2) =
      Some (Ok voxel_list) /\
    voxel_list <> [] /\
    forall q, q ∈ voxel_list -> q ∈ voxel_list_of voxels bb0.
Proof.
  intros (H0 & H1 & H2) Hs Hv Hfuel. unfold load_voxel_list_downsampled_adapt.
  cbn [load_voxels_downsampled].
  pose proof (getstrided_pos voxels d0 d1 d2 H0 H1 H2) as Ha.
  rewrite Ha. cbn [mbind result_bind dvoxels_len shape fst].
  assert (Hlen : (0 < (shape voxels).1.1)%nat).
  { destruct (np_nonzero voxels) as [|[[x y] z] ps] eqn:E; [congruence|].
    assert (H : (x, y, z) ∈ np_nonzero voxels) by (rewrite E; apply elem_of_cons; auto).
    apply elem_of_np_nonzero in H as [Hp _]. apply in_shape_iff in Hp.
    cbn [fst snd] in Hp. lia. }
  destruct (Nat.eqb_spec (((shape voxels).1.1 + Z.to_nat d0 - 1) / Z.to_nat d0) 0)
    as [Hzero|_].
  { exfalso. assert (H : (0 < ((shape voxels).1.1 + Z.to_nat d0 - 1) / Z.to_nat d0)%nat).
    { apply ceil_div_lt; lia. }
    lia. }
  destruct (adapt_loop_terminates voxels fuel Hv d0 d1 d2 _ H0 H1 H2 Hfuel Ha)
    as (e0 & e1 & e2 & a' & He0 & He1 & He2 & Ha' & Hne & ->).
  rewrite getstrided_pos in Ha' by assumption. injection Ha' as <-.
  cbn [dvoxel_rows].
  rewrite (load_voxel_list_downsampled_pos voxels bb0 e0 e1 e2 He0 He1 He2 Hs).
  destruct (np_nonzero _) as [|p ps] eqn:E in Hne |- *; [congruence|].
  rewrite <- E. eexists. split; [reflexivity|]. split.
  - rewrite E. discriminate.
  - intros q Hq.
    apply (downsampled_coordinates voxels bb0 e0 e1 e2 q He0 He1 He2) in Hq.
    apply Hq.
Qed.

Lemma load_voxel_list_downsampled_adapt_returns_witness :
  exists voxel_list,
    load_voxel_list_downsampled_adapt 3 (Voxels (full_block (3, 2, 1)%nat))
                                      (10, 20, 30) (2, 2, 1) =
      Some (Ok voxel_list) /\
    voxel_list <> [] /\
    forall q, q ∈ voxel_list ->
              q ∈ voxel_list_of (full_block (3, 2, 1)%nat) (10, 20, 30).
Proof.
  apply load_voxel_list_downsampled_adapt_returns.
  - lia.
  - unfold small_shape. cbn. lia.
  - discriminate.
  - cbn. lia.
Defined.

(** X15. On a volume without a single voxel whose first axis is not empty,
    [load_voxel_list_downsampled_adapt] never returns: no number of passes
    lets its loop find a voxel, and nothing else ends the loop. *)
Theorem load_voxel_list_downsampled_adapt_never_returns (voxels : ndarray bool)
    (bb0 : Z3) (d0 d1 d2 : Z) (fuel : nat) :
  1 <= d0 /\ 1 <= d1 /\ 1 <= d2 ->
  np_nonzero voxels = [] ->
  (0 < (shape voxels).1.1)%nat ->
  load_voxel_list_downsampled_adapt fuel (Voxels voxels) bb0 (d0, d1, d2) = None.
Proof.
  intros (H0 & H1 & H2) Hv Hlen. unfold load_voxel_list_downsampled_adapt.
  cbn [load_voxels_downsampled].
  pose proof (getstrided_pos voxels d0 d1 d2 H0 H1 H2) as Ha.
  rewrite Ha. cbn [mbind result_bind dvoxels_len shape fst].
  destruct (Nat.eqb_spec (((shape voxels).1.1 + Z.to_nat d0 - 1) / Z.to_nat d0) 0)
    as [Hzero|_].
  { exfalso. assert (H : (0 < ((shape voxels).1.1 + Z.to_nat d0 - 1) / Z.to_nat d0)%nat).
    { apply ceil_div_lt; lia. }
    lia. }
  rewrite (adapt_loop_never_leaves voxels fuel Hv d0 d1 d2 _ H0 H1 H2 Ha).
  reflexivity.
Qed.

Lemma load_voxel_list_downsampled_adapt_never_returns_witness :
  load_voxel_list_downsampled_adapt 1000
    (Voxels (mk_ndarray (1, 1, 1)%nat (fun _ _ _ => false))) (0, 0, 0) (2, 2, 1)
    = None.
Proof.
  apply load_voxel_list_downsampled_adapt_never_returns.
  - lia.
  - reflexivity.
  - cbn. lia.
Defined.

(** ** [grow_out_soma] *)









(** *** Depth-first preorder on a path *)







(** *** The walk along a path *)












(** ** More on connectivity extraction *)

Lemma syn_dict_step_more features get_all k info p st row a s r :
  parse_ax_info info = Ok p ->
  features !! k = Some row ->
  row !! 1%nat = Some a -> row !! 2%nat = Some s -> row !! 3%nat = Some r ->
  (k < length (valid_syn_array st))%nat ->
  exists st',
    syn_dict_step features get_all k info st = Ok st' /\
    val_syn_ixs st' =
      val_syn_ixs st ++ (if contact_is_kept get_all p then [k] else []) /\
    all_post_ids st' =
      all_post_ids st ++ (if contact_is_kept get_all p then [post_of p] else []) /\
    length (valid_syn_array st') = length (valid_syn_array st) /\
    forall i,
      valid_syn_array st' !! i =
        if (i =? k)%nat && same_label_not_axon p
        then map (fun _ => PrimFloat.zero) <$> valid_syn_array st !! i
        else valid_syn_array st !! i.
Proof.
  intros Hp Hrow Ha Hs Hr Hk. unfold syn_dict_step. rewrite Hp. simpl.
  unfold contact_is_kept, same_label_not_axon.
  assert (Hadd : forall st0,
     exists st',
       add_synapse features k (cell_ids p) (cell_axoness p) st0 = Ok st' /\
       val_syn_ixs st' = val_syn_ixs st0 ++ [k] /\
       all_post_ids st' = all_post_ids st0 ++ [post_of p] /\
       valid_syn_array st' = valid_syn_array st0).
  { intros st0.
    destruct (add_synapse_ok features k p st0 row a s r Hrow Ha Hs Hr)
      as (st' & Heq & Hix & Hva & Hpo & _).
    exists st'. auto. }
  assert (Hzero : forall i,
            (<[k := map (fun _ => PrimFloat.zero)
                        (default [] (valid_syn_array st !! k))]>
               (valid_syn_array st)) !! i =
            if (i =? k)%nat
            then map (fun _ => PrimFloat.zero) <$> valid_syn_array st !! i
            else valid_syn_array st !! i).
  { intros i. destruct (Nat.eqb_spec i k) as [->|Hne].
    - rewrite list_lookup_insert_eq by exact Hk.
      destruct (lookup_lt_is_Some_2 _ _ Hk) as [row' ->]. reflexivity.
    - rewrite list_lookup_insert_ne by congruence. reflexivity. }
  destruct (fst (cell_axoness p) =? snd (cell_axoness p)) eqn:Heq; simpl.
  - destruct (fst (cell_axoness p) =? 1) eqn:Hax; simpl.
    + match goal with
      | |- context [add_synapse _ _ _ _ ?s0] =>
          destruct (Hadd s0) as (st' & -> & H1 & H2 & H3)
      end.
      exists st'. split; [reflexivity|]. simpl in *.
      split; [exact H1|]. split; [exact H2|]. split; [rewrite H3; reflexivity|].
      intros i. rewrite H3, andb_false_r. reflexivity.
    + unfold zero_row. destruct (lookup_lt_is_Some_2 _ _ Hk) as [row' Hrow'].
      rewrite Hrow'. simpl.
      assert (Hz : forall i,
                (<[k := map (fun _ => PrimFloat.zero) row']> (valid_syn_array st)) !! i =
                if (i =? k)%nat && true
                then map (fun _ => PrimFloat.zero) <$> valid_syn_array st !! i
                else valid_syn_array st !! i).
      { intros i. specialize (Hzero i). rewrite Hrow' in Hzero. simpl in Hzero.
        rewrite andb_true_r. exact Hzero. }
      destruct get_all; simpl.
      * match goal with
        | |- context [add_synapse _ _ _ _ ?s0] =>
            destruct (Hadd s0) as (st' & -> & H1 & H2 & H3)
        end.
        exists st'. split; [reflexivity|]. simpl in *.
        split; [exact H1|]. split; [exact H2|].
        split; [rewrite H3; apply length_insert|].
        intros i. rewrite H3. apply Hz.
      * eexists. split; [reflexivity|]. simpl.
        split; [rewrite app_nil_r; reflexivity|].
        split; [rewrite app_nil_r; reflexivity|].
        split; [apply length_insert|]. exact Hz.
  - match goal with
    | |- context [add_synapse _ _ _ _ ?s0] =>
        destruct (Hadd s0) as (st' & -> & H1 & H2 & H3)
    end.
    exists st'. split; [reflexivity|]. simpl in *.
    split; [exact H1|]. split; [exact H2|]. split; [rewrite H3; reflexivity|].
    intros i. rewrite H3, andb_false_r. reflexivity.
Qed.

Lemma syn_dict_loop_more features get_all infos :
  forall k st,
    Forall (fun ax_info => exists p, parse_ax_info ax_info = Ok p) infos ->
    Forall (fun row => (4 <= length row)%nat) features ->
    (k + length infos <= length features)%nat ->
    (k + length infos <= length (valid_syn_array st))%nat ->
    exists st',
      syn_dict_loop features get_all k infos st = Ok st' /\
      val_syn_ixs st' = val_syn_ixs st ++ kept_ixs get_all k infos /\
      all_post_ids st' = all_post_ids st ++ kept_posts get_all infos /\
      forall i,
        valid_syn_array st' !! i =
          match infos !! (i - k)%nat with
          | Some info =>
              if (k <=? i)%nat &&
                 match parse_ax_info info with
                 | Ok p => same_label_not_axon p
                 | Raise _ => false
                 end
              then map (fun _ => PrimFloat.zero) <$> valid_syn_array st !! i
              else valid_syn_array st !! i
          | None => valid_syn_array st !! i
          end.
Proof.
  induction infos as [|info infos IH]; intros k st Hparse Hrows Hlen Hval.
  - exists st. simpl. rewrite !app_nil_r. split; [reflexivity|].
    split; [reflexivity|]. split; [reflexivity|]. intros i.
    destruct (i - k)%nat; reflexivity.
  - simpl in Hlen, Hval.
    apply Forall_cons in Hparse as [[p Hp] Hparse].
    destruct (lookup_lt_is_Some_2 features k ltac:(lia)) as [row Hrow].
    assert (H4 : (4 <= length row)%nat).
    { rewrite Forall_forall in Hrows. apply Hrows.
      apply list_elem_of_lookup. eauto. }
    destruct (row_has_four row H4) as (a & s & r & Ha & Hs & Hr).
    destruct (syn_dict_step_more features get_all k info p st row a s r
                Hp Hrow Ha Hs Hr ltac:(lia))
      as (st1 & Hstep & Hix & Hpo & Hvl & Hva).
    destruct (IH (S k) st1 Hparse Hrows ltac:(lia) ltac:(lia))
      as (st' & Hloop & Hix' & Hpo' & Hva').
    exists st'. cbn [syn_dict_loop]. rewrite Hstep. cbn [mbind result_bind].
    split; [exact Hloop|]. split; [|split].
    + rewrite Hix', Hix. cbn [kept_ixs]. unfold info_is_kept. rewrite Hp.
      rewrite <- app_assoc. reflexivity.
    + rewrite Hpo', Hpo. cbn [kept_posts]. rewrite Hp.
      rewrite <- app_assoc. reflexivity.
    + intros i. rewrite Hva'. rewrite !Hva.
      destruct (Nat.lt_trichotomy i k) as [Hlt|[->|Hgt]].
      * replace (i - S k)%nat with 0%nat by lia.
        replace (i - k)%nat with 0%nat by lia. cbn [lookup list_lookup].
        destruct (Nat.leb_spec k i); [lia|].
        destruct (Nat.eqb_spec i k); [lia|].
        destruct infos as [|info' infos']; cbn [lookup list_lookup]; [reflexivity|].
        destruct (Nat.leb_spec (S k) i); [lia|]. reflexivity.
      * replace (k - S k)%nat with 0%nat by lia.
        replace (k - k)%nat with 0%nat by lia. cbn [lookup list_lookup].
        rewrite Hp, Nat.eqb_refl, Nat.leb_refl. cbn [andb].
        destruct infos as [|info' infos']; cbn [lookup list_lookup]; [reflexivity|].
        destruct (Nat.leb_spec (S k) k); [lia|]. reflexivity.
      * replace (i - k)%nat with (S (i - S k)) by lia. cbn [lookup list_lookup].
        destruct (Nat.eqb_spec i k); [lia|]. cbn [andb].
        destruct (infos !! (i - S k)%nat) as [info'|]; [|reflexivity].
        destruct (Nat.leb_spec (S k) i), (Nat.leb_spec k i); try lia.
        reflexivity.
Qed.

Lemma calc_syn_dict_more features axoness_info get_all :
  well_formed_contacts features axoness_info ->
  exists r,
    calc_syn_dict features axoness_info get_all = Ok r /\
    res_axoness_info r = List.filter (info_is_kept get_all) axoness_info /\
    res_all_post_ids r = kept_posts get_all axoness_info /\
    forall k info row,
      axoness_info !! k = Some info -> features !! k = Some row ->
      res_valid_syn_array r !! k =
        Some (map (fun _ =>
                     if match parse_ax_info info with
                        | Ok p => same_label_not_axon p
                        | Raise _ => false
                        end
                     then PrimFloat.zero else PrimFloat.one) row).
Proof.
  intros (Hlen & Hrows & Hparse). unfold calc_syn_dict.
  destruct axoness_info as [|info0 infos].
  - destruct features; [|discriminate]. eexists. simpl.
    split; [reflexivity|]. split; [reflexivity|]. split; [reflexivity|].
    intros k info row Hk. rewrite lookup_nil in Hk. discriminate.
  - remember (info0 :: infos) as l eqn:El.
    replace (length l =? 0)%nat with false by (subst l; reflexivity).
    clear El info0 infos.
    destruct (syn_dict_loop_more features get_all l 0 (syn_state_init features)
                Hparse Hrows ltac:(lia)
                ltac:(simpl; rewrite length_map; lia))
      as (st & -> & Hix & Hpo & Hva).
    simpl in Hix, Hpo. cbn [mbind result_bind].
    rewrite Hix.
    pose proof (take_rows_kept get_all l features [] Hlen) as Hf.
    pose proof (take_rows_kept get_all l l [] eq_refl) as Hi.
    simpl in Hf, Hi. rewrite Hf. cbn [mbind result_bind]. rewrite Hi.
    cbn [mbind result_bind].
    eexists. split; [reflexivity|]. cbn [res_axoness_info res_all_post_ids
                                         res_valid_syn_array].
    split; [apply filter_combine_self|]. split; [exact Hpo|].
    intros k info row Hk Hrow. rewrite Hva. rewrite Nat.sub_0_r, Hk.
    cbn [Nat.leb andb syn_state_init valid_syn_array].
    change (map ?f ?l) with (f <$> l) at 1 2.
    rewrite !list_lookup_fmap, Hrow. cbn [fmap option_fmap option_map].
    destruct (match parse_ax_info info with
              | Ok p => same_label_not_axon p
              | Raise _ => false
              end).
    + rewrite map_map. reflexivity.
    + reflexivity.
Qed.

Lemma filter_all_kept (infos : list string) :
  Forall (fun ax_info => exists p, parse_ax_info ax_info = Ok p) infos ->
  List.filter (info_is_kept true) infos = infos /\
  forall (data : features_array),
    length data = length infos ->
    map snd (List.filter (fun c => info_is_kept true (fst c)) (combine infos data))
      = data.
Proof.
  induction 1 as [|info infos [p Hp] Hall [IH1 IH2]].
  - split; [reflexivity|]. intros [|x data]; [reflexivity|discriminate].
  - assert (Hk : info_is_kept true info = true).
    { unfold info_is_kept. rewrite Hp. unfold contact_is_kept.
      apply orb_true_r. }
    split.
    + cbn [List.filter]. rewrite Hk, IH1. reflexivity.
    + intros [|x data] Hlen; [discriminate|]. simpl in Hlen.
      cbn [combine List.filter fst]. rewrite Hk. cbn [map snd].
      rewrite IH2 by lia. reflexivity.
Qed.

Lemma length_kept_posts (get_all : bool) (infos : list string) :
  length (kept_posts get_all infos) =
    length (List.filter (info_is_kept get_all) infos).
Proof.
  induction infos as [|info infos IH]; [reflexivity|].
  cbn [kept_posts List.filter]. unfold info_is_kept at 1.
  rewrite length_app, IH.
  destruct (parse_ax_info info) as [p|e]; [|reflexivity].
  destruct (contact_is_kept get_all p); reflexivity.
Qed.

(** X19. With [get_all] on, on contacts whose comments parse and whose
    features have their four columns, [calc_syn_dict] returns every
    contact and every row of features as it got them, and one
    postsynaptic id for each contact. *)
Theorem calc_syn_dict_get_all_returns_every_contact
    (features : features_array) (axoness_info : list string) :
  well_formed_contacts features axoness_info ->
  exists r,
    calc_syn_dict features axoness_info true = Ok r /\
    res_axoness_info r = axoness_info /\
    res_features r = features /\
    length (res_all_post_ids r) = length axoness_info.
Proof.
  intros Hwf.
  destruct (calc_syn_dict_ok features axoness_info true Hwf)
    as (r & Hr & Hinfo & Hfeat & _).
  destruct (calc_syn_dict_more features axoness_info true Hwf)
    as (r' & Hr' & _ & Hposts & _).
  rewrite Hr in Hr'. injection Hr' as <-.
  destruct Hwf as (Hlen & Hrows & Hparse).
  destruct (filter_all_kept axoness_info Hparse) as [Hall Hdata].
  exists r. split; [exact Hr|]. split; [rewrite Hinfo; exact Hall|].
  split; [rewrite Hfeat; apply Hdata; exact Hlen|].
  rewrite Hposts, length_kept_posts, Hall. reflexivity.
Qed.

Lemma calc_syn_dict_get_all_returns_every_contact_witness :
  exists r,
    calc_syn_dict (fst dendrite_dendrite_contact)
                  (snd dendrite_dendrite_contact) true = Ok r /\
    res_axoness_info r = snd dendrite_dendrite_contact /\
    res_features r = fst dendrite_dendrite_contact /\
    length (res_all_post_ids r) = length (snd dendrite_dendrite_contact).
Proof.
  apply calc_syn_dict_get_all_returns_every_contact.
  split; [reflexivity|]. split.
  - repeat constructor.
  - repeat constructor. eexists. vm_compute. reflexivity.
Defined.

Lemma kept_posts_follow (get_all : bool) (infos : list string) :
  Forall2 (fun ax_info post =>
             exists p, parse_ax_info ax_info = Ok p /\ post = post_of p)
          (List.filter (info_is_kept get_all) infos)
          (kept_posts get_all infos).
Proof.
  induction infos as [|info infos IH]; [constructor|].
  cbn [kept_posts List.filter]. unfold info_is_kept at 1.
  destruct (parse_ax_info info) as [p|e] eqn:Hp; [|exact IH].
  destruct (contact_is_kept get_all p); [|exact IH].
  constructor; [|exact IH]. exists p. auto.
Qed.

(** X20. The list of postsynaptic ids that [calc_syn_dict] returns goes
    with the contacts it returns, position by position: its [k]-th id is
    the postsynaptic cell of the [k]-th returned contact, the cell whose
    compartment label [np.argmax] does not pick. *)
Theorem calc_syn_dict_post_ids_follow_contacts
    (features : features_array) (axoness_info : list string) (get_all : bool) :
  well_formed_contacts features axoness_info ->
  exists r,
    calc_syn_dict features axoness_info get_all = Ok r /\
    Forall2 (fun ax_info post =>
               exists p, parse_ax_info ax_info = Ok p /\ post = post_of p)
            (res_axoness_info r) (res_all_post_ids r).
Proof.
  intros Hwf.
  destruct (calc_syn_dict_more features axoness_info get_all Hwf)
    as (r & Hr & Hinfo & Hposts & _).
  exists r. split; [exact Hr|]. rewrite Hinfo, Hposts.
  apply kept_posts_follow.
Qed.

Lemma calc_syn_dict_post_ids_follow_contacts_witness :
  exists r,
    calc_syn_dict (fst two_contacts) (snd two_contacts) false = Ok r /\
    Forall2 (fun ax_info post =>
               exists p, parse_ax_info ax_info = Ok p /\ post = post_of p)
            (res_axoness_info r) (res_all_post_ids r).
Proof.
  apply calc_syn_dict_post_ids_follow_contacts.
  split; [reflexivity|]. split.
  - repeat constructor.
  - repeat constructor; eexists; vm_compute; reflexivity.
Defined.

(** X21. The validity array that [calc_syn_dict] returns has the row of a
    contact all 0 when the contact joins two equal compartment labels
    other than axon, and all 1 otherwise, whether or not [get_all] keeps
    the contact: an axon-axon contact counts as valid. *)
Theorem calc_syn_dict_validity_rows
    (features : features_array) (axoness_info : list string) (get_all : bool)
    (k : nat) (ax_info : string) (p : parsed_info) (row : list float) :
  well_formed_contacts features axoness_info ->
  axoness_info !! k = Some ax_info ->
  parse_ax_info ax_info = Ok p ->
  features !! k = Some row ->
  exists r,
    calc_syn_dict features axoness_info get_all = Ok r /\
    res_valid_syn_array r !! k =
      Some (map (fun _ => if same_label_not_axon p
                          then PrimFloat.zero else PrimFloat.one) row).
Proof.
  intros Hwf Hk Hp Hrow.
  destruct (calc_syn_dict_more features axoness_info get_all Hwf)
    as (r & Hr & _ & _ & Hvalid).
  exists r. split; [exact Hr|].
  rewrite (Hvalid k ax_info row Hk Hrow), Hp. reflexivity.
Qed.

Lemma calc_syn_dict_validity_rows_witness :
  exists r,
    calc_syn_dict (fst axon_axon_contact) (snd axon_axon_contact) false = Ok r /\
    res_valid_syn_array r !! 0%nat = Some [1; 1; 1; 1]%float.
Proof.
  destruct (calc_syn_dict_validity_rows
              (fst axon_axon_contact) (snd axon_axon_contact) false 0
              "cs12_5axoness1_7axoness1"
              (mk_parsed ("5", "1") ("7", "1") "12" (5, 7) (1, 1))
              [0.5; 2; 3; 0.25]%float)
    as (r & Hr & Hrow).
  - split; [reflexivity|]. split.
    + repeat constructor.
    + repeat constructor. eexists. vm_compute. reflexivity.
  - reflexivity.
  - vm_compute. reflexivity.
  - reflexivity.
  - exists r. split; [exact Hr|]. rewrite Hrow. reflexivity.
Defined.

Lemma syn_dict_loop_app features get_all (good rest : list string) :
  forall k st,
    syn_dict_loop features get_all k (good ++ rest) st =
      st' ← syn_dict_loop features get_all k good st;
      syn_dict_loop features get_all (k + length good) rest st'.
Proof.
  induction good as [|info good IH]; intros k st.
  - cbn [app syn_dict_loop mbind result_bind length]. rewrite Nat.add_0_r.
    reflexivity.
  - cbn [app syn_dict_loop length].
    destruct (syn_dict_step features get_all k info st) as [st1|e];
      cbn [mbind result_bind]; [|reflexivity].
    rewrite IH. replace (S k + length good)%nat with (k + S (length good))%nat by lia.
    reflexivity.
Qed.

(** X22. A comment that does not parse stops [calc_syn_dict] with the
    exception of the parse, a [ValueError] when the comment does not name
    exactly two cells, even when the contacts before it are in order and
    whatever follows: nothing of the work done is returned. *)
Theorem calc_syn_dict_stops_at_malformed_comment
    (features : features_array) (good : list string) (bad : string)
    (rest : list string) (get_all : bool) (e : exn) :
  Forall (fun ax_info => exists p, parse_ax_info ax_info = Ok p) good ->
  Forall (fun row => (4 <= length row)%nat) features ->
  (length good <= length features)%nat ->
  parse_ax_info bad = Raise e ->
  calc_syn_dict features (good ++ bad :: rest) get_all = Raise e.
Proof.
  intros Hgood Hrows Hlen Hbad. unfold calc_syn_dict.
  replace (length (good ++ bad :: rest) =? 0)%nat with false
    by (rewrite length_app; simpl; symmetry; apply Nat.eqb_neq; lia).
  rewrite syn_dict_loop_app.
  destruct (syn_dict_loop_ok features get_all good 0 (syn_state_init features)
              Hgood Hrows ltac:(lia)
              ltac:(simpl; rewrite length_map; lia))
    as (st & -> & _).
  cbn [mbind result_bind syn_dict_loop]. unfold syn_dict_step.
  rewrite Hbad. reflexivity.
Qed.

Lemma calc_syn_dict_stops_at_malformed_comment_witness :
  calc_syn_dict (fst contact_then_malformed) (snd contact_then_malformed) false
    = Raise ValueError.
Proof.
  apply (calc_syn_dict_stops_at_malformed_comment
           (fst contact_then_malformed) ["cs12_5axoness1_7axoness0"%string]
           "cs13_7axoness0" [] false ValueError).
  - repeat constructor. eexists. vm_compute. reflexivity.
  - repeat constructor.
  - simpl. lia.
  - vm_compute. reflexivity.
Defined.

Lemma pair_record_origin features get_all pre post (all infos : list string) :
  forall k acc,
    (forall ax_info, ax_info ∈ infos -> ax_info ∈ all) ->
    (forall rec, acc = Some rec ->
       post_id rec = post /\
       exists ax_info p,
         ax_info ∈ all /\ parse_ax_info ax_info = Ok p /\
         contributes get_all pre post p = true /\
         post_axoness rec = post_axoness_of p) ->
    forall rec,
      pair_record features get_all pre post k infos acc = Some rec ->
      post_id rec = post /\
      exists ax_info p,
        ax_info ∈ all /\ parse_ax_info ax_info = Ok p /\
        contributes get_all pre post p = true /\
        post_axoness rec = post_axoness_of p.
Proof.
  induction infos as [|info infos IH]; intros k acc Hsub Hacc rec Hrec.
  - simpl in Hrec. apply Hacc. exact Hrec.
  - cbn [pair_record] in Hrec. revert Hrec. apply IH.
    + intros i Hi. apply Hsub. apply elem_of_cons. auto.
    + intros rec' Hrec'.
      destruct (parse_ax_info info) as [p|e] eqn:Hp; [|apply Hacc; exact Hrec'].
      destruct (features !! k) as [row|]; [|apply Hacc; exact Hrec'].
      destruct (row !! 1%nat) as [a|]; [|apply Hacc; exact Hrec'].
      destruct (row !! 2%nat) as [s|]; [|apply Hacc; exact Hrec'].
      destruct (row !! 3%nat) as [r|]; [|apply Hacc; exact Hrec'].
      destruct (contributes get_all pre post p) eqn:Hc; [|apply Hacc; exact Hrec'].
      injection Hrec' as <-. destruct acc as [old|]; cbn [merge_contact].
      * cbn [post_id post_axoness]. apply Hacc. reflexivity.
      * cbn [post_id post_axoness]. split.
        -- apply contributes_iff in Hc as (_ & _ & ->). reflexivity.
        -- exists info, p. split; [apply Hsub; apply elem_of_cons; auto|].
           auto.
Qed.

(** X23. Every record of the connectivity dictionary stands under the
    pair (pre, post) of a recorded contact and names that postsynaptic
    cell.  The presynaptic side is the one with the larger compartment
    label, the first cell when the labels are equal; so the soma side of
    a contact between an axon (1) and a soma (2) is the presynaptic
    one. *)
Theorem calc_syn_dict_pre_has_larger_label
    (features : features_array) (axoness_info : list string) (get_all : bool) :
  well_formed_contacts features axoness_info ->
  exists r,
    calc_syn_dict features axoness_info get_all = Ok r /\
    forall pre post rec,
      lookup2 (res_pre_dict r) pre post = Some rec ->
      post_id rec = post /\
      exists ax_info p,
        ax_info ∈ axoness_info /\ parse_ax_info ax_info = Ok p /\
        pre = pre_of p /\ post = post_of p /\
        post_axoness rec = post_axoness_of p /\
        post_axoness_of p <= pre_axoness_of p /\
        (fst (cell_axoness p) = snd (cell_axoness p) ->
         pre = fst (cell_ids p)).
Proof.
  intros Hwf.
  destruct (calc_syn_dict_ok features axoness_info get_all Hwf)
    as (r & Hr & _ & _ & Hd).
  exists r. split; [exact Hr|]. intros pre post rec Hrec. rewrite Hd in Hrec.
  destruct (pair_record_origin features get_all pre post axoness_info
              axoness_info 0 None ltac:(auto) ltac:(discriminate) rec Hrec)
    as (Hpost & info & p & Hin & Hp & Hc & Hax).
  split; [exact Hpost|]. exists info, p.
  apply contributes_iff in Hc as (_ & Hpre & Hpo).
  repeat (split; [assumption|]). split.
  - unfold post_axoness_of, pre_axoness_of.
    destruct (Z.ltb_spec (fst (cell_axoness p)) (snd (cell_axoness p))); lia.
  - intros Heq. rewrite Hpre. unfold pre_of.
    destruct (Z.ltb_spec (fst (cell_axoness p)) (snd (cell_axoness p))); [lia|].
    reflexivity.
Qed.

Lemma calc_syn_dict_pre_has_larger_label_witness :
  exists r,
    calc_syn_dict (fst axon_soma_contact) (snd axon_soma_contact) false = Ok r /\
    lookup2 (res_pre_dict r) 9 5 = Some (mk_syn 5 1 2 3 0.25) /\
    lookup2 (res_pre_dict r) 5 9 = None.
Proof.
  destruct (calc_syn_dict_pre_has_larger_label
              (fst axon_soma_contact) (snd axon_soma_contact) false)
    as (r & Hr & _).
  - split; [reflexivity|]. split.
    + repeat constructor.
    + repeat constructor. eexists. vm_compute. reflexivity.
  - exists r. split; [exact Hr|].
    vm_compute in Hr. injection Hr as <-. split; reflexivity.
Defined.

(** ** More on the spine-head volume batch job *)

Lemma spinehead_loop_first_failure ssd st before bad after :
  Forall (fun id => sso_succeeds (ssd id)) before ->
  load_skeleton (ssd bad) = false \/
    is_Some (extract_spinehead_volume_mesh (ssd bad)) ->
  spinehead_loop ssd st (before ++ bad :: after) =
    (mk_job (files st) (saved_skeletons st ++ before),
     Raise (if load_skeleton (ssd bad) then TypeError else AssertionError)).
Proof.
  intros Hall Hbad. revert st.
  induction Hall as [|id ids [Hl He] _ IH]; intros st.
  - cbn [app spinehead_loop]. unfold spinehead_step. rewrite app_nil_r.
    destruct (load_skeleton (ssd bad)); cbn [negb].
    + destruct Hbad as [?|[e He]]; [discriminate|]. rewrite He.
      destruct st; reflexivity.
    + destruct st; reflexivity.
  - cbn [app spinehead_loop]. unfold spinehead_step at 1. rewrite Hl, He.
    cbn [negb]. rewrite IH. cbn [files saved_skeletons].
    rewrite <- app_assoc. reflexivity.
Qed.

(** X24. The job works through the reconstructions in order and stops at
    the first one that fails: the skeletons of the reconstructions before
    it are saved, nothing is done for those after it, and no file is
    written.  A reconstruction without skeleton ends the job in the
    [AssertionError] of the [assert]; a failing extraction ends it in the
    [TypeError] of [raise()], whatever exception the extraction raised. *)
Theorem spinehead_job_stops_at_first_failure
    (ssd : Z -> sso_behaviour) (st : job_state)
    (path_storage_file path_out_file : string)
    (before : list Z) (bad : Z) (after : list Z) (more : list pickled) :
  files st !! path_storage_file = Some (PIds (before ++ bad :: after) :: more) ->
  Forall (fun id => sso_succeeds (ssd id)) before ->
  load_skeleton (ssd bad) = false \/
    is_Some (extract_spinehead_volume_mesh (ssd bad)) ->
  spinehead_job ssd st path_storage_file path_out_file =
    (mk_job (files st) (saved_skeletons st ++ before),
     Raise (if load_skeleton (ssd bad) then TypeError else AssertionError)).
Proof.
  intros Hargs Hall Hbad. unfold spinehead_job. rewrite Hargs.
  rewrite (spinehead_loop_first_failure ssd st before bad after Hall Hbad).
  reflexivity.
Qed.

Lemma spinehead_job_stops_at_first_failure_witness :
  spinehead_job ssd_second_has_no_skeleton job_of_three "args.pkl" "out.pkl" =
    (mk_job (files job_of_three) [7], Raise AssertionError).
Proof.
  apply (spinehead_job_stops_at_first_failure ssd_second_has_no_skeleton
           job_of_three "args.pkl" "out.pkl" [7] 8 [9] []).
  - reflexivity.
  - repeat constructor.
  - left. reflexivity.
Defined.

(** ** [majority_processes] without a soma node *)

Lemma assign_lookup (anno : Annotation) (id pred : Z) (i : nat) :
  assign_property2node anno id pred !! i =
    (fun n => if node_id n =? id then with_axoness pred n else n) <$> anno !! i.
Proof.
  unfold assign_property2node. change (map ?f ?l) with (f <$> l).
  rewrite list_lookup_fmap. reflexivity.
Qed.

(** Assigning one label to the nodes of a list, one after the other, in a
    tracing: the nodes named in the list end with the label, the others
    are left as they are. *)
Lemma assign_all (pred : Z) (nodes : list Node) :
  forall (acc : Annotation) (i : nat),
    foldl (fun acc node => assign_property2node acc (node_id node) pred)
          acc nodes !! i =
      (fun n => if bool_decide (node_id n ∈ map node_id nodes)
                then with_axoness pred n else n) <$> acc !! i.
Proof.
  induction nodes as [|m nodes IH]; intros acc i.
  - cbn [foldl map]. destruct (acc !! i) as [n|]; [|reflexivity].
    cbn [fmap option_fmap option_map].
    rewrite bool_decide_eq_false_2 by apply not_elem_of_nil. reflexivity.
  - cbn [foldl map]. rewrite IH, assign_lookup.
    destruct (acc !! i) as [n|]; [|reflexivity].
    cbn [fmap option_fmap option_map]. f_equal.
    destruct (Z.eqb_spec (node_id n) (node_id m)) as [Heq|Hne].
    + rewrite (bool_decide_eq_true_2 (node_id n ∈ node_id m :: map node_id nodes))
        by (rewrite Heq; apply elem_of_cons; auto).
      destruct (bool_decide _); reflexivity.
    + destruct (decide (node_id n ∈ map node_id nodes)) as [Hin|Hout].
      * rewrite !bool_decide_eq_true_2; [reflexivity| |exact Hin].
        apply elem_of_cons. auto.
      * rewrite !bool_decide_eq_false_2; [reflexivity| |exact Hout].
        intros H. apply elem_of_cons in H as [?|?]; contradiction.
Qed.

(** X25. On a tracing without a soma node [majority_processes] takes its
    other branch, and from there every node comes back with one and the
    same label, what [cell_classification] makes of the labels of all
    nodes; ids, coordinates and edges stay as they are. *)
Theorem majority_processes_without_soma_node
    (cell_classification : list Z -> Z)
    (soma_branch : gmap string pyval -> Annotation -> result Annotation)
    (anno : Annotation) :
  Forall (fun n => axoness_pred n <> 2) anno ->
  majority_processes soma_branch (majority_without_soma cell_classification) anno =
    Ok (map (with_axoness (cell_classification (map axoness_pred anno))) anno).
Proof.
  intros Hall.
  destruct (majority_processes_without_soma soma_branch
              (majority_without_soma cell_classification) anno Hall)
    as [locals ->].
  unfold majority_without_soma. f_equal.
  apply list_eq. intros i. rewrite assign_all.
  change (map ?f ?l) with (f <$> l) at 3. rewrite list_lookup_fmap.
  destruct (anno !! i) as [n|] eqn:Hn; [|reflexivity].
  cbn [fmap option_fmap option_map].
  rewrite bool_decide_eq_true_2; [reflexivity|].
  change (map ?f ?l) with (f <$> l). apply list_elem_of_fmap. exists n.
  split; [reflexivity|]. eapply list_elem_of_lookup_2. exact Hn.
Qed.

Lemma majority_processes_without_soma_node_witness :
  majority_processes (fun _ anno => Ok anno)
                     (majority_without_soma (fun _ => 1))
                     [mk_node 1 (0, 0, 0)%R 0 [2]; mk_node 2 (10, 0, 0)%R 1 [1]] =
    Ok [mk_node 1 (0, 0, 0)%R 1 [2]; mk_node 2 (10, 0, 0)%R 1 [1]].
Proof.
  apply (majority_processes_without_soma_node (fun _ => 1) (fun _ anno => Ok anno)
           [mk_node 1 (0, 0, 0)%R 0 [2]; mk_node 2 (10, 0, 0)%R 1 [1]]).
  repeat constructor; discriminate.
Defined.

(** ** The contact-site job of one chunk *)

(** X26. The overlap (6, 6, 3) that [contact_site_detection_thread] adds
    around a chunk is what [detect_cs] crops: when the dataset hands out a
    volume of the size asked for, the contacts saved for the chunk have
    the size of the chunk, and the cell (x, y, z) is 0 or the key of the
    label at (x + 6, y + 6, z + 3) of the loaded volume, the voxel
    (x, y, z) of the chunk, with another label from the 13 x 13 x 7 voxels
    around it. *)
Theorem contact_site_detection_thread_covers_chunk
    (from_overlaycubes_to_matrix : Z3 -> Z3 -> ndarray Z) (chunk : Chunk) :
  z3_le (0, 0, 0) (chunk_size chunk) ->
  z3_of_idx (shape (from_overlaycubes_to_matrix
                      (z3_add (12, 12, 6) (chunk_size chunk))
                      (z3_sub (chunk_coordinates chunk) (6, 6, 3))))
    = z3_add (12, 12, 6) (chunk_size chunk) ->
  exists contacts,
    contact_site_detection_thread from_overlaycubes_to_matrix chunk = Ok contacts /\
    z3_of_idx (shape contacts) = chunk_size chunk /\
    forall x y z, in_shape (shape contacts) (x, y, z) = true ->
      let label i j k :=
        astype_uint32
          (cell (from_overlaycubes_to_matrix
                   (z3_add (12, 12, 6) (chunk_size chunk))
                   (z3_sub (chunk_coordinates chunk) (6, 6, 3)))
                (x + i) (y + j) (z + k)) in
      cell contacts x y z = 0 \/
      exists i j k,
        (i < 13 /\ j < 13 /\ k < 7)%nat /\
        label i j k <> 0 /\ label i j k <> label 6%nat 6%nat 3%nat /\
        label 6%nat 6%nat 3%nat <> 0 /\
        cell contacts x y z =
          Z.shiftl (Z.min (label 6%nat 6%nat 3%nat) (label i j k)) 32
          + Z.max (label 6%nat 6%nat 3%nat) (label i j k).
Proof.
  intros Hsize Hshape. unfold contact_site_detection_thread.
  change (z3_mul (2, 2, 2) (6, 6, 3)) with (12, 12, 6).
  set (matrix := from_overlaycubes_to_matrix _ _) in *.
  destruct (chunk_size chunk) as [[c0 c1] c2] eqn:Hc.
  destruct (shape matrix) as [[sx sy] sz] eqn:Hs.
  cbn [z3_of_idx z3_add z3_le] in Hshape, Hsize. injection Hshape as H0 H1 H2.
  destruct (detect_cs_cells (map_array astype_uint32 matrix))
    as (out & Hout & Hoshape & Hcell).
  { intros x y z _. cbn [map_array cell]. unfold astype_uint32.
    apply Z.mod_pos_bound. lia. }
  { cbn [map_array shape]. rewrite Hs. cbn [fst snd]. lia. }
  cbn [map_array shape] in Hoshape. rewrite Hs in Hoshape. cbn [fst snd] in Hoshape.
  exists out. split; [exact Hout|]. split.
  { rewrite Hoshape. cbn [z3_of_idx]. f_equal; [f_equal|]; lia. }
  intros x y z Hin. cbv zeta.
  destruct (Hcell x y z Hin) as [Hzero|(i & j & k & Hijk & _ & Hkey)];
    [left; exact Hzero|].
  right. exists i, j, k. split; [exact Hijk|].
  cbv zeta in Hkey. cbn [map_array cell] in Hkey.
  destruct Hkey as (Hown & Hpartner & Hne & Hkey). auto.
Qed.

Lemma contact_site_detection_thread_covers_chunk_witness :
  exists contacts,
    contact_site_detection_thread
      (fun size _ =>
         mk_ndarray (Z.to_nat size.1.1, Z.to_nat size.1.2, Z.to_nat size.2)
                    (fun x _ _ => if (x <? 7)%nat then 1 else 2))
      (mk_chunk (100, 100, 100) (2, 1, 1)) = Ok contacts /\
    z3_of_idx (shape contacts) = (2, 1, 1).
Proof.
  destruct (contact_site_detection_thread_covers_chunk
              (fun size _ =>
                 mk_ndarray (Z.to_nat size.1.1, Z.to_nat size.1.2, Z.to_nat size.2)
                            (fun x _ _ => if (x <? 7)%nat then 1 else 2))
              (mk_chunk (100, 100, 100) (2, 1, 1)))
    as (contacts & Hc & Hs & _).
  - cbn. lia.
  - reflexivity.
  - exists contacts. split; [exact Hc|exact Hs].
Defined.

(** ** The full scan of [process_block] *)

Lemma elem_of_py_range (lo hi v : Z) : v ∈ py_range lo hi <-> lo <= v < hi.
Proof.
  unfold py_range. change (map ?f ?l) with (f <$> l).
  rewrite list_elem_of_fmap. split.
  - intros (i & -> & Hi). apply elem_of_seq in Hi. lia.
  - intros H. exists (Z.to_nat (v - lo)). split; [lia|].
    apply elem_of_seq. lia.
Qed.

Lemma z3_of_idx_inj (p q : idx3) : z3_of_idx p = z3_of_idx q -> p = q.
Proof.
  destruct p as [[x y] z], q as [[x' y'] z']. cbn [z3_of_idx].
  intros H. injection H as H1 H2 H3. f_equal; [f_equal|]; lia.
Qed.

Lemma store_lookup {A} (a : ndarray A) (q p : idx3) (v : A) :
  at3 (store a q v) p = if bool_decide (p = q) then v else at3 a p.
Proof.
  destruct p as [[x y] z], q as [[x' y'] z']. unfold store, at3. cbn [cell].
  unfold idx3_eqb.
  destruct (Nat.eqb_spec x x'), (Nat.eqb_spec y y'), (Nat.eqb_spec z z');
    cbn [andb]; subst;
    first [ rewrite bool_decide_eq_true_2 by reflexivity; reflexivity
          | rewrite bool_decide_eq_false_2 by congruence; reflexivity ].
Qed.

(** The loop of [process_block]: a visited position that is flagged ends
    with the key its visit stores, every other cell stays as it was. *)
Lemma process_block_loop (edges arr : ndarray Z) (offset : Z3)
    (key : idx3 -> Z) (positions : list Z3) :
  forall out0 : ndarray Z,
    (forall p out, p ∈ positions -> shape out = shape out0 ->
       exists q, p = z3_of_idx q /\
                 process_block_at edges arr offset out p =
                   Ok (if at3 edges q =? 0 then out else store out q (key q))) ->
    exists out,
      foldl (fun acc p => out ← acc; process_block_at edges arr offset out p)
            (Ok out0) positions = Ok out /\
      shape out = shape out0 /\
      forall q, at3 out q =
                  if bool_decide (z3_of_idx q ∈ positions)
                     && negb (at3 edges q =? 0)
                  then key q else at3 out0 q.
Proof.
  induction positions as [|p positions IH]; intros out0 Hstep.
  - exists out0. split; [reflexivity|]. split; [reflexivity|].
    intros q. rewrite bool_decide_eq_false_2 by apply not_elem_of_nil.
    reflexivity.
  - cbn [foldl]. cbn [mbind result_bind].
    destruct (Hstep p out0) as (q0 & Hp & Hat); [apply elem_of_cons; auto|reflexivity|].
    rewrite Hat.
    set (out1 := if at3 edges q0 =? 0 then out0 else store out0 q0 (key q0)).
    assert (Hs1 : shape out1 = shape out0).
    { unfold out1. destruct (_ =? _); reflexivity. }
    destruct (IH out1) as (out & Hfold & Hshape & Hcell).
    { intros p' out' Hp' Hs'. apply Hstep; [apply elem_of_cons; auto|].
      rewrite Hs', Hs1. reflexivity. }
    exists out. split; [exact Hfold|]. split; [rewrite Hshape; exact Hs1|].
    intros q. rewrite Hcell.
    destruct (decide (z3_of_idx q ∈ positions)) as [Hin|Hout].
    + rewrite !bool_decide_eq_true_2; [|apply elem_of_cons; auto|exact Hin].
      cbn [andb]. destruct (at3 edges q =? 0) eqn:Hq; cbn [negb]; [|reflexivity].
      unfold out1. destruct (at3 edges q0 =? 0) eqn:Hq0; [reflexivity|].
      rewrite store_lookup. rewrite bool_decide_eq_false_2; [reflexivity|].
      intros ->. congruence.
    + rewrite (bool_decide_eq_false_2 _ Hout). cbn [andb].
      destruct (decide (q = q0)) as [->|Hne].
      * rewrite bool_decide_eq_true_2 by (rewrite Hp; apply elem_of_cons; auto).
        cbn [andb]. unfold out1.
        destruct (at3 edges q0 =? 0); cbn [negb]; [reflexivity|].
        rewrite store_lookup, bool_decide_eq_true_2 by reflexivity. reflexivity.
      * rewrite bool_decide_eq_false_2.
        2:{ intros H. apply elem_of_cons in H as [H|H]; [|contradiction].
            apply Hne. apply z3_of_idx_inj. rewrite H, Hp. reflexivity. }
        cbn [andb]. unfold out1. destruct (at3 edges q0 =? 0); [reflexivity|].
        rewrite store_lookup, bool_decide_eq_false_2 by exact Hne. reflexivity.
Qed.

Lemma process_block_spec (edges arr : ndarray Z) (o0 o1 o2 : nat) :
  shape edges = shape arr ->
  (0 < o0 /\ 0 < o1 /\ 0 < o2)%nat ->
  exists out,
    process_block edges arr
      (2 * Z.of_nat o0 + 1, 2 * Z.of_nat o1 + 1, 2 * Z.of_nat o2 + 1) = Ok out /\
    shape out = shape arr /\
    forall x y z, in_shape (shape arr) (x, y, z) = true ->
      if (o0 <=? x)%nat && (x + o0 <? (shape arr).1.1)%nat &&
         (o1 <=? y)%nat && (y + o1 <? (shape arr).1.2)%nat &&
         (o2 <=? z)%nat && (z + o2 <? (shape arr).2)%nat &&
         negb (cell edges x y z =? 0)
      then exists key,
        kernel (mk_ndarray (2 * o0 + 1, 2 * o1, 2 * o2)%nat
                  (fun i j k => cell arr (x - o0 + i) (y - o1 + j) (z - o2 + k)))
               (cell arr x y z) = Ok key /\
        cell out x y z = astype_uint64 key
      else cell out x y z = 0.
Proof.
  intros Hes Hpos. destruct (shape arr) as [[n0 n1] n2] eqn:Has.
  unfold process_block.
  destruct (odd_stencil o0 o1 o2) as [-> ->].
  cbn [py_assert mbind result_bind]. rewrite Has. cbn [z3_of_idx fst snd].
  set (out0 := mk_ndarray (n0, n1, n2) (fun _ _ _ => 0)).
  set (positions := flat_map _ _).
  assert (Hpositions : forall x y z : Z,
            (x, y, z) ∈ positions <->
            Z.of_nat o0 <= x < Z.of_nat n0 - Z.of_nat o0 /\
            Z.of_nat o1 <= y < Z.of_nat n1 - Z.of_nat o1 /\
            Z.of_nat o2 <= z < Z.of_nat n2 - Z.of_nat o2).
  { intros x y z. unfold positions.
    rewrite list_elem_of_In, in_flat_map. split.
    - intros (x' & Hx' & Hin). apply in_flat_map in Hin as (y' & Hy' & Hin).
      apply in_map_iff in Hin as (z' & Heq & Hz'). injection Heq as -> -> ->.
      apply list_elem_of_In, elem_of_py_range in Hx', Hy', Hz'. auto.
    - intros (Hx & Hy & Hz). exists x. split.
      { apply list_elem_of_In, elem_of_py_range. exact Hx. }
      apply in_flat_map. exists y. split.
      { apply list_elem_of_In, elem_of_py_range. exact Hy. }
      apply in_map_iff. exists z. split; [reflexivity|].
      apply list_elem_of_In, elem_of_py_range. exact Hz. }
  set (window := fun q : idx3 =>
         mk_ndarray (2 * o0 + 1, 2 * o1, 2 * o2)%nat
           (fun i j k => cell arr (q.1.1 - o0 + i) (q.1.2 - o1 + j)
                                  (q.2 - o2 + k))).
  set (key := fun q : idx3 =>
         match kernel (window q) (at3 arr q) with
         | Ok k => astype_uint64 k
         | Raise _ => 0
         end).
  assert (Hkernel : forall q, exists k, kernel (window q) (at3 arr q) = Ok k).
  { intros q. apply kernel_total. apply ravel_nonempty. cbn [window shape].
    apply in_shape_iff. cbn [fst snd]. lia. }
  destruct (process_block_loop edges arr
              (Z.of_nat o0, Z.of_nat o1, Z.of_nat o2) key positions out0)
    as (out & Hfold & Hshape & Hcell).
  { intros [[x y] z] out' Hp Hs'. apply Hpositions in Hp as (Hx & Hy & Hz).
    exists (Z.to_nat x, Z.to_nat y, Z.to_nat z).
    assert (Hq : (x, y, z) = z3_of_idx (Z.to_nat x, Z.to_nat y, Z.to_nat z)).
    { cbn [z3_of_idx]. rewrite !Z2Nat.id by lia. reflexivity. }
    split; [exact Hq|].
    assert (Hin : in_shape (n0, n1, n2) (Z.to_nat x, Z.to_nat y, Z.to_nat z) = true).
    { apply in_shape_iff. cbn [fst snd]. lia. }
    unfold process_block_at.
    rewrite Hq at 1. rewrite getitem_in by (rewrite Hes; exact Hin).
    cbn [mbind result_bind].
    destruct (at3 edges (Z.to_nat x, Z.to_nat y, Z.to_nat z) =? 0); [reflexivity|].
    rewrite Hq at 1. rewrite getitem_in by (rewrite Has; exact Hin).
    cbn [mbind result_bind].
    replace (x - Z.of_nat o0) with (Z.of_nat (Z.to_nat x - o0)) by lia.
    replace (y - Z.of_nat o1) with (Z.of_nat (Z.to_nat y - o1)) by lia.
    replace (z - Z.of_nat o2) with (Z.of_nat (Z.to_nat z - o2)) by lia.
    replace (x + Z.of_nat o0 + 1)
      with (Z.of_nat (Z.to_nat x - o0) + Z.of_nat (2 * o0 + 1)) by lia.
    replace (y + Z.of_nat o1)
      with (Z.of_nat (Z.to_nat y - o1) + Z.of_nat (2 * o1)) by lia.
    replace (z + Z.of_nat o2)
      with (Z.of_nat (Z.to_nat z - o2) + Z.of_nat (2 * o2)) by lia.
    rewrite getslice_window; [| |lia|lia|lia].
    2:{ rewrite Has. apply in_shape_iff. cbn [fst snd]. lia. }
    destruct (Hkernel (Z.to_nat x, Z.to_nat y, Z.to_nat z)) as [k Hk].
    unfold key. unfold window in Hk |- *. cbn [fst snd] in Hk |- *.
    rewrite Hk. cbn [mbind result_bind].
    rewrite Hq. rewrite setitem_in by (rewrite Hs'; exact Hin). reflexivity. }
  exists out. split; [exact Hfold|]. split; [exact Hshape|].
  intros x y z Hin.
  change (cell out x y z) with (at3 out (x, y, z)). rewrite Hcell.
  change (at3 edges (x, y, z)) with (cell edges x y z).
  change (at3 out0 (x, y, z)) with 0.
  destruct (Nat.leb_spec o0 x), (Nat.ltb_spec (x + o0) n0),
    (Nat.leb_spec o1 y), (Nat.ltb_spec (y + o1) n1),
    (Nat.leb_spec o2 z), (Nat.ltb_spec (z + o2) n2); cbn [andb];
    try (rewrite bool_decide_eq_false_2;
         [reflexivity|cbn [z3_of_idx]; rewrite Hpositions; lia]).
  rewrite bool_decide_eq_true_2 by (cbn [z3_of_idx]; rewrite Hpositions; lia).
  cbn [andb]. destruct (cell edges x y z =? 0); cbn [negb]; [reflexivity|].
  destruct (Hkernel (x, y, z)) as [k Hk]. exists k.
  unfold key. unfold window in Hk |- *. cbn [fst snd] in Hk |- *.
  change (at3 arr (x, y, z)) with (cell arr x y z) in Hk |- *.
  rewrite Hk. auto.
Qed.

(** X27. [process_block] with an odd stencil [2 * o + 1], [o] at least 1
    along every axis, on an edge volume and a label volume of one shape:
    the call succeeds and its result has the shape of the volume.  A cell
    that lies at least [o] away from every face and whose voxel is flagged
    holds, as [uint64], what [kernel] answers on the window the scan
    slices around it, which spans [2 * o + 1] voxels along the first axis
    but only the [2 * o] voxels from [y - o] to [y + o - 1] and from
    [z - o] to [z + o - 1] along the other two; every other cell
    holds 0. *)
Theorem process_block_cells (edges arr : ndarray Z) (o0 o1 o2 : nat) :
  shape edges = shape arr ->
  (0 < o0 /\ 0 < o1 /\ 0 < o2)%nat ->
  exists out,
    process_block edges arr
      (2 * Z.of_nat o0 + 1, 2 * Z.of_nat o1 + 1, 2 * Z.of_nat o2 + 1) = Ok out /\
    shape out = shape arr /\
    forall x y z, in_shape (shape arr) (x, y, z) = true ->
      if (o0 <=? x)%nat && (x + o0 <? (shape arr).1.1)%nat &&
         (o1 <=? y)%nat && (y + o1 <? (shape arr).1.2)%nat &&
         (o2 <=? z)%nat && (z + o2 <? (shape arr).2)%nat &&
         negb (cell edges x y z =? 0)
      then exists key,
        kernel (mk_ndarray (2 * o0 + 1, 2 * o1, 2 * o2)%nat
                  (fun i j k => cell arr (x - o0 + i) (y - o1 + j) (z - o2 + k)))
               (cell arr x y z) = Ok key /\
        cell out x y z = astype_uint64 key
      else cell out x y z = 0.
Proof.
  intros Hes Hpos.
  destruct (process_block_spec edges arr o0 o1 o2 Hes Hpos)
    as (out & Hout & Hshape & Hcell).
  exists out. split; [exact Hout|]. split; [exact Hshape|]. exact Hcell.
Qed.

Lemma process_block_cells_witness :
  exists out,
    process_block centre_flag centre_and_y_neighbour (3, 3, 3) = Ok out /\
    shape out = (3, 3, 3)%nat /\
    cell out 1 1 1 = 0.
Proof.
  destruct (process_block_cells centre_flag centre_and_y_neighbour 1 1 1)
    as (out & Hout & Hshape & Hcell).
  - reflexivity.
  - lia.
  - exists out. split; [exact Hout|]. split; [exact Hshape|].
    specialize (Hcell 1%nat 1%nat 1%nat eq_refl).
    cbn in Hcell. destruct Hcell as (key & Hkey & ->).
    vm_compute in Hkey. injection Hkey as <-. reflexivity.
Defined.

(** ** The comment of a contact site, written and read back *)

Lemma string_app_nil_l (s : string) : ("" +:+ s)%string = s.
Proof. reflexivity. Qed.

Lemma string_app_cons (c : ascii) (s t : string) :
  (String c s +:+ t)%string = String c (s +:+ t).
Proof. reflexivity. Qed.

Ltac string_app := rewrite ?string_app_nil_l, ?string_app_cons.

Lemma span_digits_app (ds r : string) :
  all_digits ds = true -> starts_with_digit r = false ->
  span_digits (ds +:+ r) = (ds, r).
Proof.
  intros Hds Hr. induction ds as [|c ds IH].
  - destruct r as [|c r]; [reflexivity|].
    string_app; cbn [span_digits]. cbn [starts_with_digit] in Hr.
    rewrite Hr. reflexivity.
  - cbn [all_digits] in Hds. apply andb_true_iff in Hds as [Hc Hds].
    string_app; cbn [span_digits]. rewrite Hc, (IH Hds). reflexivity.
Qed.

Lemma span_digits_length (s ds r : string) :
  span_digits s = (ds, r) ->
  String.length s = (String.length ds + String.length r)%nat.
Proof.
  revert ds r. induction s as [|c s IH]; intros ds r H; cbn [span_digits] in H.
  - injection H as <- <-. reflexivity.
  - destruct (is_digit c).
    + destruct (span_digits s) as [ds' r'] eqn:E. injection H as <- <-.
      cbn [String.length]. rewrite (IH ds' r' eq_refl). reflexivity.
    + injection H as <- <-. reflexivity.
Qed.

Lemma strip_prefix_length (p s r : string) :
  strip_prefix p s = Some r ->
  String.length s = (String.length p + String.length r)%nat.
Proof.
  revert s. induction p as [|a p IH]; intros s H; cbn [strip_prefix] in H.
  - injection H as <-. reflexivity.
  - destruct s as [|b s]; [discriminate|].
    destruct (Ascii.eqb a b); [|discriminate].
    cbn [String.length]. rewrite (IH s H). lia.
Qed.

Lemma not_empty_length (s : string) :
  is_empty_string s = false -> (0 < String.length s)%nat.
Proof. destruct s; [discriminate|cbn [String.length]; lia]. Qed.

(** A match of the first pattern takes at least one character. *)
Lemma match_id_axoness_consumes (s : string) g rest :
  match_id_axoness s = Some (g, rest) ->
  (String.length rest < String.length s)%nat.
Proof.
  unfold match_id_axoness.
  destruct (span_digits s) as [id r] eqn:E1.
  destruct (is_empty_string id) eqn:Eid; [discriminate|].
  destruct (strip_prefix "axoness" r) as [r1|] eqn:E2; [|discriminate].
  pose proof (span_digits_length _ _ _ E1) as H1.
  pose proof (strip_prefix_length _ _ _ E2) as H2.
  pose proof (not_empty_length _ Eid) as H0.
  set (sr := match r1 with
             | String "-"%char r' => ("-"%string, r')
             | _ => (EmptyString, r1)
             end).
  assert (Hsr : (String.length (snd sr) <= String.length r1)%nat).
  { unfold sr. destruct r1 as [|c r1']; [cbn; lia|].
    destruct c as [[] [] [] [] [] [] [] []]; cbn [snd String.length]; lia. }
  destruct sr as [sign r2]. cbn [snd] in Hsr.
  destruct (span_digits r2) as [ds r3] eqn:E3.
  pose proof (span_digits_length _ _ _ E3) as H3.
  destruct (is_empty_string ds); [discriminate|].
  intros H. injection H as _ <-. lia.
Qed.

Lemma findall_fuel {A} (m : string -> option (A * string)) :
  (forall s g rest, m s = Some (g, rest) ->
                    (String.length rest < String.length s)%nat) ->
  forall (f f' : nat) (s : string),
    (String.length s < f)%nat -> (String.length s < f')%nat ->
    findall_from f m s = findall_from f' m s.
Proof.
  intros Hm. induction f as [|f IH]; intros f' s Hf Hf'; [lia|].
  destruct f' as [|f']; [lia|]. cbn [findall_from].
  destruct (m s) as [[g rest]|] eqn:E.
  - f_equal. pose proof (Hm _ _ _ E). apply IH; lia.
  - destruct s as [|c s]; [reflexivity|]. cbn [String.length] in Hf, Hf'.
    apply IH; lia.
Qed.

Lemma findall_from_S {A} (fuel : nat) (m : string -> option (A * string))
    (s : string) :
  findall_from (S fuel) m s =
    match m s with
    | Some (groups, rest) => groups :: findall_from fuel m rest
    | None =>
        match s with
        | EmptyString => []
        | String _ rest => findall_from fuel m rest
        end
    end.
Proof. reflexivity. Qed.

Lemma findall_match {A} (m : string -> option (A * string)) (s : string) g rest :
  (forall s g rest, m s = Some (g, rest) ->
                    (String.length rest < String.length s)%nat) ->
  m s = Some (g, rest) ->
  re_findall m s = g :: re_findall m rest.
Proof.
  intros Hm E. unfold re_findall.
  rewrite (findall_from_S (String.length s) m s), E. f_equal.
  pose proof (Hm _ _ _ E). apply (findall_fuel m Hm); lia.
Qed.

Lemma findall_skip {A} (m : string -> option (A * string)) (c : ascii)
    (s : string) :
  m (String c s) = None -> re_findall m (String c s) = re_findall m s.
Proof.
  intros E. unfold re_findall.
  rewrite (findall_from_S (String.length (String c s)) m (String c s)), E.
  reflexivity.
Qed.

Lemma digits_start (s r : string) :
  all_digits s = true -> is_empty_string s = false ->
  starts_with_digit (s +:+ r) = true.
Proof.
  destruct s as [|c s]; [discriminate|]. string_app; cbn [all_digits starts_with_digit].
  intros H _. apply andb_true_iff in H as [H _]. exact H.
Qed.

Lemma sign_of_digits (s : string) :
  starts_with_digit s = true ->
  match s with
  | String "-"%char r' => ("-"%string, r')
  | _ => (EmptyString, s)
  end = (EmptyString, s).
Proof.
  destruct s as [|c s]; [reflexivity|].
  destruct c as [[] [] [] [] [] [] [] []]; try reflexivity.
  intros H. discriminate H.
Qed.

(** The first pattern at a cell entry: an id, the word, a label with or
    without a minus sign, and something that is no digit. *)
Lemma match_id_axoness_entry (id : string) (neg : bool) (ds r : string) :
  all_digits id = true -> is_empty_string id = false ->
  all_digits ds = true -> is_empty_string ds = false ->
  starts_with_digit r = false ->
  match_id_axoness
    (id +:+ "axoness" +:+ ((if neg then "-" else "") +:+ ds) +:+ r) =
    Some ((id, (if neg then "-" else "") +:+ ds), r).
Proof.
  intros Hid Hid' Hds Hds' Hr. unfold match_id_axoness.
  rewrite (span_digits_app id) by (auto; reflexivity).
  rewrite Hid'.
  change (strip_prefix "axoness"
            ("axoness" +:+ ((if neg then "-" else "") +:+ ds) +:+ r))
    with (Some (((if neg then "-" else "") +:+ ds) +:+ r)%string).
  cbv beta iota.
  destruct neg.
  - change (("-" +:+ ds) +:+ r)%string with (String "-"%char (ds +:+ r)).
    cbv beta iota.
    rewrite (span_digits_app ds r Hds Hr). rewrite Hds'. reflexivity.
  - change (("" +:+ ds) +:+ r)%string with (ds +:+ r)%string.
    rewrite sign_of_digits by (apply digits_start; assumption).
    rewrite (span_digits_app ds r Hds Hr). rewrite Hds'. reflexivity.
Qed.

(** Inside a text without the letter a that does not end with a digit the
    first pattern matches nowhere, whatever follows the text. *)
Lemma span_digits_inside (suf t : string) :
  is_empty_string suf = false -> ends_with_digit suf = false ->
  without_letter_a suf = true ->
  exists ds c r, span_digits (suf +:+ t) = (ds, String c r) /\
                 Ascii.eqb "a" c = false.
Proof.
  induction suf as [|c suf IH]; intros Hne Hend Ha; [discriminate|].
  cbn [without_letter_a] in Ha. apply andb_true_iff in Ha as [Hc Ha].
  apply negb_true_iff in Hc.
  string_app; cbn [span_digits]. cbn [ends_with_digit] in Hend.
  destruct (is_digit c) eqn:Ed.
  - destruct (is_empty_string suf) eqn:Es; [congruence|].
    destruct (IH eq_refl Hend Ha) as (ds & c' & r & E & Hc').
    rewrite E. exists (String c ds), c', r. split; [reflexivity|exact Hc'].
  - exists EmptyString, c, (suf +:+ t)%string. split; [reflexivity|exact Hc].
Qed.

Lemma match_id_axoness_inside (suf t : string) :
  is_empty_string suf = false -> ends_with_digit suf = false ->
  without_letter_a suf = true ->
  match_id_axoness (suf +:+ t) = None.
Proof.
  intros Hne Hend Ha.
  destruct (span_digits_inside suf t Hne Hend Ha) as (ds & c & r & E & Hc).
  unfold match_id_axoness. rewrite E.
  destruct (is_empty_string ds); [reflexivity|].
  cbn [strip_prefix]. rewrite Hc. reflexivity.
Qed.

Lemma findall_skip_prefix (pre t : string) :
  ends_with_digit pre = false -> without_letter_a pre = true ->
  re_findall match_id_axoness (pre +:+ t) = re_findall match_id_axoness t.
Proof.
  induction pre as [|c pre IH]; intros Hend Ha; [reflexivity|].
  change ((String c pre +:+ t)%string) with (String c (pre +:+ t)).
  rewrite findall_skip.
  - cbn [without_letter_a] in Ha. apply andb_true_iff in Ha as [_ Ha].
    cbn [ends_with_digit] in Hend.
    destruct pre as [|c' pre']; [reflexivity|].
    apply IH; [exact Hend|exact Ha].
  - change (String c (pre +:+ t)) with ((String c pre +:+ t)%string).
    apply match_id_axoness_inside; [reflexivity|exact Hend|exact Ha].
Qed.

(** *** [str] of a number *)

Lemma all_digits_app (s1 s2 : string) :
  all_digits (s1 +:+ s2) = all_digits s1 && all_digits s2.
Proof.
  induction s1 as [|c s1 IH]; string_app; cbn [all_digits]; [reflexivity|].
  rewrite IH, andb_assoc. reflexivity.
Qed.

Lemma digit_char_code (d : Z) :
  0 <= d < 10 -> nat_of_ascii (digit_char d) = (48 + Z.to_nat d)%nat.
Proof. intros H. unfold digit_char. apply nat_ascii_embedding. lia. Qed.

Lemma is_digit_digit_char (d : Z) : 0 <= d < 10 -> is_digit (digit_char d) = true.
Proof.
  intros H. unfold is_digit. rewrite digit_char_code by exact H.
  apply andb_true_iff. split; apply Nat.leb_le; lia.
Qed.

Lemma str_digits_all_digits (fuel : nat) :
  forall n, 0 <= n -> all_digits (str_digits fuel n) = true.
Proof.
  induction fuel as [|fuel IH]; intros n Hn; [reflexivity|].
  cbn [str_digits]. rewrite all_digits_app. apply andb_true_iff. split.
  - destruct (n <? 10); [reflexivity|]. apply IH. apply Z.div_pos; lia.
  - cbn [all_digits]. rewrite is_digit_digit_char; [reflexivity|].
    apply Z.mod_pos_bound. lia.
Qed.

Lemma str_digits_not_empty (fuel : nat) (n : Z) :
  is_empty_string (str_digits (S fuel) n) = false.
Proof.
  cbn [str_digits]. destruct (if n <? 10 then _ else _); reflexivity.
Qed.

Lemma digits_value_app (s1 s2 : string) :
  forall acc, digits_value (s1 +:+ s2) acc = digits_value s2 (digits_value s1 acc).
Proof.
  induction s1 as [|c s1 IH]; intros acc; string_app; cbn [digits_value];
    [reflexivity|]. apply IH.
Qed.

Lemma str_digits_value (fuel : nat) :
  forall n, 0 <= n < 2 ^ Z.of_nat fuel -> digits_value (str_digits fuel n) 0 = n.
Proof.
  induction fuel as [|fuel IH]; intros n Hn.
  - change (2 ^ Z.of_nat 0) with 1 in Hn. cbn [str_digits digits_value]. lia.
  - cbn [str_digits]. rewrite digits_value_app. cbn [digits_value].
    pose proof (Z.mod_pos_bound n 10 ltac:(lia)) as Hm.
    rewrite digit_char_code by exact Hm.
    replace (48 + Z.to_nat (n mod 10) - 48)%nat with (Z.to_nat (n mod 10)) by lia.
    rewrite Z2Nat.id by lia.
    pose proof (Z.div_mod n 10 ltac:(lia)) as Hdm.
    destruct (Z.ltb_spec n 10).
    + cbn [digits_value]. rewrite Z.mod_small by lia. lia.
    + rewrite IH; [lia|].
      rewrite Nat2Z.inj_succ, Z.pow_succ_r in Hn by lia.
      split; [apply Z.div_pos; lia|].
      apply Z.div_lt_upper_bound; lia.
Qed.

Lemma log2_fuel (n : Z) : 0 <= n -> n < 2 ^ Z.of_nat (S (Z.to_nat (Z.log2 n))).
Proof.
  intros Hn. destruct (Z.eq_dec n 0) as [->|Hne]; [reflexivity|].
  rewrite Nat2Z.inj_succ, Z2Nat.id by apply Z.log2_nonneg.
  apply Z.log2_spec. lia.
Qed.

(** The text of a number that is not negative: digits, at least one, and
    their value is the number. *)
Lemma py_str_digits (n : Z) :
  0 <= n ->
  all_digits (py_str n) = true /\ is_empty_string (py_str n) = false /\
  digits_value (py_str n) 0 = n.
Proof.
  intros Hn. unfold py_str. destruct (Z.ltb_spec n 0); [lia|].
  split; [apply str_digits_all_digits; exact Hn|].
  split; [apply str_digits_not_empty|].
  apply str_digits_value. split; [exact Hn|]. apply log2_fuel. exact Hn.
Qed.

(** The text of any number: a minus sign or none, and digits. *)
Lemma py_str_signed (n : Z) :
  exists (neg : bool) (ds : string),
    py_str n = ((if neg then "-" else "") +:+ ds)%string /\
    all_digits ds = true /\ is_empty_string ds = false /\
    (if neg then - digits_value ds 0 else digits_value ds 0) = n.
Proof.
  destruct (Z.ltb_spec n 0) as [Hneg|Hpos].
  - exists true, (str_digits (S (Z.to_nat (Z.log2 (- n)))) (- n)).
    split; [unfold py_str; destruct (Z.ltb_spec n 0); [reflexivity|lia]|].
    split; [apply str_digits_all_digits; lia|].
    split; [apply str_digits_not_empty|].
    rewrite str_digits_value; [lia|]. split; [lia|]. apply log2_fuel. lia.
  - exists false, (py_str n). destruct (py_str_digits n Hpos) as (H1 & H2 & H3).
    split; [reflexivity|]. split; [exact H1|]. split; [exact H2|exact H3].
Qed.

Lemma int64_of_signed (neg : bool) (ds : string) (n : Z) :
  all_digits ds = true -> is_empty_string ds = false ->
  (if neg then - digits_value ds 0 else digits_value ds 0) = n ->
  - 2 ^ 63 <= n < 2 ^ 63 ->
  int64_of_string ((if neg then "-" else "") +:+ ds) = Ok n.
Proof.
  intros Hd He Hv Hn. unfold int64_of_string.
  assert (Hs : match ((if neg then "-" else "") +:+ ds)%string with
               | String "-"%char ds' => - digits_value ds' 0
               | _ => digits_value ((if neg then "-" else "") +:+ ds) 0
               end = n).
  { destruct neg; [exact Hv|].
    change (("" +:+ ds)%string) with ds.
    destruct ds as [|c s]; [discriminate|].
    cbn [all_digits] in Hd. apply andb_true_iff in Hd as [Hc _].
    destruct c as [[] [] [] [] [] [] [] []]; try exact Hv. discriminate Hc. }
  cbv zeta. rewrite Hs.
  destruct (Z.leb_spec (- 2 ^ 63) n); [|lia].
  destruct (Z.ltb_spec n (2 ^ 63)); [|lia]. reflexivity.
Qed.

Lemma string_app_nil_r (s : string) : (s +:+ "")%string = s.
Proof.
  induction s as [|c s IH]; [reflexivity|].
  string_app. rewrite IH. reflexivity.
Qed.

(** What the first pattern finds in the appended comment. *)
Lemma findall_axoness_comment (pre : string) (ids : Z * Z) (ax0 ax1 : Z) :
  ends_with_digit pre = false -> without_letter_a pre = true ->
  0 <= fst ids -> 0 <= snd ids ->
  re_findall match_id_axoness (pre +:+ axoness_comment ids ax0 ax1) =
    [(py_str (fst ids), py_str ax0); (py_str (snd ids), py_str ax1)].
Proof.
  intros Hend Ha H0 H1. rewrite (findall_skip_prefix pre _ Hend Ha).
  destruct (py_str_digits _ H0) as (Hd0 & He0 & _).
  destruct (py_str_digits _ H1) as (Hd1 & He1 & _).
  destruct (py_str_signed ax0) as (neg0 & ds0 & E0 & Hds0 & Hne0 & _).
  destruct (py_str_signed ax1) as (neg1 & ds1 & E1 & Hds1 & Hne1 & _).
  unfold axoness_comment. rewrite E0, E1.
  set (sign1 := (if neg1 then "-" else "")%string).
  rewrite (findall_match match_id_axoness _ _ _ match_id_axoness_consumes
             (match_id_axoness_entry (py_str (fst ids)) neg0 ds0
                ("_" +:+ py_str (snd ids) +:+ "axoness" +:+ sign1 +:+ ds1)
                Hd0 He0 Hds0 Hne0 eq_refl)).
  f_equal.
  rewrite (string_app_cons "_" "").
  rewrite findall_skip by reflexivity.
  rewrite string_app_nil_l.
  subst sign1.
  replace (py_str (snd ids) +:+ "axoness" +:+ (if neg1 then "-" else "") +:+ ds1)%string
    with (py_str (snd ids) +:+ "axoness" +:+
          ((if neg1 then "-" else "") +:+ ds1) +:+ "")%string
    by (rewrite string_app_nil_r; reflexivity).
  rewrite (findall_match match_id_axoness _ _ _ match_id_axoness_consumes
             (match_id_axoness_entry (py_str (snd ids)) neg1 ds1 ""
                Hd1 He1 Hds1 Hne1 eq_refl)).
  reflexivity.
Qed.

Lemma int64_of_py_str (n : Z) :
  - 2 ^ 63 <= n < 2 ^ 63 -> int64_of_string (py_str n) = Ok n.
Proof.
  intros Hn. destruct (py_str_signed n) as (neg & ds & E & Hd & He & Hv).
  rewrite E. apply int64_of_signed; assumption.
Qed.

(** X28.  The comment that [predict_axoness_from_nodes] appends to a
    contact site is read back by [calc_syn_dict] as it was written.  Take
    a comment that does not end with a digit and has no letter a, in which
    the second pattern finds a contact number, and append the text for two
    cell ids that are not negative and two compartment labels, all within
    the 64-bit range: the head of the loop body gets the two ids and the
    two labels back, with their texts as the matches of the first
    pattern. *)
Theorem calc_syn_dict_reads_axoness_comment (pre nb : string) (ids : Z * Z)
    (axoness_0 axoness_1 : Z) :
  ends_with_digit pre = false -> without_letter_a pre = true ->
  0 <= fst ids < 2 ^ 63 -> 0 <= snd ids < 2 ^ 63 ->
  - 2 ^ 63 <= axoness_0 < 2 ^ 63 -> - 2 ^ 63 <= axoness_1 < 2 ^ 63 ->
  py_index (re_findall match_cs
              (pre +:+ axoness_comment ids axoness_0 axoness_1)) 0 = Ok nb ->
  parse_ax_info (pre +:+ axoness_comment ids axoness_0 axoness_1) =
    Ok (mk_parsed (py_str (fst ids), py_str axoness_0)
                  (py_str (snd ids), py_str axoness_1)
                  nb ids (axoness_0, axoness_1)).
Proof.
  intros Hend Ha H0 H1 Hax0 Hax1 Hnb. unfold parse_ax_info.
  rewrite findall_axoness_comment by (assumption || lia).
  cbn [mbind result_bind]. rewrite Hnb. cbn [mbind result_bind fst snd].
  rewrite !int64_of_py_str by lia.
  destruct ids as [id0 id1]. reflexivity.
Qed.

Lemma calc_syn_dict_reads_axoness_comment_witness :
  parse_ax_info ("iter_0_5_7_cs12_vc_sj;" +:+ axoness_comment (5, 7) 1 (-1)) =
    Ok (mk_parsed (py_str 5, py_str 1) (py_str 7, py_str (-1))
                  "12" (5, 7) (1, -1)).
Proof.
  apply (calc_syn_dict_reads_axoness_comment
           "iter_0_5_7_cs12_vc_sj;" "12" (5, 7) 1 (-1));
    try reflexivity; cbn [fst snd]; lia.
Defined.
